(** * skill-picard: a shallow embedding of the provisioning engine

    The development follows [src/picard.py] (the periodic sweep
    [mirror_slack_channels] and its helpers) and [src/picard/commands.py]
    (the chat commands).  Python dictionaries whose iteration order is
    observable are insertion-ordered association lists; dictionaries that are
    only looked up are [gmap]s; coroutines are computations in a state and
    exception monad over the trace of platform calls issued so far. *)

From Stdlib Require Import Ascii String ZArith.
From stdpp Require Import gmap strings list fin_maps.

Open Scope string_scope.
Open Scope Z_scope.
Open Scope list_scope.

(** ** Python exceptions and results *)

Inductive exn :=
| MatrixRequestError (code : Z) (content : string)
| SlackerError
| KeyError (key : string)
| IndexError
| TypeError
| AttributeError
| OtherException (msg : string).

Inductive result (A : Type) :=
| Ok (a : A)
| Raise (e : exn).
Arguments Ok {A} a.
Arguments Raise {A} e.

Definition is_ok {A} (r : result A) : bool :=
  match r with Ok _ => true | Raise _ => false end.

(** ** A state and exception monad

    [St S A] is a computation over a state [S] that returns an [A] or raises.
    The state survives an exception, as the effects of a Python coroutine
    do. *)

Definition St (S A : Type) : Type := S -> result A * S.

Definition ret {S A} (a : A) : St S A := fun s => (Ok a, s).

Definition raise {S A} (e : exn) : St S A := fun s => (Raise e, s).

Definition bind {S A B} (m : St S A) (k : A -> St S B) : St S B :=
  fun s => match m s with
           | (Ok a, s') => k a s'
           | (Raise e, s') => (Raise e, s')
           end.

(** [try: m  except e: h e].  A handler that does not match re-raises. *)
Definition try_except {S A} (m : St S A) (h : exn -> St S A) : St S A :=
  fun s => match m s with
           | (Ok a, s') => (Ok a, s')
           | (Raise e, s') => h e s'
           end.

Declare Scope picard_scope.
Delimit Scope picard_scope with picard.
Notation "x <- m ;; k" := (bind m (fun x => k))
  (at level 100, m at next level, right associativity) : picard_scope.
Notation "m ;;; k" := (bind m (fun _ => k))
  (at level 100, right associativity) : picard_scope.
Open Scope picard_scope.

(** [for x in xs: body x] *)
Fixpoint for_each {S A} (xs : list A) (body : A -> St S unit) : St S unit :=
  match xs with
  | [] => ret tt
  | x :: xs' => body x ;;; for_each xs' body
  end.

(** [if c: m] *)
Definition when {S} (c : bool) (m : St S unit) : St S unit :=
  if c then m else ret tt.

(** ** Python strings and truth values *)

(** [s.startswith(p)] *)
Definition startswith (p s : string) : bool := String.prefix p s.

(** [sub in s] for strings *)
Fixpoint str_contains (sub s : string) : bool :=
  String.prefix sub s ||
  match s with
  | EmptyString => false
  | String _ s' => str_contains sub s'
  end.

(** [s.split(':')[0]] *)
Fixpoint before_colon (s : string) : string :=
  match s with
  | EmptyString => EmptyString
  | String c s' => if Ascii.eqb c ":"%char then EmptyString
                   else String c (before_colon s')
  end.

(** [s[1:]] *)
Definition drop_first (s : string) : string :=
  match s with
  | EmptyString => EmptyString
  | String _ s' => s'
  end.

(** [alias.split(':')[0][1:]], the local part of [#local:domain] *)
Definition alias_localpart (alias : string) : string :=
  drop_first (before_colon alias).

Definition truthy_str (s : string) : bool :=
  match s with EmptyString => false | _ => true end.

Definition truthy_opt_str (o : option string) : bool :=
  match o with Some s => truthy_str s | None => false end.

Definition truthy_list {A} (l : list A) : bool :=
  match l with [] => false | _ => true end.

(** ** Insertion-ordered dictionaries

    [d[k] = v] keeps the position of a key already present and appends a new
    key at the end, which is the order [dict.items()] iterates in. *)

Definition odict (V : Type) : Type := list (string * V).

Fixpoint odict_set {V} (k : string) (v : V) (d : odict V) : odict V :=
  match d with
  | [] => [(k, v)]
  | (k', v') :: d' =>
      if String.eqb k' k then (k', v) :: d'
      else (k', v') :: odict_set k v d'
  end.

Fixpoint odict_get {V} (k : string) (d : odict V) : option V :=
  match d with
  | [] => None
  | (k', v') :: d' => if String.eqb k' k then Some v' else odict_get k d'
  end.

Definition odict_keys {V} (d : odict V) : list string := d.*1.

(** ** Data model *)

(** A Slack channel as [channels.list] returns it; [ch_topic] is
    [channel['topic']['value']]. *)
Record Channel := {
  ch_id : string;
  ch_name : string;
  ch_is_archived : bool;
  ch_topic : string
}.

(** The skill configuration.  A field read with [config[...]] is mandatory,
    one read with [config.get(..., default)] is optional. *)
Record Config := {
  slack_bot_token : string;
  slack_user_token : string;
  bridge_bot_name : string;
  community_id : string;
  room_alias_prefix : string;
  server_name : string;
  as_userid : string;
  make_public : option bool;
  room_name_prefix : option string;
  related_groups : option (list string);
  room_avatar_url : option string;
  users_as_admin : option (list string);
  room_pl_0 : option bool;
  users_to_invite : option (list string);
  invite_communtiy_to_rooms : option bool
}.

(** A Ledger entry: [(channel_name, room_alias, topic)] *)
Definition LedgerEntry : Type := string * string * string.

(** The value of a top-level key of an [m.room.power_levels] document: an
    integer level ([ban], [kick], ...) or a map of levels ([users],
    [events], [notifications]). *)
Inductive pl_value :=
| PLInt (n : Z)
| PLMap (m : gmap string Z).

(** opsdroid's memory, as far as the skill uses it: the Ledger
    [seen_channels], the [autoinvite_users] list and the per-room
    [picard.options] documents.  [None] is a key never written. *)
Record Memory := {
  seen_channels : option (gmap string LedgerEntry);
  autoinvite_users : option (list string);
  picard_options : gmap string (gmap string bool)
}.

(** ** Channel discovery ([picard.py], lines 39-70) *)

(** [{c['id']: c['name'] for c in channels}] *)
Definition get_channel_mapping (channels : list Channel) : gmap string string :=
  foldl (fun m c => <[ch_id c := ch_name c]> m) ∅ channels.

(** [f"#{prefix}{channel_name}:{server_name}"] *)
Definition room_alias_of (prefix channel_name server : string) : string :=
  "#" +:+ prefix +:+ channel_name +:+ ":" +:+ server.

(** The body of the loop of [get_new_channels], over the accumulator
    [new_channels].  [all_channels] is what [slack.channels.list()] returns
    to [get_channel_mapping]. *)
Fixpoint get_new_channels_loop (all_channels : list Channel) (config : Config)
    (seen : gmap string LedgerEntry) (channels : list Channel)
    (new_channels : odict LedgerEntry) : result (odict LedgerEntry) :=
  match channels with
  | [] => Ok new_channels
  | channel :: rest =>
      if ch_is_archived channel then
        get_new_channels_loop all_channels config seen rest new_channels
      else
        match seen !! ch_id channel with
        | Some _ => get_new_channels_loop all_channels config seen rest new_channels
        | None =>
            let prefix := room_alias_prefix config in
            match get_channel_mapping all_channels !! ch_id channel with
            | None => Raise (KeyError (ch_id channel))
            | Some channel_name =>
                let server := server_name config in
                let alias := room_alias_of prefix channel_name server in
                let topic := ch_topic channel in
                get_new_channels_loop all_channels config seen rest
                  (odict_set (ch_id channel) (channel_name, alias, topic)
                             new_channels)
            end
        end
  end.

(** [get_new_channels(slack, config, seen_channels)], with [channels] the
    list the workspace answers [slack.channels.list()] with. *)
Definition get_new_channels (channels : list Channel) (config : Config)
    (seen : gmap string LedgerEntry) : result (odict LedgerEntry) :=
  get_new_channels_loop channels config seen channels [].

(** ** Power levels ([picard.py], lines 212-235) *)

(** [user_is_room_admin(power_levels, room_alias, mxid)] *)
Definition user_is_room_admin (power_levels : gmap string pl_value)
    (mxid : string) : result (gmap string pl_value) :=
  match power_levels !! "users" with
  | None => Raise (KeyError "users")
  | Some (PLInt _) => Raise AttributeError
  | Some (PLMap users) =>
      let user_pl := users !! mxid in
      if decide (user_pl ≠ Some 100) then
        Ok (<["users" := PLMap (<[mxid := 100]> users)]> power_levels)
      else Ok power_levels
  end.

(** [room_notifications_pl0(power_levels, room_alias)] *)
Definition room_notifications_pl0 (power_levels : gmap string pl_value)
    : result (gmap string pl_value) :=
  match default (PLMap ∅) (power_levels !! "notifications") with
  | PLInt _ => Raise TypeError
  | PLMap notifications =>
      Ok (<["notifications" := PLMap (<["room" := 0]> notifications)]>
            power_levels)
  end.

(** ** The two platforms

    Every call the skill issues to Slack, to the Matrix homeserver or to the
    chat it answers in is recorded, in order, in a trace. *)

(** The content of a state event the skill sends. *)
Inductive state_content :=
| JoinRule (join_rule : string)
| HistoryVisibility (history_visibility : string)
| AvatarUrl (url : string)
| Groups (groups : list string).

(** A member of a community, as [get_users_in_group] lists it. *)
Record GroupUser := {
  gu_user_id : string;
  gu_is_privileged : bool
}.

Inductive call :=
| SlackConversationsMembers (channel_id : string)
| SlackChannelsInvite (channel_id bot_id : string)
| GetRoomId (room_alias : string)
| CreateRoom (alias_local : string)
| JoinRoom (room_id : string)
| GetJoinedRooms
| SetRoomName (room_id name : string)
| SetRoomTopic (room_id topic : string)
| SendStateEvent (room_id event_type : string) (content : state_content)
| InviteUser (room_id user : string)
| GetPowerLevels (room_id : option string)
| SetPowerLevels (room_id : option string) (power_levels : gmap string pl_value)
| GetRelatedGroups (room_id : string)
| GetGroupProfile (community : string)
| CreateGroup (localpart : string)
| GetUsersInGroup (community : string)
| GetRoomsInGroup (community : string)
| AddRoomToGroup (community room_id : string)
| GetRoomState (room_id : string)
| Respond (text : string) (room : option string)
| MemoryGet (key : string)
| MemoryPut (key : string).

Definition trace : Type := list call.

(** What the platforms answer.  An answer may depend on every call issued
    before it, so a homeserver with state of its own is an instance.  The
    workspace's channel list and the bot's user id are read once per sweep
    and are fixed.  [chat_respond] is the outcome of sending a message to the
    chat the sweep reports to, or to the room named. *)
Record Platform := {
  slack_channels : list Channel;
  slack_get_user_id : string -> result string;
  slack_conversations_members : trace -> string -> result (list string);
  slack_channels_invite : trace -> string -> string -> result unit;
  connector_mxid : string;
  has_create_group : bool;
  api_get_room_id : trace -> string -> result string;
  api_create_room : trace -> string -> result string;
  api_join_room : trace -> string -> result unit;
  api_joined_rooms : trace -> result (list string);
  api_set_room_name : trace -> string -> string -> result unit;
  api_set_room_topic : trace -> string -> string -> result unit;
  api_send_state_event : trace -> string -> string -> state_content -> result unit;
  api_invite_user : trace -> string -> string -> result unit;
  api_get_power_levels : trace -> option string -> result (gmap string pl_value);
  api_set_power_levels :
    trace -> option string -> gmap string pl_value -> result unit;
  api_get_related_groups : trace -> string -> result (list string);
  api_get_group_profile : trace -> string -> result (list (string * string));
  api_create_group : trace -> string -> result string;
  api_get_users_in_group : trace -> string -> result (list GroupUser);
  api_get_rooms_in_group : trace -> string -> result (list string);
  api_add_room_to_group : trace -> string -> string -> result unit;
  api_get_room_state : trace -> string -> result (list (option string));
  chat_respond : trace -> string -> option string -> result unit
}.

(** A coroutine that talks to the platforms. *)
Definition Plat (A : Type) : Type := St trace A.

(** Issue call [c]; the platform answers from the calls before it. *)
Definition perform {A} (c : call) (answer : trace -> result A) : Plat A :=
  fun t => (answer t, t ++ [c]).

(** A coroutine object that has been created by calling an [async def] but
    not awaited.  It has neither [__bool__] nor [__len__], so its truth value
    is [True]; creating it runs nothing. *)
Definition coroutine (A : Type) : Type := Plat A.
Definition await {A} (c : coroutine A) : Plat A := c.
Definition coroutine_truth {A} (c : coroutine A) : bool := true.

(** [list(set(xs))]: the elements of [xs], each once, in the order the
    interpreter's hash table happens to yield them. *)
Class PySet := {
  list_of_set : list string -> list string;
  list_of_set_NoDup : forall xs, NoDup (list_of_set xs);
  list_of_set_elem : forall xs x, x ∈ list_of_set xs <-> x ∈ xs
}.

Section Picard.
Context (px : Platform) `{PySet}.

(** [await message.respond(text)] and
    [await message.respond(text, room='bridge')] in the sweep: a send through
    the connector, which can fail like any other call. *)
Definition respond (text : string) (room : option string) : Plat unit :=
  perform (Respond text room) (fun t => chat_respond px t text room).

(** *** Slack helpers ([picard.py], lines 16-36) *)

Definition get_room_members (channel_id : string) : Plat (list string) :=
  perform (SlackConversationsMembers channel_id)
          (fun t => slack_conversations_members px t channel_id).

Definition join_bot_to_channel (bot_id channel_id : string) : Plat unit :=
  members <- get_room_members channel_id ;;
  if bool_decide (bot_id ∉ members) then
    try_except
      (perform (SlackChannelsInvite channel_id bot_id)
               (fun t => slack_channels_invite px t channel_id bot_id))
      (fun e => match e with
                | SlackerError => ret tt   (* logged *)
                | _ => raise e
                end)
  else ret tt.

(** *** Rooms ([picard.py], lines 82-150) *)

(** [room_alias] is [None] where a caller passes on the [None] an earlier
    lookup returned; [None.startswith] raises. *)
Definition room_id_if_exists (room_alias : option string)
    : Plat (option string) :=
  match room_alias with
  | None => raise AttributeError
  | Some alias =>
      if startswith "!" alias then ret (Some alias)
      else
        try_except
          (room_id <- perform (GetRoomId alias)
                              (fun t => api_get_room_id px t alias) ;;
           ret (Some room_id))
          (fun e => match e with
                    | MatrixRequestError code _ =>
                        if bool_decide (code ≠ 404) then raise e else ret None
                    | _ => raise e
                    end)
  end.

Definition joined_rooms : Plat (list string) :=
  perform GetJoinedRooms (fun t => api_joined_rooms px t).

Definition is_in_matrix_room (room_id : string) : Plat bool :=
  rooms <- await joined_rooms ;;
  ret (bool_decide (room_id ∈ rooms)).

Definition join_room (room_id : string) : Plat unit :=
  perform (JoinRoom room_id) (fun t => api_join_room px t room_id).

Definition intent_self_in_room (room : string) : Plat string :=
  room_id <- room_id_if_exists (Some room) ;;
  match room_id with
  | None =>
      room_id <- try_except
        (perform (CreateRoom (alias_localpart room))
                 (fun t => api_create_room px t (alias_localpart room)))
        (fun e => match e with
                  | MatrixRequestError _ _ =>
                      perform (GetRoomId room)
                              (fun t => api_get_room_id px t room)
                  | _ => raise e
                  end) ;;
      join_room room_id ;;;
      ret room_id
  | Some room_id =>
      (* [is_in_room = is_in_matrix_room(...)], without [await] *)
      let is_in_room : coroutine bool := is_in_matrix_room room_id in
      when (negb (coroutine_truth is_in_room)) (join_room room_id) ;;;
      ret room_id
  end.

Definition intent_user_in_room (user : string) (room : option string)
    : Plat (option string) :=
  room_id <- room_id_if_exists room ;;
  match room_id with
  | Some rid =>
      try_except
        (perform (InviteUser rid user)
                 (fun t => api_invite_user px t rid user) ;;;
         ret room_id)
        (fun e => match e with
                  | MatrixRequestError _ content =>
                      if str_contains "already in the room" content
                      then ret room_id
                      else ret None
                  | _ => raise e
                  end)
  | None => ret room_id
  end.

(** *** Communities ([picard.py], lines 153-181) *)

Definition admin_of_community (community : string) : Plat (option string) :=
  if negb (has_create_group px) then ret None
  else
    (* [inl profile], or [inr group_id] when the handler returns *)
    r <- try_except
           (profile <- perform (GetGroupProfile community)
                               (fun t => api_get_group_profile px t community) ;;
            ret (inl profile))
           (fun e => match e with
                     | MatrixRequestError code _ =>
                         if bool_decide (code ≠ 404) then raise e
                         else
                           group_id <-
                             perform (CreateGroup (alias_localpart community))
                                     (fun t => api_create_group px t
                                                 (alias_localpart community)) ;;
                           ret (inr group_id)
                     | _ => raise e
                     end) ;;
    match r with
    | inr group_id => ret (Some group_id)
    | inl profile =>
        if truthy_list profile then
          users <- perform (GetUsersInGroup community)
                           (fun t => api_get_users_in_group px t community) ;;
          let myself :=
            filter (fun key => gu_user_id key = connector_mxid px) users in
          match myself with
          | [] => raise IndexError
          | me :: _ =>
              if negb (gu_is_privileged me) then ret None
              else ret (Some community)
          end
        else ret (Some community)
    end.

(** *** Power levels ([picard.py], lines 199-261) *)

Definition lift_result {S A} (r : result A) : St S A := fun s => (r, s).

Definition set_power_levels (room_alias : option string)
    (power_levels : gmap string pl_value) : Plat unit :=
  room_id <- room_id_if_exists room_alias ;;
  perform (SetPowerLevels room_id power_levels)
          (fun t => api_set_power_levels px t room_id power_levels).

Definition get_power_levels (room_alias : option string)
    : Plat (gmap string pl_value) :=
  room_id <- room_id_if_exists room_alias ;;
  perform (GetPowerLevels room_id)
          (fun t => api_get_power_levels px t room_id).

(** [for user in users_as_admin: ...], threading [power_levels] *)
Fixpoint add_admin_users (room_id : option string) (users : list string)
    (power_levels : gmap string pl_value) : Plat (gmap string pl_value) :=
  match users with
  | [] => ret power_levels
  | user :: rest =>
      intent_user_in_room user room_id ;;;
      power_levels <- lift_result (user_is_room_admin power_levels user) ;;
      add_admin_users room_id rest power_levels
  end.

Definition configure_room_power_levels (config : Config) (room_alias : string)
    : Plat unit :=
  room_id <- room_id_if_exists (Some room_alias) ;;
  let admins := default [] (users_as_admin config) in
  power_levels <- get_power_levels room_id ;;
  power_levels <- add_admin_users room_id admins power_levels ;;
  let pl_0 := default false (room_pl_0 config) in
  power_levels <- (if pl_0
                   then lift_result (room_notifications_pl0 power_levels)
                   else ret power_levels) ;;
  when (truthy_list admins || pl_0) (set_power_levels room_id power_levels).

(** *** Related groups ([picard.py], lines 264-306) *)

Definition get_related_groups (roomid : string) : Plat (list string) :=
  try_except
    (perform (GetRelatedGroups roomid)
             (fun t => api_get_related_groups px t roomid))
    (fun e => match e with
              | MatrixRequestError code _ =>
                  if bool_decide (code ≠ 404) then raise e else ret []
              | _ => raise e
              end).

Definition set_related_groups (roomid : string) (communities : list string)
    : Plat unit :=
  perform (SendStateEvent roomid "m.room.related_groups" (Groups communities))
          (fun t => api_send_state_event px t roomid "m.room.related_groups"
                      (Groups communities)).

(** [new_groups = list(set(existing_communities))] after
    [existing_communities += communities] *)
Definition merge_related_groups (existing communities : list string)
    : list string :=
  list_of_set (existing ++ communities).

Definition update_related_groups (roomid : string) (communities : list string)
    : Plat unit :=
  existing_communities <- get_related_groups roomid ;;
  set_related_groups roomid
    (merge_related_groups existing_communities communities).

Definition user_in_state (roomid mxid : string) : Plat bool :=
  state <- perform (GetRoomState roomid)
                   (fun t => api_get_room_state px t roomid) ;;
  let keys := map (fun s => default "" s) state in
  ret (bool_decide (mxid ∈ keys)).

(** *** Room avatar ([picard.py], lines 328-357) *)

(** [upload_image_to_matrix(self, image_url)] takes two arguments;
    [set_room_avatar] calls it with one, which raises before any request. *)
Definition upload_image_to_matrix (image_url : string) : Plat string :=
  raise TypeError.

Definition set_room_avatar (room_id avatar_url : string) : Plat unit :=
  avatar_url <- (if negb (startswith "mxc" avatar_url)
                 then upload_image_to_matrix avatar_url
                 else ret avatar_url) ;;
  perform (SendStateEvent room_id "m.room.avatar" (AvatarUrl avatar_url))
          (fun t => api_send_state_event px t room_id "m.room.avatar"
                      (AvatarUrl avatar_url)).

(** *** The sweep ([picard.py], lines 360-486) *)

(** Lines 415-423: room name, topic and avatar. *)
Definition set_name_topic_avatar (config : Config) (room_name_prefix : string)
    (room_id channel_name topic : string) : Plat unit :=
  let room_name := room_name_prefix +:+ channel_name in
  perform (SetRoomName room_id room_name)
          (fun t => api_set_room_name px t room_id room_name) ;;;
  when (truthy_str topic)
       (perform (SetRoomTopic room_id topic)
                (fun t => api_set_room_topic px t room_id topic)) ;;;
  let avatar_url := room_avatar_url config in
  match avatar_url with
  | Some url => when (truthy_str url) (set_room_avatar room_id url)
  | None => ret tt
  end.

(** Lines 425-436: join rule and history visibility, under
    [except Exception]. *)
Definition make_room_public (room_id room_alias : string) : Plat unit :=
  try_except
    (perform (SendStateEvent room_id "m.room.join_rules" (JoinRule "public"))
             (fun t => api_send_state_event px t room_id "m.room.join_rules"
                         (JoinRule "public")) ;;;
     perform (SendStateEvent room_id "m.room.history_visibility"
                (HistoryVisibility "world_readable"))
             (fun t => api_send_state_event px t room_id
                         "m.room.history_visibility"
                         (HistoryVisibility "world_readable")))
    (fun _ =>
       respond ("ERROR: Could not make " +:+ room_alias
                +:+ " publically joinable.") None).

(** Lines 463-477: the community of the room. *)
Definition add_room_to_community (config : Config) (community : option string)
    (rooms_in_community : list string) (room_id room_alias : string)
    : Plat unit :=
  match community with
  | Some c =>
      if truthy_str c then
        when (bool_decide (room_id ∉ rooms_in_community))
             (try_except
                (perform (AddRoomToGroup c room_id)
                         (fun t => api_add_room_to_group px t c room_id))
                (fun _ => ret tt)) ;;;
        all_users <- perform (GetUsersInGroup c)
                             (fun t => api_get_users_in_group px t c) ;;
        when (default false (invite_communtiy_to_rooms config))
             (for_each all_users (fun user =>
                in_room <- user_in_state room_id (gu_user_id user) ;;
                if negb in_room
                then intent_user_in_room (gu_user_id user) (Some room_id) ;;;
                     ret tt
                else ret tt))
      else ret tt
  | None => ret tt
  end.

(** Lines 408-479: the body of the loop over [new_channels.items()].  The
    [continue] of line 443 ends the body. *)
Definition mirror_channel (config : Config) (bridge_bot_id : string)
    (community : option string) (rooms_in_community : list string)
    (item : string * LedgerEntry) : Plat unit :=
  let '(channel_id, (channel_name, room_alias, topic)) := item in
  let token := slack_bot_token config in
  let u_token := slack_user_token config in
  let name_prefix :=
    default (room_alias_prefix config) (room_name_prefix config) in
  let groups := default [] (related_groups config) in
  join_bot_to_channel bridge_bot_id channel_id ;;;
  room_id <- intent_self_in_room room_alias ;;
  set_name_topic_avatar config name_prefix room_id channel_name topic ;;;
  when (default true (make_public config))
       (make_room_public room_id room_alias) ;;;
  room_id <- intent_user_in_room (as_userid config) (Some room_id) ;;
  match room_id with
  | None =>
      respond ("ERROR: Could not invite appservice bot" +:+ "to "
               +:+ room_alias +:+ ", skipping channel.") None
  | Some room_id =>
      configure_room_power_levels config room_id ;;;
      when (truthy_list groups) (update_related_groups room_id groups) ;;;
      respond ("link --channel_id " +:+ channel_id +:+ " --room " +:+ room_id
               +:+ " --slack_bot_token " +:+ token
               +:+ " --slack_user_token " +:+ u_token) (Some "bridge") ;;;
      for_each (default [] (users_to_invite config))
               (fun user => intent_user_in_room user (Some room_id) ;;;
                            ret tt) ;;;
      add_room_to_community config community rooms_in_community
                            room_id room_alias ;;;
      respond ("Finished Adding room " +:+ room_alias) None
  end.

(** The skill's coroutines that also use opsdroid's memory. *)
Definition Bot (A : Type) : Type := St (Memory * trace) A.

Definition lift_plat {A} (m : Plat A) : Bot A :=
  fun '(mem, t) => let '(r, t') := m t in (r, (mem, t')).

(** [await opsdroid.memory.get("seen_channels")] *)
Definition memory_get_seen_channels : Bot (option (gmap string LedgerEntry)) :=
  fun '(mem, t) => (Ok (seen_channels mem), (mem, t ++ [MemoryGet "seen_channels"])).

(** [await opsdroid.memory.put("seen_channels", seen)] *)
Definition memory_put_seen_channels (seen : gmap string LedgerEntry)
    : Bot unit :=
  fun '(mem, t) =>
    (Ok tt, ({| seen_channels := Some seen;
                autoinvite_users := autoinvite_users mem;
                picard_options := picard_options mem |},
             t ++ [MemoryPut "seen_channels"])).

(** [seen_channels.update(new_channels)] *)
Definition ledger_update (seen : gmap string LedgerEntry)
    (new_channels : odict LedgerEntry) : gmap string LedgerEntry :=
  foldl (fun m kv => <[kv.1 := kv.2]> m) seen new_channels.

(** [mirror_slack_channels(opsdroid, config, message)].  [message] only
    selects the chat the notices go to and is left out. *)
Definition mirror_slack_channels (config : Config) : Bot unit :=
  bridge_bot_id <- lift_result (slack_get_user_id px (bridge_bot_name config)) ;;
  seen <- memory_get_seen_channels ;;
  let seen := default ∅ seen in
  new_channels <- lift_result (get_new_channels (slack_channels px) config seen) ;;
  community <- lift_plat (admin_of_community (community_id config)) ;;
  rooms_in_community <-
    (if truthy_opt_str community
     then lift_plat (perform (GetRoomsInGroup (default "" community))
                       (fun t => api_get_rooms_in_group px t
                                   (default "" community)))
     else ret []) ;;
  lift_plat (for_each new_channels
               (mirror_channel config bridge_bot_id community
                               rooms_in_community)) ;;;
  when (truthy_list new_channels)
       (memory_put_seen_channels (ledger_update seen new_channels) ;;;
        lift_plat (respond "Finished adding all rooms." None)).

End Picard.

(** ** Chat commands ([picard/commands.py]) *)

(** What a handler reads from the message that triggered it:
    [message.raw_event['sender']], [message.target] and
    [message.regex['flag']]. *)
Record Message := {
  msg_sender : string;
  msg_target : string;
  msg_flag : string
}.

(** [await message.respond(text)] in a command handler: the reply is
    recorded and taken to be delivered. *)
Definition bot_respond (text : string) : Bot unit :=
  fun '(mem, t) => (Ok tt, (mem, t ++ [Respond text None])).

(** [await self.opsdroid.memory.get("autoinvite_users")] *)
Definition memory_get_autoinvite_users : Bot (option (list string)) :=
  fun '(mem, t) =>
    (Ok (autoinvite_users mem), (mem, t ++ [MemoryGet "autoinvite_users"])).

(** [await self.opsdroid.memory.put("autoinvite_users", users)] *)
Definition memory_put_autoinvite_users (users : list string) : Bot unit :=
  fun '(mem, t) =>
    (Ok tt, ({| seen_channels := seen_channels mem;
                autoinvite_users := Some users;
                picard_options := picard_options mem |},
             t ++ [MemoryPut "autoinvite_users"])).

(** [with self.memory[room]: await self.opsdroid.memory.get("picard.options")] *)
Definition memory_get_options (room : string) : Bot (option (gmap string bool)) :=
  fun '(mem, t) =>
    (Ok (picard_options mem !! room), (mem, t ++ [MemoryGet "picard.options"])).

(** [with self.memory[room]: await self.opsdroid.memory.put("picard.options", options)] *)
Definition memory_put_options (room : string) (options : gmap string bool)
    : Bot unit :=
  fun '(mem, t) =>
    (Ok tt, ({| seen_channels := seen_channels mem;
                autoinvite_users := autoinvite_users mem;
                picard_options := <[room := options]> (picard_options mem) |},
             t ++ [MemoryPut "picard.options"])).

(** [users.remove(sender)]: drops the first occurrence *)
Fixpoint list_remove (x : string) (l : list string) : list string :=
  match l with
  | [] => []
  | y :: l' => if String.eqb y x then l' else y :: list_remove x l'
  end.

(** Lines 70-82 *)
Definition on_auto_invite (message : Message) : Bot unit :=
  let sender := msg_sender message in
  users <- memory_get_autoinvite_users ;;
  let users := default [] users in
  if bool_decide (sender ∈ users) then
    bot_respond "You already have autoinvite enabled."
  else
    let users := users ++ [sender] in
    memory_put_autoinvite_users users ;;;
    bot_respond ("You will be invited to all future rooms. "
                 +:+ "Use !inviteall to get invites to existing rooms.").

(** Lines 84-95 *)
Definition on_disable_auto_invite (message : Message) : Bot unit :=
  let sender := msg_sender message in
  users <- memory_get_autoinvite_users ;;
  let users := default [] users in
  if bool_decide (sender ∉ users) then
    bot_respond "You do not have autoinvite enabled."
  else
    let users := list_remove sender users in
    memory_put_autoinvite_users users ;;;
    bot_respond "Autoinvite disabled.".

(** [flags = ("name", "description", "avatar")] and its [repr] *)
Definition skip_flags : list string := ["name"; "description"; "avatar"].
Definition skip_flags_repr : string := "('name', 'description', 'avatar')".

(** Lines 191-212 *)
Definition room_skip_command (config : Config) (message : Message)
    (skip : bool) : Bot unit :=
  let sender := msg_sender message in
  match users_as_admin config with
  | None => raise (KeyError "users_as_admin")
  | Some admins =>
      if bool_decide (sender ∉ admins) then
        bot_respond "You are not authorised to perform this action."
      else
        let matrix_room_id := msg_target message in
        let flag := msg_flag message in
        when (bool_decide (flag ∉ skip_flags))
             (bot_respond ("The skip argument must be one of "
                           +:+ skip_flags_repr +:+ ", not " +:+ flag)) ;;;
        options <- memory_get_options matrix_room_id ;;
        let options := default ∅ options in
        let options := <["skip_room_" +:+ flag := skip]> options in
        memory_put_options matrix_room_id options ;;;
        bot_respond "Your room settings have been updated."
  end.

(** Lines 179-189 *)
Definition room_skip (config : Config) (message : Message) : Bot unit :=
  room_skip_command config message true.

Definition room_unskip (config : Config) (message : Message) : Bot unit :=
  room_skip_command config message false.

(** * Vocabulary of the statements and concrete scenarios *)

(** A channel the discovery pass has to return: not archived and not in the
    Ledger. *)
Definition eligible (seen : gmap string LedgerEntry) (c : Channel) : Prop :=
  ch_is_archived c = false ∧ seen !! ch_id c = None.

(** The Ledger entry [get_new_channels] builds for a channel. *)
Definition entry_of (config : Config) (c : Channel) : LedgerEntry :=
  (ch_name c,
   room_alias_of (room_alias_prefix config) (ch_name c) (server_name config),
   ch_topic c).


(** A configuration with every optional setting left out. *)
Definition cfg_example : Config := {|
  slack_bot_token := "xoxb-1";
  slack_user_token := "xoxp-1";
  bridge_bot_name := "bridge";
  community_id := "+picard:example.org";
  room_alias_prefix := "br-";
  server_name := "example.org";
  as_userid := "@slackbot:example.org";
  make_public := None;
  room_name_prefix := None;
  related_groups := None;
  room_avatar_url := None;
  users_as_admin := None;
  room_pl_0 := None;
  users_to_invite := None;
  invite_communtiy_to_rooms := None
|}.

Definition ch_general : Channel :=
  {| ch_id := "C1"; ch_name := "general"; ch_is_archived := false;
     ch_topic := "Company-wide" |}.

Definition ch_random : Channel :=
  {| ch_id := "C2"; ch_name := "random"; ch_is_archived := false;
     ch_topic := "" |}.

Definition ch_old : Channel :=
  {| ch_id := "C3"; ch_name := "old"; ch_is_archived := true;
     ch_topic := "gone" |}.

(** A Ledger that already holds [ch_random]. *)
Definition ledger_random : gmap string LedgerEntry :=
  {[ "C2" := ("random", "#br-random:example.org", "") ]}.

(** Power-level documents reached from [pl] by admin grants and notification
    floors, in any number and order. *)
Inductive pl_merge : gmap string pl_value → gmap string pl_value → Prop :=
| pl_merge_done pl : pl_merge pl pl
| pl_merge_admin pl pl1 pl2 mxid :
    user_is_room_admin pl mxid = Ok pl1 → pl_merge pl1 pl2 → pl_merge pl pl2
| pl_merge_floor pl pl1 pl2 :
    room_notifications_pl0 pl = Ok pl1 → pl_merge pl1 pl2 → pl_merge pl pl2.

(** The [notifications] map of a document, [{}] when the key is missing. *)
Definition notifications_of (pl : gmap string pl_value) : gmap string Z :=
  match pl !! "notifications" with
  | Some (PLMap n) => n
  | _ => ∅
  end.

(** A room's power levels as a homeserver creates them, with one moderator
    and one user above the admin level. *)
Definition pl_example : gmap string pl_value :=
  {[ "users" := PLMap {[ "@mod:example.org" := 50; "@root:example.org" := 101 ]};
     "notifications" := PLMap {[ "room" := 50; "call" := 20 ]};
     "ban" := PLInt 50 ]}.

(** One admissible [list(set(xs))]: first occurrences, in order. *)
#[export] Instance PySet_first_occurrence : PySet := {|
  list_of_set := remove_dups;
  list_of_set_NoDup := NoDup_remove_dups;
  list_of_set_elem := elem_of_remove_dups
|}.

(** A homeserver without community support on which every room alias
    resolves to the room ["!" alias], every room has the power levels
    [pl_example] and the related groups [+a] and [+b], and every call
    succeeds, except what the three arguments decide: the answer to
    [set_room_name], the answer to [invite_user], and whether the join-rule
    and history-visibility events are accepted.  The workspace has the
    channels [channels]; the bridge bot is in each of them. *)
Definition px_scenario (channels : list Channel)
    (set_room_name : string → string → result unit)
    (invite_user : string → string → result unit)
    (public_ok : bool) : Platform := {|
  slack_channels := channels;
  slack_get_user_id := λ _, Ok "U1";
  slack_conversations_members := λ _ _, Ok ["U0"; "U1"];
  slack_channels_invite := λ _ _ _, Ok tt;
  connector_mxid := "@picard:example.org";
  has_create_group := false;
  api_get_room_id := λ _ room_alias, Ok ("!" +:+ room_alias);
  api_create_room := λ _ alias_local, Ok ("!" +:+ alias_local);
  api_join_room := λ _ _, Ok tt;
  api_joined_rooms := λ _, Ok [];
  api_set_room_name := λ _, set_room_name;
  api_set_room_topic := λ _ _ _, Ok tt;
  api_send_state_event := λ _ _ event_type _,
    if bool_decide (event_type = "m.room.join_rules"
                    ∨ event_type = "m.room.history_visibility")
    then (if public_ok then Ok tt
          else Raise (MatrixRequestError 403 "not allowed"))
    else Ok tt;
  api_invite_user := λ _, invite_user;
  api_get_power_levels := λ _ _, Ok pl_example;
  api_set_power_levels := λ _ _ _, Ok tt;
  api_get_related_groups := λ _ _, Ok ["+a:example.org"; "+b:example.org"];
  api_get_group_profile := λ _ _, Ok [];
  api_create_group := λ _ localpart, Ok ("+" +:+ localpart);
  api_get_users_in_group := λ _ _, Ok [];
  api_get_rooms_in_group := λ _ _, Ok [];
  api_add_room_to_group := λ _ _ _, Ok tt;
  api_get_room_state := λ _ _, Ok [];
  chat_respond := λ _ _ _, Ok tt
|}.

(** Every call succeeds. *)
Definition px_ideal (channels : list Channel) : Platform :=
  px_scenario channels (λ _ _, Ok tt) (λ _ _, Ok tt) true.

(** Memory in which nothing has been written yet. *)
Definition mem_empty : Memory :=
  {| seen_channels := None; autoinvite_users := None; picard_options := ∅ |}.

(** The configuration [cfg_example] with one room admin. *)
Definition cfg_admin : Config := {|
  slack_bot_token := "xoxb-1";
  slack_user_token := "xoxp-1";
  bridge_bot_name := "bridge";
  community_id := "+picard:example.org";
  room_alias_prefix := "br-";
  server_name := "example.org";
  as_userid := "@slackbot:example.org";
  make_public := None;
  room_name_prefix := None;
  related_groups := None;
  room_avatar_url := None;
  users_as_admin := Some ["@admin:example.org"];
  room_pl_0 := None;
  users_to_invite := None;
  invite_communtiy_to_rooms := None
|}.

(** [!skip colour], sent by the admin in the room [!room:example.org]. *)
Definition msg_skip_colour : Message :=
  {| msg_sender := "@admin:example.org";
     msg_target := "!room:example.org";
     msg_flag := "colour" |}.

(** The memories the skill can reach from one whose auto-invite list, if
    any, has no duplicates, by running the handlers that write to memory. *)
Inductive reachable `{PySet} : Memory → Prop :=
| reachable_init mem :
    (∀ users, autoinvite_users mem = Some users → NoDup users) →
    reachable mem
| reachable_auto_invite mem t message r mem' t' :
    reachable mem →
    on_auto_invite message (mem, t) = (r, (mem', t')) →
    reachable mem'
| reachable_disable_auto_invite mem t message r mem' t' :
    reachable mem →
    on_disable_auto_invite message (mem, t) = (r, (mem', t')) →
    reachable mem'
| reachable_room_skip_command mem t config message skip r mem' t' :
    reachable mem →
    room_skip_command config message skip (mem, t) = (r, (mem', t')) →
    reachable mem'
| reachable_mirror_slack_channels mem t px config r mem' t' :
    reachable mem →
    mirror_slack_channels px config (mem, t) = (r, (mem', t')) →
    reachable mem'.

(** [!autoinvite] from a user. *)
Definition msg_autoinvite : Message :=
  {| msg_sender := "@ada:example.org";
     msg_target := "!dm:example.org";
     msg_flag := "" |}.

(** Memory after that user has enrolled. *)
Definition mem_enrolled : Memory :=
  {| seen_channels := None;
     autoinvite_users := Some ["@ada:example.org"];
     picard_options := ∅ |}.

(** The homeserver refuses to invite the appservice user. *)
Definition px_appservice_refused (channels : list Channel) : Platform :=
  px_scenario channels (λ _ _, Ok tt)
    (λ _ user, if bool_decide (user = "@slackbot:example.org")
               then Raise (MatrixRequestError 403 "You don't have permission")
               else Ok tt)
    true.

(** The homeserver fails to name the room of [#br-general]. *)
Definition px_name_fails (channels : list Channel) : Platform :=
  px_scenario channels
    (λ room_id _, if bool_decide (room_id = "!#br-general:example.org")
                  then Raise (MatrixRequestError 500 "Internal server error")
                  else Ok tt)
    (λ _ _, Ok tt) true.

(** [m] returns from every trace, extending it by calls [t2] such that
    [Q a t2] holds of its result [a]. *)
Definition succeeds_with {A} (m : Plat A) (Q : A → trace → Prop) : Prop :=
  ∀ t, ∃ a t2, m t = (Ok a, t ++ t2) ∧ Q a t2.

Definition succeeds {A} (m : Plat A) : Prop := succeeds_with m (λ _ _, True).

(** A power-levels document the merge functions accept. *)
Definition pl_wf (pl : gmap string pl_value) : Prop :=
  (∃ users, pl !! "users" = Some (PLMap users)) ∧
  (∀ n, pl !! "notifications" ≠ Some (PLInt n)).

(** ** Failures of platform calls *)

(** The exception a call was answered with, if any. *)
Definition failure {A} (r : result A) : option exn :=
  match r with Ok _ => None | Raise e => Some e end.

(** What the platform answers call [c] with when [c] is issued after the
    calls [t]: the exception, or [None] when the call succeeds.  Memory
    operations do not fail. *)
Definition outcome (px : Platform) (t : trace) (c : call) : option exn :=
  match c with
  | SlackConversationsMembers channel_id =>
      failure (slack_conversations_members px t channel_id)
  | SlackChannelsInvite channel_id bot_id =>
      failure (slack_channels_invite px t channel_id bot_id)
  | GetRoomId room_alias => failure (api_get_room_id px t room_alias)
  | CreateRoom alias_local => failure (api_create_room px t alias_local)
  | JoinRoom room_id => failure (api_join_room px t room_id)
  | GetJoinedRooms => failure (api_joined_rooms px t)
  | SetRoomName room_id name => failure (api_set_room_name px t room_id name)
  | SetRoomTopic room_id topic =>
      failure (api_set_room_topic px t room_id topic)
  | SendStateEvent room_id event_type content =>
      failure (api_send_state_event px t room_id event_type content)
  | InviteUser room_id user => failure (api_invite_user px t room_id user)
  | GetPowerLevels room_id => failure (api_get_power_levels px t room_id)
  | SetPowerLevels room_id power_levels =>
      failure (api_set_power_levels px t room_id power_levels)
  | GetRelatedGroups room_id => failure (api_get_related_groups px t room_id)
  | GetGroupProfile community =>
      failure (api_get_group_profile px t community)
  | CreateGroup localpart => failure (api_create_group px t localpart)
  | GetUsersInGroup community =>
      failure (api_get_users_in_group px t community)
  | GetRoomsInGroup community =>
      failure (api_get_rooms_in_group px t community)
  | AddRoomToGroup community room_id =>
      failure (api_add_room_to_group px t community room_id)
  | GetRoomState room_id => failure (api_get_room_state px t room_id)
  | Respond text room => failure (chat_respond px t text room)
  | MemoryGet _ | MemoryPut _ => None
  end.

Definition is_404 (e : exn) : bool :=
  match e with MatrixRequestError code _ => (code =? 404)%Z | _ => false end.

Definition is_matrix_error (e : exn) : bool :=
  match e with MatrixRequestError _ _ => true | _ => false end.

Definition is_slack_error (e : exn) : bool :=
  match e with SlackerError => true | _ => false end.

(** [fatal c e]: no [try] around a place where the sweep issues call [c]
    handles exception [e].  The handlers are those of lines 33-36 (the Slack
    invite, [slacker.Error]), 88-94 (alias lookup, a 404), 118-121 (room
    creation, [MatrixRequestError]), 143-148 (a Matrix invite,
    [MatrixRequestError]), 165-169 (group profile, a 404), 271-278 (related
    groups, a 404), 427-434 (the join-rule and history-visibility events,
    [Exception]) and 465-468 ([add_room_to_group], [Exception]).  A call
    issued nowhere inside a [try] is fatal whatever it raises.  The alias
    lookup of line 122 is outside the handler of lines 88-94: a 404 there
    propagates although it is not [fatal]. *)
Definition fatal (c : call) (e : exn) : bool :=
  match c with
  | SlackChannelsInvite _ _ => negb (is_slack_error e)
  | GetRoomId _ => negb (is_404 e)
  | CreateRoom _ => negb (is_matrix_error e)
  | InviteUser _ _ => negb (is_matrix_error e)
  | GetGroupProfile _ => negb (is_404 e)
  | GetRelatedGroups _ => negb (is_404 e)
  | SendStateEvent _ event_type _ =>
      negb (String.eqb event_type "m.room.join_rules"
            || String.eqb event_type "m.room.history_visibility")
  | AddRoomToGroup _ _ => false
  | MemoryGet _ | MemoryPut _ => false
  | _ => true
  end.

(** No call fails with an exception that no handler catches, and nothing
    else in the sweep raises: the bridge bot's name resolves; where room
    creation is refused, the alias lookup of line 122 that follows it finds
    the room; room ids start with [!], so that [room_id_if_exists] returns
    them as they are; with the groups API, the connector is listed among the
    users of its community ([myself[0]], line 178); a configured avatar is an [mxc] URL;
    and a power-levels document is one the merge functions accept. *)
Record unguarded_calls_succeed (px : Platform) (config : Config) : Prop := {
  ok_slack_get_user_id : ∀ name, is_ok (slack_get_user_id px name) = true;
  ok_calls : ∀ t c e, outcome px t c = Some e → fatal c e = false;
  ok_lookup_after_create :
    ∀ t room,
      is_ok (api_create_room px t (alias_localpart room)) = false →
      is_ok (api_get_room_id px (t ++ [CreateRoom (alias_localpart room)])
               room) = true;
  ok_room_id :
    ∀ t room_alias room_id,
      api_get_room_id px t room_alias = Ok room_id →
      startswith "!" room_id = true;
  ok_created_room_id :
    ∀ t alias_local room_id,
      api_create_room px t alias_local = Ok room_id →
      startswith "!" room_id = true;
  ok_myself :
    has_create_group px = true →
    ∀ t users,
      api_get_users_in_group px t (community_id config) = Ok users →
      ∃ me, me ∈ users ∧ gu_user_id me = connector_mxid px;
  ok_avatar_url :
    ∀ url, room_avatar_url config = Some url → truthy_str url = true →
           startswith "mxc" url = true;
  ok_power_levels :
    ∀ t room_id pl, api_get_power_levels px t room_id = Ok pl → pl_wf pl
}.

(** The configuration [cfg_admin] with a room avatar. *)
Definition cfg_avatar : Config := {|
  slack_bot_token := "xoxb-1";
  slack_user_token := "xoxp-1";
  bridge_bot_name := "bridge";
  community_id := "+picard:example.org";
  room_alias_prefix := "br-";
  server_name := "example.org";
  as_userid := "@slackbot:example.org";
  make_public := Some false;
  room_name_prefix := None;
  related_groups := None;
  room_avatar_url := Some "mxc://example.org/logo";
  users_as_admin := Some ["@admin:example.org"];
  room_pl_0 := None;
  users_to_invite := None;
  invite_communtiy_to_rooms := None
|}.

(** [!skip avatar], sent by the admin in the room of [#br-general]. *)
Definition msg_skip_avatar : Message :=
  {| msg_sender := "@admin:example.org";
     msg_target := "!#br-general:example.org";
     msg_flag := "avatar" |}.

(** Memory after that command. *)
Definition mem_skip_avatar : Memory :=
  {| seen_channels := None;
     autoinvite_users := None;
     picard_options :=
       {[ "!#br-general:example.org" := {[ "skip_room_avatar" := true ]} ]} |}.

(** The stored auto-invite list, if any, has no duplicates. *)
Definition autoinvite_NoDup (mem : Memory) : Prop :=
  ∀ users, autoinvite_users mem = Some users → NoDup users.

(** * Further definitions *)

(** ** Connectors ([picard.py], lines 73-79) *)

(** A connector registered with opsdroid: its class name and what tells it
    from the others. *)
Record Connector := {
  connector_name : string;
  connector_key : nat
}.

(** [get_matrix_connector(opsdroid)] over [opsdroid.connectors]; falling off
    the loop returns [None]. *)
Fixpoint get_matrix_connector (connectors : list Connector)
    : option Connector :=
  match connectors with
  | [] => None
  | conn :: rest =>
      if String.eqb (connector_name conn) "ConnectorMatrix" then Some conn
      else get_matrix_connector rest
  end.

(** ** Vocabulary *)

(** Every call [m] adds to the trace satisfies [P], whether [m] returns or
    raises. *)
Definition issues {A} (m : Plat A) (P : call → Prop) : Prop :=
  ∀ t, ∃ t2, (m t).2 = t ++ t2 ∧ Forall P t2.

(** [m] raises from every trace. *)
Definition never_returns {S A} (m : St S A) : Prop :=
  ∀ s, is_ok (m s).1 = false.

(** [':' in s] *)
Fixpoint has_colon (s : string) : bool :=
  match s with
  | EmptyString => false
  | String c s' => Ascii.eqb c ":"%char || has_colon s'
  end.

(** The channel is one the discovery pass returns. *)
Definition is_new (seen : gmap string LedgerEntry) (c : Channel) : bool :=
  negb (ch_is_archived c) && bool_decide (seen !! ch_id c = None).

(** A homeserver on which an alias does not resolve at first and a room
    created a moment earlier by someone else makes [create_room] fail; the
    lookup that follows the failed creation finds that room. *)
Definition px_creation_race : Platform := {|
  slack_channels := [];
  slack_get_user_id := λ _, Ok "U1";
  slack_conversations_members := λ _ _, Ok [];
  slack_channels_invite := λ _ _ _, Ok tt;
  connector_mxid := "@picard:example.org";
  has_create_group := false;
  api_get_room_id := λ t room_alias,
    match last t with
    | Some (CreateRoom _) => Ok ("!" +:+ room_alias)
    | _ => Raise (MatrixRequestError 404 "Room alias not found")
    end;
  api_create_room := λ _ _, Raise (MatrixRequestError 400 "Room alias in use");
  api_join_room := λ _ _, Ok tt;
  api_joined_rooms := λ _, Ok [];
  api_set_room_name := λ _ _ _, Ok tt;
  api_set_room_topic := λ _ _ _, Ok tt;
  api_send_state_event := λ _ _ _ _, Ok tt;
  api_invite_user := λ _ _ _, Ok tt;
  api_get_power_levels := λ _ _, Ok pl_example;
  api_set_power_levels := λ _ _ _, Ok tt;
  api_get_related_groups := λ _ _, Ok [];
  api_get_group_profile := λ _ _, Ok [];
  api_create_group := λ _ localpart, Ok ("+" +:+ localpart);
  api_get_users_in_group := λ _ _, Ok [];
  api_get_rooms_in_group := λ _ _, Ok [];
  api_add_room_to_group := λ _ _ _, Ok tt;
  api_get_room_state := λ _ _, Ok [];
  chat_respond := λ _ _ _, Ok tt
|}.

(** A homeserver with the groups API on which the community exists and
    lists [users]. *)
Definition px_community (users : list GroupUser) : Platform := {|
  slack_channels := [];
  slack_get_user_id := λ _, Ok "U1";
  slack_conversations_members := λ _ _, Ok [];
  slack_channels_invite := λ _ _ _, Ok tt;
  connector_mxid := "@picard:example.org";
  has_create_group := true;
  api_get_room_id := λ _ room_alias, Ok ("!" +:+ room_alias);
  api_create_room := λ _ alias_local, Ok ("!" +:+ alias_local);
  api_join_room := λ _ _, Ok tt;
  api_joined_rooms := λ _, Ok [];
  api_set_room_name := λ _ _ _, Ok tt;
  api_set_room_topic := λ _ _ _, Ok tt;
  api_send_state_event := λ _ _ _ _, Ok tt;
  api_invite_user := λ _ _ _, Ok tt;
  api_get_power_levels := λ _ _, Ok pl_example;
  api_set_power_levels := λ _ _ _, Ok tt;
  api_get_related_groups := λ _ _, Ok [];
  api_get_group_profile := λ _ _, Ok [("name", "Picard")];
  api_create_group := λ _ localpart, Ok ("+" +:+ localpart);
  api_get_users_in_group := λ _ _, Ok users;
  api_get_rooms_in_group := λ _ _, Ok [];
  api_add_room_to_group := λ _ _ _, Ok tt;
  api_get_room_state := λ _ _, Ok [];
  chat_respond := λ _ _ _, Ok tt
|}.

(** The level of [user] in [pl] is 100. *)
Definition is_admin (pl : gmap string pl_value) (user : string) : Prop :=
  ∃ users, pl !! "users" = Some (PLMap users) ∧ users !! user = Some 100.


(** A homeserver that refuses to show the related groups of a room. *)
Definition px_groups_forbidden : Platform := {|
  slack_channels := [];
  slack_get_user_id := λ _, Ok "U1";
  slack_conversations_members := λ _ _, Ok [];
  slack_channels_invite := λ _ _ _, Ok tt;
  connector_mxid := "@picard:example.org";
  has_create_group := false;
  api_get_room_id := λ _ room_alias, Ok ("!" +:+ room_alias);
  api_create_room := λ _ alias_local, Ok ("!" +:+ alias_local);
  api_join_room := λ _ _, Ok tt;
  api_joined_rooms := λ _, Ok [];
  api_set_room_name := λ _ _ _, Ok tt;
  api_set_room_topic := λ _ _ _, Ok tt;
  api_send_state_event := λ _ _ _ _, Ok tt;
  api_invite_user := λ _ _ _, Ok tt;
  api_get_power_levels := λ _ _, Ok pl_example;
  api_set_power_levels := λ _ _ _, Ok tt;
  api_get_related_groups := λ _ _, Raise (MatrixRequestError 403 "Forbidden");
  api_get_group_profile := λ _ _, Ok [];
  api_create_group := λ _ localpart, Ok ("+" +:+ localpart);
  api_get_users_in_group := λ _ _, Ok [];
  api_get_rooms_in_group := λ _ _, Ok [];
  api_add_room_to_group := λ _ _ _, Ok tt;
  api_get_room_state := λ _ _, Ok [];
  chat_respond := λ _ _ _, Ok tt
|}.

(** The configuration [cfg_example] with an avatar given as a web address. *)
Definition cfg_avatar_http : Config := {|
  slack_bot_token := "xoxb-1";
  slack_user_token := "xoxp-1";
  bridge_bot_name := "bridge";
  community_id := "+picard:example.org";
  room_alias_prefix := "br-";
  server_name := "example.org";
  as_userid := "@slackbot:example.org";
  make_public := None;
  room_name_prefix := None;
  related_groups := None;
  room_avatar_url := Some "https://example.org/logo.png";
  users_as_admin := None;
  room_pl_0 := None;
  users_to_invite := None;
  invite_communtiy_to_rooms := None
|}.

(** Memory in which the room [!room:example.org] already has its name
    skipped. *)
Definition mem_skip_name : Memory :=
  {| seen_channels := None;
     autoinvite_users := None;
     picard_options :=
       {[ "!room:example.org" := {[ "skip_room_name" := true ]} ]} |}.

(** [!skip avatar], sent by the admin in the room [!room:example.org]. *)
Definition msg_skip_avatar_room : Message :=
  {| msg_sender := "@admin:example.org";
     msg_target := "!room:example.org";
     msg_flag := "avatar" |}.

(** ** Vocabulary of the sweep *)

(** The trace in the state of a platform coroutine and of a coroutine that
    also uses memory. *)
Definition plat_trace (t : trace) : trace := t.
Definition bot_trace (s : Memory * trace) : trace := s.2.

(** A call of [m] that fails with an exception no handler catches is the
    last call [m] issues, and [m] raises that exception. *)
Definition fatal_ends {S A} (px : Platform) (tr : S → trace) (m : St S A)
    : Prop :=
  ∀ s, ∃ calls,
    tr (m s).2 = tr s ++ calls ∧
    ∀ before c after e,
      calls = before ++ c :: after →
      outcome px (tr s ++ before) c = Some e → fatal c e = true →
      after = [] ∧ (m s).1 = Raise e.

Definition is_memory_put (c : call) : bool :=
  match c with MemoryPut _ => true | _ => false end.

(** The calls that set a room's name, topic or avatar. *)
Definition is_metadata_call (c : call) : bool :=
  match c with
  | SetRoomName _ _ | SetRoomTopic _ _ => true
  | SendStateEvent _ event_type _ => String.eqb event_type "m.room.avatar"
  | _ => false
  end.

(** The name, topic and avatar calls for one room: the name always, the
    topic if the channel has one, the avatar if one is configured. *)
Definition metadata_calls (config : Config) (room_id : string)
    (item : string * LedgerEntry) : list call :=
  let '(_, (channel_name, _, topic)) := item in
  [SetRoomName room_id
     (default (room_alias_prefix config) (room_name_prefix config)
      +:+ channel_name)]
  ++ (if truthy_str topic then [SetRoomTopic room_id topic] else [])
  ++ (if truthy_opt_str (room_avatar_url config)
      then [SendStateEvent room_id "m.room.avatar"
              (AvatarUrl (default "" (room_avatar_url config)))]
      else []).

(** The pipeline of a discovered channel was started, and it reached one of
    its two ends: the notice that the channel is skipped, or the notice that
    the room has been added. *)
Definition channel_done (item : string * LedgerEntry) (calls : list call)
    : Prop :=
  let '(channel_id, (_, room_alias, _)) := item in
  SlackConversationsMembers channel_id ∈ calls ∧
  (Respond ("ERROR: Could not invite appservice bot" +:+ "to "
            +:+ room_alias +:+ ", skipping channel.") None ∈ calls ∨
   Respond ("Finished Adding room " +:+ room_alias) None ∈ calls).

(** A configuration with every optional setting given. *)
Definition cfg_full : Config := {|
  slack_bot_token := "xoxb-1";
  slack_user_token := "xoxp-1";
  bridge_bot_name := "bridge";
  community_id := "+picard:example.org";
  room_alias_prefix := "br-";
  server_name := "example.org";
  as_userid := "@slackbot:example.org";
  make_public := Some true;
  room_name_prefix := Some "Slack ";
  related_groups := Some ["+picard:example.org"];
  room_avatar_url := Some "mxc://example.org/logo";
  users_as_admin := Some ["@admin:example.org"];
  room_pl_0 := Some true;
  users_to_invite := Some ["@ada:example.org"];
  invite_communtiy_to_rooms := Some true
|}.

(** Platforms on which every call inside a [try] fails the way its handler
    catches.  The bridge bot is in no channel and Slack refuses to invite it.
    No alias resolves, except in the lookup that follows a room creation;
    creating the room of [#br-random] is refused, the alias being taken.  The
    community does not exist and is created.  The homeserver refuses the
    join-rule event, the appservice invite to the room of [#br-general] and
    [add_room_to_group], and has no related groups for any room. *)
Definition px_hostile : Platform := {|
  slack_channels := [ch_general; ch_random];
  slack_get_user_id := λ _, Ok "U1";
  slack_conversations_members := λ _ _, Ok ["U0"];
  slack_channels_invite := λ _ _ _, Raise SlackerError;
  connector_mxid := "@picard:example.org";
  has_create_group := true;
  api_get_room_id := λ t room_alias,
    match last t with
    | Some (CreateRoom _) => Ok ("!" +:+ room_alias)
    | _ => Raise (MatrixRequestError 404 "Room alias not found")
    end;
  api_create_room := λ _ alias_local,
    if String.eqb alias_local "br-random"
    then Raise (MatrixRequestError 400 "Room alias in use")
    else Ok ("!" +:+ alias_local);
  api_join_room := λ _ _, Ok tt;
  api_joined_rooms := λ _, Ok [];
  api_set_room_name := λ _ _ _, Ok tt;
  api_set_room_topic := λ _ _ _, Ok tt;
  api_send_state_event := λ _ _ event_type _,
    if String.eqb event_type "m.room.join_rules"
    then Raise (MatrixRequestError 403 "not allowed")
    else Ok tt;
  api_invite_user := λ _ room_id user,
    if String.eqb user "@slackbot:example.org"
       && String.eqb room_id "!br-general"
    then Raise (MatrixRequestError 403 "You don't have permission")
    else Ok tt;
  api_get_power_levels := λ _ _, Ok pl_example;
  api_set_power_levels := λ _ _ _, Ok tt;
  api_get_related_groups := λ _ _,
    Raise (MatrixRequestError 404 "Event not found");
  api_get_group_profile := λ _ _,
    Raise (MatrixRequestError 404 "Group not found");
  api_create_group := λ _ localpart, Ok ("+" +:+ localpart +:+ ":example.org");
  api_get_users_in_group := λ _ _,
    Ok [{| gu_user_id := "@picard:example.org"; gu_is_privileged := true |};
        {| gu_user_id := "@ada:example.org"; gu_is_privileged := false |}];
  api_get_rooms_in_group := λ _ _, Ok [];
  api_add_room_to_group := λ _ _ _, Raise (OtherException "not allowed");
  api_get_room_state := λ _ _, Ok [Some "@picard:example.org"; None];
  chat_respond := λ _ _ _, Ok tt
|}.

(** The platforms of [px_ideal], except that the notice that ends the sweep
    cannot be delivered. *)
Definition px_notice_fails (channels : list Channel) : Platform := {|
  slack_channels := channels;
  slack_get_user_id := λ _, Ok "U1";
  slack_conversations_members := λ _ _, Ok ["U0"; "U1"];
  slack_channels_invite := λ _ _ _, Ok tt;
  connector_mxid := "@picard:example.org";
  has_create_group := false;
  api_get_room_id := λ _ room_alias, Ok ("!" +:+ room_alias);
  api_create_room := λ _ alias_local, Ok ("!" +:+ alias_local);
  api_join_room := λ _ _, Ok tt;
  api_joined_rooms := λ _, Ok [];
  api_set_room_name := λ _ _ _, Ok tt;
  api_set_room_topic := λ _ _ _, Ok tt;
  api_send_state_event := λ _ _ _ _, Ok tt;
  api_invite_user := λ _ _ _, Ok tt;
  api_get_power_levels := λ _ _, Ok pl_example;
  api_set_power_levels := λ _ _ _, Ok tt;
  api_get_related_groups := λ _ _, Ok [];
  api_get_group_profile := λ _ _, Ok [];
  api_create_group := λ _ localpart, Ok ("+" +:+ localpart);
  api_get_users_in_group := λ _ _, Ok [];
  api_get_rooms_in_group := λ _ _, Ok [];
  api_add_room_to_group := λ _ _ _, Ok tt;
  api_get_room_state := λ _ _, Ok [];
  chat_respond := λ _ text _,
    if String.eqb text "Finished adding all rooms."
    then Raise (OtherException "Connection lost")
    else Ok tt
|}.

(** * Properties *)

(** ** Insertion-ordered dictionaries *)

Section Odict.
Context {V : Type}.
Implicit Types (d : odict V) (k : string) (v : V).

Lemma odict_keys_set k v d i :
  i ∈ odict_keys (odict_set k v d) ↔ i = k ∨ i ∈ odict_keys d.
Proof.
  unfold odict_keys. induction d as [|[k' v'] d IH]; simpl.
  - rewrite list_elem_of_singleton, elem_of_nil. tauto.
  - destruct (String.eqb_spec k' k) as [->|Hne]; simpl;
      rewrite !elem_of_cons; [tauto|]. rewrite IH. tauto.
Qed.

Lemma odict_keys_set_NoDup k v d :
  NoDup (odict_keys d) → NoDup (odict_keys (odict_set k v d)).
Proof.
  unfold odict_keys. induction d as [|[k' v'] d IH]; simpl; intros Hnd.
  - apply NoDup_singleton.
  - apply NoDup_cons in Hnd as [Hk' Hnd].
    destruct (String.eqb_spec k' k) as [->|Hne]; simpl.
    + by apply NoDup_cons.
    + apply NoDup_cons. split; [|by apply IH].
      intros Hin. apply (odict_keys_set k v d k') in Hin as [?|?]; done.
Qed.

Lemma odict_get_set_eq k v d : odict_get k (odict_set k v d) = Some v.
Proof.
  induction d as [|[k' v'] d IH]; simpl.
  - by rewrite String.eqb_refl.
  - destruct (String.eqb_spec k' k) as [->|Hne]; simpl.
    + by rewrite String.eqb_refl.
    + by destruct (String.eqb_spec k' k).
Qed.

Lemma odict_get_set_ne k k' v d :
  k ≠ k' → odict_get k' (odict_set k v d) = odict_get k' d.
Proof.
  intros Hne. induction d as [|[k0 v0] d IH]; simpl.
  - by destruct (String.eqb_spec k k').
  - destruct (String.eqb_spec k0 k) as [->|Hne0]; simpl.
    + by destruct (String.eqb_spec k k').
    + by rewrite IH.
Qed.

Lemma odict_get_None k d : odict_get k d = None ↔ k ∉ odict_keys d.
Proof.
  unfold odict_keys. induction d as [|[k0 v0] d IH]; simpl.
  - split; [intros _; apply not_elem_of_nil | done].
  - rewrite not_elem_of_cons.
    destruct (String.eqb_spec k0 k) as [->|Hne0]; [|rewrite IH];
      intuition congruence.
Qed.
End Odict.

Lemma channel_mapping_foldl_notin (chans : list Channel) (m : gmap string string) i :
  i ∉ ch_id <$> chans →
  foldl (λ m c, <[ch_id c := ch_name c]> m) m chans !! i = m !! i.
Proof.
  revert m. induction chans as [|c chans IH]; intros m Hi; simpl; [done|].
  rewrite fmap_cons, not_elem_of_cons in Hi. destruct Hi as [Hne Hi].
  rewrite IH by done. by rewrite lookup_insert_ne.
Qed.

Lemma channel_mapping_foldl_in (chans : list Channel) (m : gmap string string) i :
  i ∈ ch_id <$> chans →
  is_Some (foldl (λ m c, <[ch_id c := ch_name c]> m) m chans !! i).
Proof.
  revert m. induction chans as [|c0 chans IH]; intros m Hi; simpl.
  - by apply elem_of_nil in Hi.
  - destruct (decide (i ∈ ch_id <$> chans)) as [Hin|Hnin]; [by apply IH|].
    rewrite fmap_cons in Hi. apply elem_of_cons in Hi as [->|Hi]; [|done].
    rewrite channel_mapping_foldl_notin by done.
    rewrite lookup_insert_eq. by eexists.
Qed.

Lemma channel_mapping_foldl_NoDup (chans : list Channel) (m : gmap string string) c :
  NoDup (ch_id <$> chans) → c ∈ chans →
  foldl (λ m c, <[ch_id c := ch_name c]> m) m chans !! ch_id c = Some (ch_name c).
Proof.
  revert m. induction chans as [|c0 chans IH]; intros m Hnd Hc; simpl.
  - by apply elem_of_nil in Hc.
  - rewrite fmap_cons in Hnd. apply NoDup_cons in Hnd as [Hnin Hnd].
    apply elem_of_cons in Hc as [->|Hc]; [|by apply IH].
    rewrite channel_mapping_foldl_notin by done. by rewrite lookup_insert_eq.
Qed.

Lemma get_channel_mapping_name chans c :
  NoDup (ch_id <$> chans) → c ∈ chans →
  get_channel_mapping chans !! ch_id c = Some (ch_name c).
Proof. apply channel_mapping_foldl_NoDup. Qed.

Lemma get_new_channels_loop_ok all config seen chans d :
  chans ⊆ all →
  ∃ d', get_new_channels_loop all config seen chans d = Ok d'.
Proof.
  revert d. induction chans as [|c chans IH]; intros d Hsub; simpl.
  - by eexists.
  - assert (chans ⊆ all) as Hsub' by (intros x Hx; apply Hsub; by right).
    destruct (ch_is_archived c); [by apply IH|].
    destruct (seen !! ch_id c); [by apply IH|].
    destruct (channel_mapping_foldl_in all ∅ (ch_id c)) as [n Hn].
    { apply list_elem_of_fmap. exists c. split; [done|]. apply Hsub. by left. }
    unfold get_channel_mapping. rewrite Hn. by apply IH.
Qed.

Lemma get_new_channels_loop_keys all config seen chans d d' :
  get_new_channels_loop all config seen chans d = Ok d' →
  NoDup (odict_keys d) →
  NoDup (odict_keys d') ∧
  ∀ i, i ∈ odict_keys d' ↔
       i ∈ odict_keys d ∨ ∃ c, c ∈ chans ∧ ch_id c = i ∧ eligible seen c.
Proof.
  unfold eligible.
  revert d. induction chans as [|c chans IH]; intros d Hrun Hnd; simpl in Hrun.
  - injection Hrun as <-. split; [done|]. intros i. split; [by left|].
    intros [?|(c & Hc & _)]; [done|]. by apply elem_of_nil in Hc.
  - destruct (ch_is_archived c) eqn:Harch.
    { destruct (IH _ Hrun Hnd) as [Hnd' Hkeys]. split; [done|]. intros i.
      rewrite Hkeys. split; intros [?|(c' & Hc' & Hid & Ha & Hs)]; auto.
      - right. exists c'. rewrite elem_of_cons. auto.
      - apply elem_of_cons in Hc' as [->|Hc']; [congruence|]. right. eauto. }
    destruct (seen !! ch_id c) eqn:Hseen.
    { destruct (IH _ Hrun Hnd) as [Hnd' Hkeys]. split; [done|]. intros i.
      rewrite Hkeys. split; intros [?|(c' & Hc' & Hid & Ha & Hs)]; auto.
      - right. exists c'. rewrite elem_of_cons. auto.
      - apply elem_of_cons in Hc' as [->|Hc']; [congruence|]. right. eauto. }
    destruct (get_channel_mapping all !! ch_id c) as [n|]; [|done].
    apply IH in Hrun as [Hnd' Hkeys]; [|by apply odict_keys_set_NoDup].
    split; [done|]. intros i. rewrite Hkeys, odict_keys_set.
    split.
    + intros [[->|?]|(c' & Hc' & Hid & He)]; auto.
      * right. exists c. rewrite elem_of_cons. auto.
      * right. exists c'. rewrite elem_of_cons. auto.
    + intros [?|(c' & Hc' & Hid & He)]; auto.
      apply elem_of_cons in Hc' as [->|Hc']; [auto|]. right. eauto.
Qed.

Lemma get_new_channels_loop_get_other all config seen chans d d' i :
  get_new_channels_loop all config seen chans d = Ok d' →
  i ∉ ch_id <$> chans →
  odict_get i d' = odict_get i d.
Proof.
  revert d. induction chans as [|c chans IH]; intros d Hrun Hi; simpl in Hrun.
  - by injection Hrun as <-.
  - rewrite fmap_cons, not_elem_of_cons in Hi. destruct Hi as [Hne Hi].
    destruct (ch_is_archived c); [by apply IH|].
    destruct (seen !! ch_id c); [by apply IH|].
    destruct (get_channel_mapping all !! ch_id c) as [n|]; [|done].
    rewrite (IH _ Hrun Hi). by apply odict_get_set_ne.
Qed.

Lemma get_new_channels_loop_get all config seen chans d d' c :
  get_new_channels_loop all config seen chans d = Ok d' →
  NoDup (ch_id <$> all) → chans ⊆ all → NoDup (ch_id <$> chans) →
  c ∈ chans → eligible seen c →
  odict_get (ch_id c) d' = Some (entry_of config c).
Proof.
  intros Hrun Hall. revert d Hrun.
  induction chans as [|c0 chans IH]; intros d Hrun Hsub Hnd Hc [Ha Hs];
    simpl in Hrun.
  - by apply elem_of_nil in Hc.
  - assert (chans ⊆ all) as Hsub' by (intros x Hx; apply Hsub; by right).
    rewrite fmap_cons in Hnd. apply NoDup_cons in Hnd as [Hnin Hnd].
    apply elem_of_cons in Hc as [->|Hc].
    + rewrite Ha, Hs in Hrun.
      rewrite get_channel_mapping_name in Hrun by (auto; apply Hsub; by left).
      rewrite (get_new_channels_loop_get_other _ _ _ _ _ _ _ Hrun Hnin).
      apply odict_get_set_eq.
    + destruct (ch_is_archived c0); [by eapply IH|].
      destruct (seen !! ch_id c0); [by eapply IH|].
      destruct (get_channel_mapping all !! ch_id c0) as [n|]; [|done].
      by eapply IH.
Qed.

(** ** C9: discovery *)

(** C9. For every channel list and Ledger, [get_new_channels] returns a
    dictionary whose keys are exactly the ids of the channels that are not
    archived and not in the Ledger; where channel ids are unique, each such
    channel is mapped to its name, the alias ["#" prefix name ":" server] and
    its topic; the dictionary is empty when no channel is new; and prefix
    ["br-"], name ["general"], domain ["example.org"] give
    ["#br-general:example.org"]. *)
Theorem get_new_channels_correct (channels : list Channel) (config : Config)
    (seen : gmap string LedgerEntry) :
  ∃ new_channels,
    get_new_channels channels config seen = Ok new_channels ∧
    NoDup (odict_keys new_channels) ∧
    (∀ i, i ∈ odict_keys new_channels ↔
          ∃ c, c ∈ channels ∧ ch_id c = i ∧
               ch_is_archived c = false ∧ seen !! ch_id c = None) ∧
    (NoDup (ch_id <$> channels) →
     ∀ c, c ∈ channels → ch_is_archived c = false → seen !! ch_id c = None →
          odict_get (ch_id c) new_channels =
            Some (ch_name c,
                  "#" +:+ room_alias_prefix config +:+ ch_name c +:+ ":"
                      +:+ server_name config,
                  ch_topic c)) ∧
    ((∀ c, c ∈ channels →
           ch_is_archived c = true ∨ is_Some (seen !! ch_id c)) →
     new_channels = []) ∧
    room_alias_of "br-" "general" "example.org" = "#br-general:example.org".
Proof.
  destruct (get_new_channels_loop_ok channels config seen channels [])
    as [d Hd]; [done|].
  exists d. split; [done|].
  destruct (get_new_channels_loop_keys _ _ _ _ _ _ Hd) as [Hnd Hkeys];
    [apply NoDup_nil_2|].
  split; [done|]. split; [|split; [|split; [|done]]].
  - intros i. rewrite Hkeys. split.
    + intros [Hi|?]; [by apply elem_of_nil in Hi|done].
    + by right.
  - intros Hids c Hc Ha Hs.
    by apply (get_new_channels_loop_get _ _ _ _ _ _ c Hd).
  - intros Hnone. destruct d as [|[i e] d]; [done|]. exfalso.
    destruct (proj1 (Hkeys i)) as [Hi|(c & Hc & _ & Ha & Hs)].
    + unfold odict_keys. simpl. by left.
    + by apply elem_of_nil in Hi.
    + destruct (Hnone c Hc) as [?|[? ?]]; congruence.
Qed.

Lemma get_new_channels_correct_witness :
  ∃ new_channels,
    get_new_channels [ch_general; ch_old; ch_random] cfg_example ledger_random
      = Ok new_channels ∧
    odict_get "C1" new_channels
      = Some ("general", "#br-general:example.org", "Company-wide").
Proof.
  destruct (get_new_channels_correct [ch_general; ch_old; ch_random]
              cfg_example ledger_random)
    as (d & Hd & _ & _ & Hget & _).
  exists d. split; [exact Hd|].
  assert (NoDup (ch_id <$> [ch_general; ch_old; ch_random])) as Hids
    by (refine (bool_decide_unpack _ _); vm_compute; exact I).
  apply (Hget Hids ch_general).
  - by left.
  - reflexivity.
  - reflexivity.
Defined.

(** ** C6, C7: power levels *)

Lemma user_is_room_admin_frame pl mxid pl' k :
  user_is_room_admin pl mxid = Ok pl' → k ≠ "users" → pl' !! k = pl !! k.
Proof.
  unfold user_is_room_admin. intros Hrun Hk.
  destruct (pl !! "users") as [[n|users]|]; try done.
  case_decide; injection Hrun as <-; [|done].
  by rewrite lookup_insert_ne.
Qed.

Lemma room_notifications_pl0_frame pl pl' k :
  room_notifications_pl0 pl = Ok pl' → k ≠ "notifications" →
  pl' !! k = pl !! k.
Proof.
  unfold room_notifications_pl0. intros Hrun Hk.
  destruct (default (PLMap ∅) (pl !! "notifications")) as [n|m]; [done|].
  injection Hrun as <-. by rewrite lookup_insert_ne.
Qed.

Lemma pl_merge_frame pl pl' k :
  pl_merge pl pl' → k ≠ "users" → k ≠ "notifications" → pl' !! k = pl !! k.
Proof.
  induction 1 as [pl|pl pl1 pl2 mxid Hstep _ IH|pl pl1 pl2 Hstep _ IH];
    intros Hu Hn; [done| |].
  - rewrite IH by done. by apply (user_is_room_admin_frame pl mxid).
  - rewrite IH by done. by apply room_notifications_pl0_frame.
Qed.

Lemma add_admin_users_merge px room_id users pl t pl' t' :
  add_admin_users px room_id users pl t = (Ok pl', t') → pl_merge pl pl'.
Proof.
  revert pl t. induction users as [|user users IH]; intros pl t; simpl.
  - unfold ret. intros [= <- _]. apply pl_merge_done.
  - unfold bind, lift_result.
    destruct (intent_user_in_room px user room_id t) as [[_|e] t1]; [|done].
    destruct (user_is_room_admin pl user) as [pl1|e] eqn:Hgrant; [|done].
    intros Hrest. apply (pl_merge_admin _ pl1 _ user); [done|].
    by apply (IH pl1 t1).
Qed.

(** C6. Whenever [user_is_room_admin] returns, every top-level key other than
    [users] keeps its value and, inside [users], every user other than the
    one granted keeps their level; whenever [room_notifications_pl0] returns,
    every top-level key other than [notifications] keeps its value and,
    inside [notifications], every entry other than [room] is kept; hence any
    sequence of the two leaves every key other than [users] and
    [notifications] unchanged.  Both return on every document whose [users]
    and [notifications] are maps. *)
Theorem power_levels_merge_frame :
  (∀ pl mxid pl',
      user_is_room_admin pl mxid = Ok pl' →
      (∀ k, k ≠ "users" → pl' !! k = pl !! k) ∧
      ∃ users users', pl !! "users" = Some (PLMap users) ∧
                      pl' !! "users" = Some (PLMap users') ∧
                      ∀ u, u ≠ mxid → users' !! u = users !! u) ∧
  (∀ pl pl',
      room_notifications_pl0 pl = Ok pl' →
      (∀ k, k ≠ "notifications" → pl' !! k = pl !! k) ∧
      ∃ notifications', pl' !! "notifications" = Some (PLMap notifications') ∧
                        ∀ e, e ≠ "room" →
                             notifications' !! e = notifications_of pl !! e) ∧
  (∀ pl pl', pl_merge pl pl' →
             ∀ k, k ≠ "users" → k ≠ "notifications" → pl' !! k = pl !! k) ∧
  (∀ pl users mxid, pl !! "users" = Some (PLMap users) →
                    is_ok (user_is_room_admin pl mxid) = true) ∧
  (∀ pl, (∀ n, pl !! "notifications" ≠ Some (PLInt n)) →
         is_ok (room_notifications_pl0 pl) = true).
Proof.
  split; [|split; [|split; [|split]]].
  - intros pl mxid pl' Hrun. split.
    { intros k. by apply (user_is_room_admin_frame pl mxid). }
    unfold user_is_room_admin in Hrun.
    destruct (pl !! "users") as [[n|users]|] eqn:Hu; try done.
    exists users. case_decide; injection Hrun as <-.
    + exists (<[mxid := 100]> users). split; [done|].
      split; [by rewrite lookup_insert_eq|].
      intros u Hne. by rewrite lookup_insert_ne.
    + by exists users.
  - intros pl pl' Hrun. split.
    { intros k. by apply room_notifications_pl0_frame. }
    unfold room_notifications_pl0, notifications_of in *.
    destruct (pl !! "notifications") as [[n|m]|]; simpl in Hrun; [done| |];
      injection Hrun as <-; eexists; (split; [by rewrite lookup_insert_eq|]);
      intros e Hne; by rewrite lookup_insert_ne.
  - intros pl pl' Hm k. by apply pl_merge_frame.
  - intros pl users mxid Hu. unfold user_is_room_admin. rewrite Hu.
    by case_decide.
  - intros pl Hn. unfold room_notifications_pl0.
    destruct (pl !! "notifications") as [[n|m]|] eqn:Hl; simpl; try done.
    by destruct (Hn n).
Qed.

Lemma power_levels_merge_frame_witness :
  ∃ pl1 pl2,
    user_is_room_admin pl_example "@mod:example.org" = Ok pl1 ∧
    room_notifications_pl0 pl1 = Ok pl2 ∧
    pl2 !! "ban" = pl_example !! "ban" ∧
    pl1 !! "notifications" = pl_example !! "notifications".
Proof.
  destruct power_levels_merge_frame as (Hadmin & _ & Hmerge & _).
  destruct (user_is_room_admin pl_example "@mod:example.org")
    as [pl1|e] eqn:H1; [|vm_compute in H1; discriminate].
  destruct (room_notifications_pl0 pl1) as [pl2|e] eqn:H2.
  - exists pl1, pl2. split; [reflexivity|]. split; [exact H2|]. split.
    + apply (Hmerge pl_example pl2); [|done|done].
      apply (pl_merge_admin _ pl1 _ "@mod:example.org"); [exact H1|].
      apply (pl_merge_floor _ pl2); [exact H2|]. apply pl_merge_done.
    + apply (Hadmin pl_example "@mod:example.org" pl1 H1). done.
  - exfalso. vm_compute in H1. injection H1 as <-.
    vm_compute in H2. discriminate.
Defined.

(** The claim C7 as stated fails: a user at level 101 is lowered to 100. *)
Lemma admin_grant_lowers_counterexample :
  ¬ (∀ pl users mxid level pl',
        pl !! "users" = Some (PLMap users) → users !! mxid = Some level →
        100 ≤ level →
        user_is_room_admin pl mxid = Ok pl' →
        ∃ users', pl' !! "users" = Some (PLMap users') ∧
                  users' !! mxid = Some level).
Proof.
  intros Hclaim.
  destruct (Hclaim pl_example
              {[ "@mod:example.org" := 50; "@root:example.org" := 101 ]}
              "@root:example.org" 101 _ eq_refl eq_refl ltac:(lia) eq_refl)
    as (users' & Hu & Hl).
  vm_compute in Hu. injection Hu as <-. vm_compute in Hl. discriminate.
Qed.

(** C7, amended. On every document with a [users] map the admin grant
    returns a document in which the user's level is exactly 100; the document
    is returned unchanged when the level already is 100, and any other level,
    absent, lower or higher, is replaced by 100. *)
Theorem admin_grant_sets_100 pl users mxid :
  pl !! "users" = Some (PLMap users) →
  ∃ pl' users',
    user_is_room_admin pl mxid = Ok pl' ∧
    pl' !! "users" = Some (PLMap users') ∧
    users' !! mxid = Some 100 ∧
    (users !! mxid = Some 100 → pl' = pl) ∧
    (users !! mxid ≠ Some 100 → users' = <[mxid := 100]> users).
Proof.
  intros Hu. unfold user_is_room_admin. rewrite Hu. case_decide as Hl.
  - eexists _, _. split; [done|]. split; [by rewrite lookup_insert_eq|].
    split; [by rewrite lookup_insert_eq|]. done.
  - exists pl, users. by repeat split.
Qed.

Lemma admin_grant_sets_100_witness :
  ∃ pl' users',
    user_is_room_admin pl_example "@root:example.org" = Ok pl' ∧
    pl' !! "users" = Some (PLMap users') ∧
    users' !! "@root:example.org" = Some 100.
Proof.
  destruct (admin_grant_sets_100 pl_example
              {[ "@mod:example.org" := 50; "@root:example.org" := 101 ]}
              "@root:example.org" eq_refl)
    as (pl' & users' & H1 & H2 & H3 & _).
  by exists pl', users'.
Defined.

(** ** C8: related groups *)

Section RelatedGroups.
Context (px : Platform) `{PySet}.

Lemma merge_related_groups_elem existing communities g :
  g ∈ merge_related_groups existing communities ↔
  g ∈ existing ∨ g ∈ communities.
Proof.
  unfold merge_related_groups. by rewrite list_of_set_elem, elem_of_app.
Qed.

Lemma merge_related_groups_NoDup existing communities :
  NoDup (merge_related_groups existing communities).
Proof. apply list_of_set_NoDup. Qed.

(** C8. [update_related_groups] reads the room's related groups (none on a
    404) and sends back one [m.room.related_groups] event whose list has no
    duplicates, holds exactly the groups of the existing list and of the
    configured list, so it keeps every existing group, and has the same
    elements whichever of the two lists is given first. *)
Theorem update_related_groups_union (roomid : string)
    (existing communities : list string) (t : trace) :
  let new_groups := merge_related_groups existing communities in
  (api_get_related_groups px t roomid = Ok existing ∨
   (existing = [] ∧ ∃ content,
       api_get_related_groups px t roomid
         = Raise (MatrixRequestError 404 content))) →
  (update_related_groups px roomid communities t).2
    = t ++ [GetRelatedGroups roomid;
            SendStateEvent roomid "m.room.related_groups" (Groups new_groups)]
  ∧ NoDup new_groups
  ∧ (∀ g, g ∈ new_groups ↔ g ∈ existing ∨ g ∈ communities)
  ∧ (∀ g, g ∈ existing → g ∈ new_groups)
  ∧ new_groups ≡ₚ merge_related_groups communities existing.
Proof.
  intros new_groups Hget. split; [|split; [|split; [|split]]].
  - unfold update_related_groups, get_related_groups, set_related_groups,
      bind, try_except, perform, ret. simpl.
    destruct Hget as [->|[-> [content ->]]]; simpl;
      by rewrite <-app_assoc.
  - apply merge_related_groups_NoDup.
  - apply merge_related_groups_elem.
  - intros g Hg. apply merge_related_groups_elem. by left.
  - apply NoDup_Permutation; try apply merge_related_groups_NoDup.
    intros g. unfold new_groups. rewrite !merge_related_groups_elem.
    split; intros [?|?]; auto.
Qed.

End RelatedGroups.

Lemma update_related_groups_union_witness :
  (update_related_groups (px_ideal []) "!room:example.org"
     ["+b:example.org"; "+c:example.org"] []).2
  = [GetRelatedGroups "!room:example.org";
     SendStateEvent "!room:example.org" "m.room.related_groups"
       (Groups ["+a:example.org"; "+b:example.org"; "+c:example.org"])].
Proof.
  destruct (update_related_groups_union (px_ideal []) "!room:example.org"
              ["+a:example.org"; "+b:example.org"]
              ["+b:example.org"; "+c:example.org"] []) as [Hsent _].
  - left. reflexivity.
  - exact Hsent.
Defined.

(** ** C3: self-membership *)

Lemma intent_self_in_room_existing px room room_id t :
  startswith "!" room = false →
  api_get_room_id px t room = Ok room_id →
  intent_self_in_room px room t = (Ok room_id, t ++ [GetRoomId room]).
Proof.
  intros Hbang Hget.
  unfold intent_self_in_room, room_id_if_exists, bind, try_except, perform,
    when, coroutine_truth, ret.
  rewrite Hbang. simpl. by rewrite Hget.
Qed.

(** C3. On a homeserver where the alias [#br-general:example.org] resolves
    to an existing room and the connector has joined no room,
    [intent_self_in_room] returns the room id after the alias lookup alone:
    it asks neither for the joined rooms nor to join, because the membership
    test of line 125 is a coroutine that is never awaited and therefore
    true. *)
Theorem intent_self_in_room_no_join :
  api_joined_rooms (px_ideal []) [] = Ok [] ∧
  intent_self_in_room (px_ideal []) "#br-general:example.org" []
    = (Ok "!#br-general:example.org", [GetRoomId "#br-general:example.org"]) ∧
  JoinRoom "!#br-general:example.org"
    ∉ (intent_self_in_room (px_ideal []) "#br-general:example.org" []).2.
Proof.
  split; [reflexivity|].
  rewrite (intent_self_in_room_existing _ _ "!#br-general:example.org")
    by reflexivity.
  split; [reflexivity|]. simpl.
  intros Hin. apply list_elem_of_singleton in Hin. discriminate.
Qed.

(** ** C5: the skip command *)

(** C5. [!skip colour] from an admin is answered with the error message and
    then carried out all the same: [skip_room_colour] is written to the
    room's options and the update is confirmed. *)
Theorem room_skip_command_unknown_flag :
  ("colour" ∉ skip_flags) ∧
  room_skip_command cfg_admin msg_skip_colour true (mem_empty, [])
  = (Ok tt,
     ({| seen_channels := None;
         autoinvite_users := None;
         picard_options :=
           {[ "!room:example.org" := {[ "skip_room_colour" := true ]} ]} |},
      [Respond ("The skip argument must be one of "
                +:+ "('name', 'description', 'avatar'), not colour") None;
       MemoryGet "picard.options";
       MemoryPut "picard.options";
       Respond "Your room settings have been updated." None])).
Proof.
  split.
  - refine (bool_decide_unpack _ _). vm_compute. exact I.
  - vm_compute. reflexivity.
Qed.

(** ** C10: the auto-invite list *)

Lemma list_remove_subseteq x l y : y ∈ list_remove x l → y ∈ l.
Proof.
  induction l as [|z l IH]; simpl; [done|].
  destruct (String.eqb z x).
  - by right.
  - rewrite !elem_of_cons. intros [->|Hy]; auto.
Qed.

Lemma list_remove_NoDup x l : NoDup l → NoDup (list_remove x l).
Proof.
  induction 1 as [|z l Hz Hnd IH]; simpl; [apply NoDup_nil_2|].
  destruct (String.eqb z x); [done|].
  apply NoDup_cons. split; [|done].
  intros Hin. by apply list_remove_subseteq in Hin.
Qed.

Lemma append_NoDup (x : string) l : NoDup l → x ∉ l → NoDup (l ++ [x]).
Proof.
  intros Hnd Hx. apply NoDup_app. split; [done|].
  split; [|apply NoDup_singleton].
  intros y Hy Hyx. apply list_elem_of_singleton in Hyx as ->. done.
Qed.

Lemma on_auto_invite_NoDup message mem t r mem' t' :
  on_auto_invite message (mem, t) = (r, (mem', t')) →
  autoinvite_NoDup mem → autoinvite_NoDup mem'.
Proof.
  unfold on_auto_invite, bind, memory_get_autoinvite_users,
    memory_put_autoinvite_users, bot_respond. simpl.
  intros Hrun Hnd. case_bool_decide as Hin; simpl in Hrun.
  - by injection Hrun as _ <- _.
  - injection Hrun as _ <- _. intros users [= <-].
    apply append_NoDup; [|done].
    destruct (autoinvite_users mem) as [us|] eqn:Hus; simpl.
    + by apply Hnd.
    + apply NoDup_nil_2.
Qed.

Lemma on_disable_auto_invite_NoDup message mem t r mem' t' :
  on_disable_auto_invite message (mem, t) = (r, (mem', t')) →
  autoinvite_NoDup mem → autoinvite_NoDup mem'.
Proof.
  unfold on_disable_auto_invite, bind, memory_get_autoinvite_users,
    memory_put_autoinvite_users, bot_respond. simpl.
  intros Hrun Hnd. case_bool_decide as Hin; simpl in Hrun.
  - by injection Hrun as _ <- _.
  - injection Hrun as _ <- _. intros users [= <-].
    apply list_remove_NoDup.
    destruct (autoinvite_users mem) as [us|] eqn:Hus; simpl.
    + by apply Hnd.
    + apply NoDup_nil_2.
Qed.

Lemma room_skip_command_autoinvite config message skip mem t r mem' t' :
  room_skip_command config message skip (mem, t) = (r, (mem', t')) →
  autoinvite_users mem' = autoinvite_users mem.
Proof.
  unfold room_skip_command, bind, when, raise, ret, memory_get_options,
    memory_put_options, bot_respond.
  intros Hrun. destruct (users_as_admin config) as [admins|];
    [|by injection Hrun as _ <- _].
  case_bool_decide; simpl in Hrun; [by injection Hrun as _ <- _|].
  case_bool_decide; simpl in Hrun; by injection Hrun as _ <- _.
Qed.

(** ** The sweep and memory *)

Section Sweep.
Context (px : Platform) `{PySet}.

Lemma mirror_slack_channels_memory config mem t r mem' t' :
  mirror_slack_channels px config (mem, t) = (r, (mem', t')) →
  autoinvite_users mem' = autoinvite_users mem ∧
  picard_options mem' = picard_options mem ∧
  (seen_channels mem' = seen_channels mem ∨
   ∃ item items,
     get_new_channels (slack_channels px) config
       (default ∅ (seen_channels mem)) = Ok (item :: items) ∧
     seen_channels mem'
     = Some (ledger_update (default ∅ (seen_channels mem)) (item :: items))).
Proof.
  unfold mirror_slack_channels, bind, lift_result, memory_get_seen_channels,
    lift_plat, when, ret, memory_put_seen_channels, respond, perform.
  intros Hrun.
  destruct (slack_get_user_id px (bridge_bot_name config)) as [bot|e].
  2:{ injection Hrun as <- <- _. auto. }
  destruct (get_new_channels (slack_channels px) config
              (default ∅ (seen_channels mem))) as [new|e].
  2:{ injection Hrun as <- <- _. auto. }
  destruct (admin_of_community px (community_id config) _) as [[community|e] t1].
  2:{ injection Hrun as <- <- _. auto. }
  destruct (truthy_opt_str community).
  - simpl in Hrun.
    destruct (api_get_rooms_in_group px _ _) as [rooms|e].
    2:{ injection Hrun as <- <- _. auto. }
    destruct (for_each new _ _) as [[[]|e] t2].
    2:{ injection Hrun as <- <- _. auto. }
    destruct new as [|item items]; simpl in Hrun;
      injection Hrun as <- <- _; simpl;
      (split; [done|]; split; [done|]);
      [by left | right; by exists item, items].
  - destruct (for_each new _ _) as [[[]|e] t2].
    2:{ injection Hrun as <- <- _. auto. }
    destruct new as [|item items]; simpl in Hrun;
      injection Hrun as <- <- _; simpl;
      (split; [done|]; split; [done|]);
      [by left | right; by exists item, items].
Qed.

End Sweep.

(** C10. [!autoinvite] from a sender already on the list answers without
    writing to memory, and so does [!autoinvite disable] from a sender not on
    the list; starting from a list without duplicates, whatever the handlers
    that write to memory do, the stored list never holds a user twice. *)
Theorem autoinvite_users_duplicate_free `{PySet} :
  (∀ message mem t,
      msg_sender message ∈ default [] (autoinvite_users mem) →
      on_auto_invite message (mem, t)
      = (Ok tt, (mem, t ++ [MemoryGet "autoinvite_users";
                            Respond "You already have autoinvite enabled."
                                    None]))) ∧
  (∀ message mem t,
      msg_sender message ∉ default [] (autoinvite_users mem) →
      on_disable_auto_invite message (mem, t)
      = (Ok tt, (mem, t ++ [MemoryGet "autoinvite_users";
                            Respond "You do not have autoinvite enabled."
                                    None]))) ∧
  (∀ mem, reachable mem →
          ∀ users, autoinvite_users mem = Some users → NoDup users).
Proof.
  split; [|split].
  - intros message mem t Hin.
    unfold on_auto_invite, bind, memory_get_autoinvite_users, bot_respond.
    simpl. rewrite bool_decide_eq_true_2 by done. simpl.
    by rewrite <-app_assoc.
  - intros message mem t Hin.
    unfold on_disable_auto_invite, bind, memory_get_autoinvite_users,
      bot_respond.
    simpl. rewrite bool_decide_eq_true_2 by done. simpl.
    by rewrite <-app_assoc.
  - induction 1 as [mem Hinit
                   |mem t message r mem' t' _ IH Hrun
                   |mem t message r mem' t' _ IH Hrun
                   |mem t config message skip r mem' t' _ IH Hrun
                   |mem t px config r mem' t' _ IH Hrun].
    + exact Hinit.
    + by apply (on_auto_invite_NoDup _ _ _ _ _ _ Hrun).
    + by apply (on_disable_auto_invite_NoDup _ _ _ _ _ _ Hrun).
    + apply room_skip_command_autoinvite in Hrun. by rewrite Hrun.
    + apply mirror_slack_channels_memory in Hrun as [Hrun _].
      by rewrite Hrun.
Qed.

Lemma autoinvite_users_duplicate_free_witness :
  on_auto_invite msg_autoinvite (mem_enrolled, [])
  = (Ok tt, (mem_enrolled,
             [MemoryGet "autoinvite_users";
              Respond "You already have autoinvite enabled." None])) ∧
  on_disable_auto_invite msg_autoinvite (mem_empty, [])
  = (Ok tt, (mem_empty,
             [MemoryGet "autoinvite_users";
              Respond "You do not have autoinvite enabled." None])) ∧
  NoDup ["@ada:example.org"].
Proof.
  destruct (autoinvite_users_duplicate_free (H := PySet_first_occurrence))
    as (Henable & Hdisable & Hreach).
  split; [|split].
  - apply (Henable msg_autoinvite mem_enrolled []). simpl. by left.
  - apply (Hdisable msg_autoinvite mem_empty []). simpl. apply not_elem_of_nil.
  - apply (Hreach mem_enrolled); [|reflexivity].
    apply (reachable_auto_invite mem_empty [] msg_autoinvite (Ok tt)
             mem_enrolled
             [MemoryGet "autoinvite_users"; MemoryPut "autoinvite_users";
              Respond ("You will be invited to all future rooms. "
                       +:+ "Use !inviteall to get invites to existing rooms.")
                      None]).
    + apply reachable_init. intros users Hu. discriminate.
    + vm_compute. reflexivity.
Defined.

(** ** Discovery and the Ledger *)

Lemma ledger_update_lookup (seen : gmap string LedgerEntry)
    (new_channels : odict LedgerEntry) i :
  NoDup (odict_keys new_channels) →
  ledger_update seen new_channels !! i
  = match odict_get i new_channels with
    | Some entry => Some entry
    | None => seen !! i
    end.
Proof.
  unfold ledger_update, odict_keys. revert seen.
  induction new_channels as [|[k v] new_channels IH]; intros seen Hnd;
    simpl; [done|].
  apply NoDup_cons in Hnd as [Hk Hnd]. rewrite IH by done. simpl in *.
  destruct (String.eqb_spec k i) as [->|Hne].
  - apply odict_get_None in Hk. rewrite Hk. by rewrite lookup_insert_eq.
  - by rewrite lookup_insert_ne.
Qed.

Lemma get_new_channels_keys channels config seen new_channels :
  get_new_channels channels config seen = Ok new_channels →
  NoDup (odict_keys new_channels) ∧
  ∀ i, i ∈ odict_keys new_channels ↔
       ∃ c, c ∈ channels ∧ ch_id c = i ∧ eligible seen c.
Proof.
  intros Hrun.
  destruct (get_new_channels_loop_keys _ _ _ _ _ _ Hrun) as [Hnd Hkeys];
    [apply NoDup_nil_2|].
  split; [done|]. intros i. rewrite Hkeys. split; [|by right].
  intros [Hi|?]; [by apply elem_of_nil in Hi|done].
Qed.

Lemma get_new_channels_none_new channels config seen :
  (∀ c, c ∈ channels → ¬ eligible seen c) →
  get_new_channels channels config seen = Ok [].
Proof.
  intros Hnone.
  destruct (get_new_channels_loop_ok channels config seen channels [])
    as [d Hd]; [done|].
  unfold get_new_channels. rewrite Hd. f_equal.
  destruct d as [|[i e] d]; [done|]. exfalso.
  destruct (get_new_channels_keys _ _ _ _ Hd) as [_ Hkeys].
  destruct (proj1 (Hkeys i)) as (c & Hc & _ & He).
  - unfold odict_keys. simpl. by left.
  - by apply (Hnone c).
Qed.

(** * Further properties *)

(** ** Calls a coroutine issues *)

Section Issues.
Context {A B : Type}.
Implicit Types (m : Plat A) (k : A → Plat B) (P : call → Prop).

Lemma issues_ret (a : A) P : issues (ret a) P.
Proof. intros t. exists []. by rewrite app_nil_r. Qed.

Lemma issues_raise (e : exn) P : issues (raise (A := A) e) P.
Proof. intros t. exists []. by rewrite app_nil_r. Qed.

Lemma issues_lift_result (r : result A) P : issues (lift_result r) P.
Proof. intros t. exists []. by rewrite app_nil_r. Qed.

Lemma issues_perform (c : call) (answer : trace → result A) P :
  P c → issues (perform c answer) P.
Proof. intros Hc t. exists [c]. split; [done|]. by apply Forall_singleton. Qed.

Lemma issues_bind m k P :
  issues m P → (∀ a, issues (k a) P) → issues (bind m k) P.
Proof.
  intros Hm Hk t. unfold bind. destruct (Hm t) as (t2 & Ht2 & HP2).
  destruct (m t) as [[a|e] t1]; simpl in *; subst t1.
  - destruct (Hk a (t ++ t2)) as (t3 & Ht3 & HP3).
    exists (t2 ++ t3). rewrite Ht3, app_assoc. split; [done|].
    by apply Forall_app.
  - by exists t2.
Qed.

Lemma issues_mono m (P Q : call → Prop) :
  issues m P → (∀ c, P c → Q c) → issues m Q.
Proof.
  intros Hm HPQ t. destruct (Hm t) as (t2 & Ht2 & HP2).
  exists t2. split; [done|]. by eapply Forall_impl.
Qed.

End Issues.

Lemma issues_bind_raise {A B} (e : exn) (k : A → Plat B) P :
  issues (bind (raise e) k) P.
Proof. intros t. exists []. by rewrite app_nil_r. Qed.

Lemma issues_try_except {A} (m : Plat A) (h : exn → Plat A) P :
  issues m P → (∀ e, issues (h e) P) → issues (try_except m h) P.
Proof.
  intros Hm Hh t. unfold try_except. destruct (Hm t) as (t2 & Ht2 & HP2).
  destruct (m t) as [[a|e] t1]; simpl in *; subst t1.
  - by exists t2.
  - destruct (Hh e (t ++ t2)) as (t3 & Ht3 & HP3).
    exists (t2 ++ t3). rewrite Ht3, app_assoc. split; [done|].
    by apply Forall_app.
Qed.

Lemma issues_when (c : bool) (m : Plat unit) P :
  issues m P → issues (when c m) P.
Proof. intros Hm. destruct c; [done|apply issues_ret]. Qed.

Lemma issues_for_each {A} (xs : list A) (body : A → Plat unit) P :
  (∀ x, issues (body x) P) → issues (for_each xs body) P.
Proof.
  intros Hbody. induction xs as [|x xs IH]; simpl.
  - apply issues_ret.
  - apply issues_bind; [apply Hbody|done].
Qed.

(** Reduce [issues m P] to [P c] for the calls [c] that [m] performs. *)
Ltac issues_step :=
  lazymatch goal with
  | |- issues (bind _ _) _ => apply issues_bind; [|intros ?]
  | |- issues (ret _) _ => apply issues_ret
  | |- issues (raise _) _ => apply issues_raise
  | |- issues (lift_result _) _ => apply issues_lift_result
  | |- issues (perform _ _) _ => apply issues_perform
  | |- issues (respond _ _ _) _ => apply issues_perform
  | |- issues (try_except _ _) _ => apply issues_try_except; [|intros ?]
  | |- issues (when _ _) _ => apply issues_when
  | |- issues (for_each _ _) _ => apply issues_for_each; intros ?
  | |- issues (match ?x with _ => _ end) _ => destruct x
  end.

(** ** Discovery *)

Lemma odict_set_fresh {V} k (v : V) (d : odict V) :
  k ∉ odict_keys d → odict_set k v d = d ++ [(k, v)].
Proof.
  unfold odict_keys. induction d as [|[k' v'] d IH]; simpl; [done|].
  rewrite not_elem_of_cons. intros [Hne Hk].
  destruct (String.eqb_spec k' k) as [->|_]; [done|]. by rewrite IH.
Qed.

Lemma is_new_eligible seen c : is_new seen c = true ↔ eligible seen c.
Proof.
  unfold is_new, eligible. rewrite andb_true_iff, negb_true_iff.
  by rewrite bool_decide_eq_true.
Qed.

Lemma get_new_channels_loop_list all config seen chans d :
  NoDup (ch_id <$> all) → chans ⊆ all → NoDup (ch_id <$> chans) →
  (∀ c, c ∈ chans → ch_id c ∉ odict_keys d) →
  get_new_channels_loop all config seen chans d
  = Ok (d ++ ((λ c, (ch_id c, entry_of config c))
                <$> filter (λ c, is_new seen c) chans)).
Proof.
  intros Hall. revert d.
  induction chans as [|c chans IH]; intros d Hsub Hnd Hfresh; simpl.
  - by rewrite app_nil_r.
  - assert (chans ⊆ all) as Hsub' by (intros x Hx; apply Hsub; by right).
    rewrite fmap_cons in Hnd. apply NoDup_cons in Hnd as [Hc Hnd].
    assert (∀ c', c' ∈ chans → ch_id c' ∉ odict_keys d) as Hfresh'
      by (intros c' Hc'; apply Hfresh; by right).
    destruct (ch_is_archived c) eqn:Harch.
    { rewrite filter_cons_False; [by apply IH|].
      unfold is_new. rewrite Harch. simpl. tauto. }
    destruct (seen !! ch_id c) eqn:Hseen.
    { rewrite filter_cons_False; [by apply IH|].
      unfold is_new. rewrite Harch, Hseen. simpl. tauto. }
    rewrite filter_cons_True
      by (unfold is_new; rewrite Harch, Hseen; simpl; tauto).
    rewrite fmap_cons. unfold entry_of at 1.
    rewrite get_channel_mapping_name by (auto; apply Hsub; by left).
    rewrite odict_set_fresh by (apply Hfresh; by left).
    rewrite IH; [by rewrite <-app_assoc|done|done|].
    intros c' Hc'. unfold odict_keys. rewrite fmap_app, elem_of_app.
    intros [Hin|Hin]; [by apply (Hfresh' c')|].
    apply list_elem_of_singleton in Hin. simpl in Hin.
    apply Hc. rewrite <-Hin. by apply list_elem_of_fmap_2.
Qed.

(** X1. Where channel ids are unique, [get_new_channels] returns the
    channels that are neither archived nor in the Ledger in the order of the
    workspace's channel list, each with its name, alias and topic; this is
    the order in which the sweep provisions them. *)
Theorem get_new_channels_in_list_order (channels : list Channel)
    (config : Config) (seen : gmap string LedgerEntry) :
  NoDup (ch_id <$> channels) →
  get_new_channels channels config seen
  = Ok ((λ c, (ch_id c,
               (ch_name c,
                room_alias_of (room_alias_prefix config) (ch_name c)
                              (server_name config),
                ch_topic c)))
          <$> filter (λ c, is_new seen c) channels).
Proof.
  intros Hnd. unfold get_new_channels.
  rewrite get_new_channels_loop_list; try done.
  intros c _. apply not_elem_of_nil.
Qed.

Lemma get_new_channels_in_list_order_witness :
  get_new_channels [ch_random; ch_old; ch_general] cfg_example ∅
  = Ok [("C2", ("random", "#br-random:example.org", ""));
        ("C1", ("general", "#br-general:example.org", "Company-wide"))].
Proof.
  rewrite (get_new_channels_in_list_order [ch_random; ch_old; ch_general]
             cfg_example ∅).
  - reflexivity.
  - refine (bool_decide_unpack _ _). vm_compute. exact I.
Defined.

(** X2. [get_channel_mapping] maps an id to the name of the last channel of
    the list that carries it, and ids of no channel to nothing. *)
Theorem get_channel_mapping_last_wins (channels : list Channel) (i : string) :
  get_channel_mapping channels !! i
  = ch_name <$> last (filter (λ c, ch_id c = i) channels).
Proof.
  unfold get_channel_mapping.
  induction channels as [|c channels IH] using rev_ind; [done|].
  rewrite foldl_snoc, filter_app.
  destruct (decide (ch_id c = i)) as [Heq|Hne].
  - rewrite (list.filter_singleton_True _ c [] Heq), last_snoc.
    rewrite <-Heq. by rewrite lookup_insert_eq.
  - rewrite (list.filter_singleton_False _ c [] Hne), app_nil_r.
    by rewrite lookup_insert_ne.
Qed.

(** X3. The Ledger only grows: whatever a sweep does, every entry that was
    in [seen_channels] before it is there afterwards with the same value. *)
Theorem sweep_keeps_ledger_entries (px : Platform) `{PySet} (config : Config)
    (mem mem' : Memory) (t t' : trace) (r : result unit) :
  mirror_slack_channels px config (mem, t) = (r, (mem', t')) →
  default ∅ (seen_channels mem) ⊆ default ∅ (seen_channels mem').
Proof.
  intros Hrun.
  destruct (mirror_slack_channels_memory _ _ _ _ _ _ _ Hrun)
    as (_ & _ & [Hmem|(item & items & Hnew & Hmem)]); [by rewrite Hmem|].
  rewrite Hmem.
  change (default ∅ (seen_channels mem)
          ⊆ ledger_update (default ∅ (seen_channels mem)) (item :: items)).
  destruct (get_new_channels_keys _ _ _ _ Hnew) as [Hnd Hkeys].
  apply map_subseteq_spec. intros i entry Hi.
  rewrite ledger_update_lookup by done.
  destruct (odict_get i (item :: items)) as [entry'|] eqn:Hget; [|done].
  exfalso.
  assert (i ∈ odict_keys (item :: items)) as Hin.
  { destruct (decide (i ∈ odict_keys (item :: items))); [done|].
    apply odict_get_None in n. congruence. }
  apply Hkeys in Hin as (c & _ & <- & _ & Hs). congruence.
Qed.

Lemma sweep_keeps_ledger_entries_witness :
  ∃ mem',
    (mirror_slack_channels (px_ideal [ch_general; ch_random]) cfg_example
       ({| seen_channels := Some ledger_random;
           autoinvite_users := None;
           picard_options := ∅ |}, [])).2.1 = mem' ∧
    ledger_random ⊆ default ∅ (seen_channels mem').
Proof.
  destruct (mirror_slack_channels (px_ideal [ch_general; ch_random])
              cfg_example
              ({| seen_channels := Some ledger_random;
                  autoinvite_users := None;
                  picard_options := ∅ |}, [])) as [r [mem' t']] eqn:Hrun.
  exists mem'. split; [reflexivity|].
  exact (sweep_keeps_ledger_entries _ _ _ _ _ _ _ Hrun).
Defined.

(** ** Aliases and rooms *)

Lemma string_app_assoc (a b c : string) : a +:+ b +:+ c = (a +:+ b) +:+ c.
Proof.
  induction a as [|x a IH]; [done|].
  change (String x (a +:+ b +:+ c) = String x ((a +:+ b) +:+ c)).
  by rewrite IH.
Qed.

Lemma string_app_cons (x : ascii) (a b : string) :
  String x a +:+ b = String x (a +:+ b).
Proof. reflexivity. Qed.

Lemma before_colon_app (a b : string) :
  has_colon a = false → before_colon (a +:+ ":" +:+ b) = a.
Proof.
  induction a as [|x a IH]; [done|].
  rewrite string_app_cons. simpl.
  destruct (Ascii.eqb x ":"); [done|]. simpl. intros Ha. by rewrite IH.
Qed.

(** X4. The local part that [intent_self_in_room] cuts out of an alias
    built by [get_new_channels] is the prefix followed by the channel name,
    as long as neither contains a colon. *)
Theorem alias_localpart_room_alias_of (prefix channel_name server : string) :
  has_colon (prefix +:+ channel_name) = false →
  alias_localpart (room_alias_of prefix channel_name server)
  = prefix +:+ channel_name.
Proof.
  intros Hcolon. unfold alias_localpart, room_alias_of.
  rewrite (string_app_assoc prefix).
  change ("#" +:+ ?s) with (String "#" s).
  change (before_colon (String "#" ?s)) with (String "#" (before_colon s)).
  by rewrite before_colon_app.
Qed.

Lemma alias_localpart_room_alias_of_witness :
  alias_localpart (room_alias_of "br-" "general" "example.org")
  = "br-general".
Proof.
  apply (alias_localpart_room_alias_of "br-" "general" "example.org").
  reflexivity.
Defined.

(** X5. When the alias does not resolve (404) and [intent_self_in_room]
    returns a room id, it has asked to create the room under the alias's
    local part and its last call is the join of the room it returns; between
    the two there is at most the second alias lookup, made when the creation
    failed. *)
Theorem intent_self_in_room_absent (px : Platform) (room room_id content : string)
    (t t' : trace) :
  startswith "!" room = false →
  api_get_room_id px t room = Raise (MatrixRequestError 404 content) →
  intent_self_in_room px room t = (Ok room_id, t') →
  ∃ retry,
    t' = t ++ [GetRoomId room; CreateRoom (alias_localpart room)]
           ++ retry ++ [JoinRoom room_id] ∧
    (retry = [] ∨ retry = [GetRoomId room]).
Proof.
  intros Hbang Hget.
  unfold intent_self_in_room, room_id_if_exists, bind, try_except, perform,
    join_room, ret, raise.
  rewrite Hbang, Hget. clear Hget. simpl.
  destruct (api_create_room px _ _) as [rid|[]]; simpl;
    try (intros [=]; fail).
  - destruct (api_join_room px _ rid) as [[]|e]; [|done].
    intros [= <- <-]. exists []. split; [|by left].
    by rewrite <-!app_assoc.
  - destruct (api_get_room_id px _ room) as [rid|e]; [|done]. simpl.
    destruct (api_join_room px _ rid) as [[]|e]; [|done].
    intros [= <- <-]. exists [GetRoomId room]. split; [|by right].
    by rewrite <-!app_assoc.
Qed.

Lemma intent_self_in_room_absent_witness :
  ∃ retry,
    [GetRoomId "#br-general:example.org"; CreateRoom "br-general";
     GetRoomId "#br-general:example.org";
     JoinRoom "!#br-general:example.org"]
    = [] ++ [GetRoomId "#br-general:example.org";
             CreateRoom (alias_localpart "#br-general:example.org")]
         ++ retry ++ [JoinRoom "!#br-general:example.org"] ∧
    (retry = [] ∨ retry = [GetRoomId "#br-general:example.org"]).
Proof.
  apply (intent_self_in_room_absent px_creation_race
           "#br-general:example.org" "!#br-general:example.org"
           "Room alias not found" []).
  - reflexivity.
  - reflexivity.
  - vm_compute. reflexivity.
Defined.

(** X6. Whatever the homeserver answers, [intent_self_in_room] issues only
    lookups of the alias, the creation of its local part and joins: it never
    asks for the joined rooms. *)
Theorem intent_self_in_room_calls (px : Platform) (room : string) :
  issues (intent_self_in_room px room)
    (λ c, c = GetRoomId room ∨ c = CreateRoom (alias_localpart room) ∨
          ∃ room_id, c = JoinRoom room_id).
Proof.
  unfold intent_self_in_room, room_id_if_exists, join_room,
    coroutine_truth.
  simpl. repeat issues_step; eauto.
Qed.

(** ** Invitations *)

(** X7. For a room given by its id, [intent_user_in_room] issues the one
    invite and never lets its [MatrixRequestError] escape: it returns the
    room id when the invite succeeded or the error says the user is already
    in the room, and [None] on any other such error.  For an alias that
    does not resolve (404) it returns [None] without inviting. *)
Theorem intent_user_in_room_outcome (px : Platform) (user room : string)
    (t : trace) :
  (startswith "!" room = true →
   ∃ r, intent_user_in_room px user (Some room) t
        = (r, t ++ [InviteUser room user]) ∧
        match api_invite_user px t room user with
        | Ok _ => r = Ok (Some room)
        | Raise (MatrixRequestError _ content) =>
            r = Ok (if str_contains "already in the room" content
                    then Some room else None)
        | Raise e => r = Raise e
        end) ∧
  (startswith "!" room = false →
   (∃ content, api_get_room_id px t room
               = Raise (MatrixRequestError 404 content)) →
   intent_user_in_room px user (Some room) t = (Ok None, t ++ [GetRoomId room])).
Proof.
  unfold intent_user_in_room, room_id_if_exists, bind, try_except, perform,
    ret, raise.
  split.
  - intros ->. simpl.
    destruct (api_invite_user px t room user) as [[]|[code content| | | | | |]];
      simpl; try (by eexists).
    destruct (str_contains _ content); by eexists.
  - intros -> [content ->]. done.
Qed.

Lemma intent_user_in_room_outcome_witness :
  intent_user_in_room px_creation_race "@ada:example.org"
    (Some "#br-general:example.org") []
  = (Ok None, [GetRoomId "#br-general:example.org"]).
Proof.
  apply (intent_user_in_room_outcome px_creation_race "@ada:example.org"
           "#br-general:example.org" []).
  - reflexivity.
  - eexists. reflexivity.
Defined.

(** ** Communities *)

Lemma filter_first_match {A} (P : A → Prop) `{∀ x, Decision (P x)}
    (pre post : list A) (x : A) :
  Forall (λ y, ¬ P y) pre → P x →
  ∃ rest, filter P (pre ++ x :: post) = x :: rest.
Proof.
  intros Hpre Hx. induction Hpre as [|y pre Hy _ IH]; simpl.
  - rewrite filter_cons_True by done. by eexists.
  - by rewrite filter_cons_False.
Qed.

(** X8. [admin_of_community] on a homeserver with the groups API and an
    existing community with a non-empty profile: it raises [IndexError] when
    the connector is not among the community's users, returns [None] when
    the first entry of the connector is not privileged, and returns the
    community otherwise.  Without the groups API it returns [None] and
    issues no call. *)
Theorem admin_of_community_existing (px : Platform) (community : string)
    (t : trace) (profile : list (string * string)) (users : list GroupUser) :
  (has_create_group px = false →
   admin_of_community px community t = (Ok None, t)) ∧
  (has_create_group px = true →
   api_get_group_profile px t community = Ok profile → profile ≠ [] →
   api_get_users_in_group px (t ++ [GetGroupProfile community]) community
     = Ok users →
   ((∀ u, u ∈ users → gu_user_id u ≠ connector_mxid px) →
    (admin_of_community px community t).1 = Raise IndexError) ∧
   (∀ pre me post,
       users = pre ++ me :: post →
       Forall (λ u, gu_user_id u ≠ connector_mxid px) pre →
       gu_user_id me = connector_mxid px →
       (admin_of_community px community t).1
       = Ok (if gu_is_privileged me then Some community else None))).
Proof.
  unfold admin_of_community, bind, try_except, perform, ret, raise.
  split; [by intros ->|].
  intros -> Hget Hprofile Husers. simpl. rewrite Hget. simpl.
  destruct profile as [|p profile]; [done|]. simpl. rewrite Husers. simpl.
  clear Hget Husers. split.
  - intros Hnone.
    assert (filter (λ key, gu_user_id key = connector_mxid px) users = [])
      as ->; [|done].
    induction users as [|u users IH]; [done|].
    rewrite filter_cons_False by (apply Hnone; by left).
    apply IH. intros u' Hu'. apply Hnone. by right.
  - intros pre me post -> Hpre Hme.
    destruct (filter_first_match
                (λ key, gu_user_id key = connector_mxid px) pre post me)
      as [rest ->]; [done|done|].
    by destruct (gu_is_privileged me).
Qed.

Lemma admin_of_community_existing_witness :
  (admin_of_community
     (px_community [{| gu_user_id := "@ada:example.org";
                       gu_is_privileged := true |}])
     "+picard:example.org" []).1
  = Raise IndexError.
Proof.
  destruct (admin_of_community_existing
              (px_community [{| gu_user_id := "@ada:example.org";
                                gu_is_privileged := true |}])
              "+picard:example.org" [] [("name", "Picard")]
              [{| gu_user_id := "@ada:example.org";
                  gu_is_privileged := true |}])
    as [_ Hexisting].
  destruct Hexisting as [Habsent _]; [reflexivity|reflexivity|done|reflexivity|].
  apply Habsent. intros u Hu. apply list_elem_of_singleton in Hu as ->.
  simpl. discriminate.
Defined.

(** ** Power levels, algebraically *)

Lemma user_is_room_admin_insert pl users mxid :
  pl !! "users" = Some (PLMap users) →
  user_is_room_admin pl mxid
  = Ok (<["users" := PLMap (<[mxid := 100]> users)]> pl).
Proof.
  intros Hu. unfold user_is_room_admin. rewrite Hu. case_decide as Hl.
  - done.
  - assert (users !! mxid = Some 100) as Hl'.
    { destruct (decide (users !! mxid = Some 100)); [done|]. by destruct Hl. }
    f_equal. rewrite (insert_id users) by done. by rewrite insert_id.
Qed.

Lemma user_is_room_admin_users pl mxid pl' :
  user_is_room_admin pl mxid = Ok pl' →
  ∃ users, pl !! "users" = Some (PLMap users).
Proof.
  unfold user_is_room_admin.
  destruct (pl !! "users") as [[n|users]|]; try done. by exists users.
Qed.

(** X9. Admin grants are idempotent and commute: granting a user twice
    gives the document of granting once, and two grants give the same
    document in either order. *)
Theorem admin_grants_commute (pl pl1 pl2 : gmap string pl_value)
    (a b : string) :
  user_is_room_admin pl a = Ok pl1 →
  user_is_room_admin pl1 b = Ok pl2 →
  user_is_room_admin pl1 a = Ok pl1 ∧
  ∃ pl1', user_is_room_admin pl b = Ok pl1' ∧
          user_is_room_admin pl1' a = Ok pl2.
Proof.
  intros Ha Hb.
  destruct (user_is_room_admin_users _ _ _ Ha) as [users Hu].
  rewrite (user_is_room_admin_insert _ users) in Ha by done.
  injection Ha as <-.
  rewrite (user_is_room_admin_insert _ (<[a := 100]> users)) in Hb
    by apply lookup_insert_eq.
  injection Hb as <-. split.
  - rewrite (user_is_room_admin_insert _ (<[a := 100]> users))
      by apply lookup_insert_eq.
    by rewrite !insert_insert_eq.
  - eexists. split; [by apply user_is_room_admin_insert|].
    rewrite (user_is_room_admin_insert _ (<[b := 100]> users))
      by apply lookup_insert_eq.
    rewrite !insert_insert_eq. do 3 f_equal.
    destruct (decide (a = b)) as [->|Hne]; [done|].
    by apply insert_insert_ne.
Qed.

Lemma admin_grants_commute_witness :
  ∃ pl1 pl1' pl2,
    user_is_room_admin pl_example "@mod:example.org" = Ok pl1 ∧
    user_is_room_admin pl_example "@ada:example.org" = Ok pl1' ∧
    user_is_room_admin pl1 "@ada:example.org" = Ok pl2 ∧
    user_is_room_admin pl1' "@mod:example.org" = Ok pl2.
Proof.
  destruct (user_is_room_admin pl_example "@mod:example.org")
    as [pl1|e] eqn:H1; [|vm_compute in H1; discriminate].
  destruct (user_is_room_admin pl1 "@ada:example.org") as [pl2|e] eqn:H2.
  - destruct (admin_grants_commute pl_example pl1 pl2 "@mod:example.org"
                "@ada:example.org" H1 H2) as (_ & pl1' & H3 & H4).
    exists pl1, pl1', pl2. by repeat split.
  - exfalso. vm_compute in H1. injection H1 as <-.
    vm_compute in H2. discriminate.
Defined.

Lemma room_notifications_pl0_insert pl pl' :
  room_notifications_pl0 pl = Ok pl' →
  pl' = <["notifications" := PLMap (<["room" := 0]> (notifications_of pl))]> pl.
Proof.
  unfold room_notifications_pl0, notifications_of.
  destruct (pl !! "notifications") as [[n|m]|]; simpl; [done| |];
    by intros [= <-].
Qed.

Lemma room_notifications_pl0_room pl pl' :
  room_notifications_pl0 pl = Ok pl' →
  ∃ notifications, pl' !! "notifications" = Some (PLMap notifications) ∧
                   notifications !! "room" = Some 0.
Proof.
  intros Hfloor. apply room_notifications_pl0_insert in Hfloor as ->.
  eexists. rewrite lookup_insert_eq. split; [done|].
  by rewrite lookup_insert_eq.
Qed.

(** X10. The notification floor leaves [notifications.room] at 0, creating
    the [notifications] map when the document has none; it is idempotent,
    and it commutes with an admin grant. *)
Theorem notification_floor_algebra (pl pl1 : gmap string pl_value) :
  room_notifications_pl0 pl = Ok pl1 →
  (∃ notifications, pl1 !! "notifications" = Some (PLMap notifications) ∧
                    notifications !! "room" = Some 0) ∧
  (pl !! "notifications" = None →
   pl1 !! "notifications" = Some (PLMap {[ "room" := 0 ]})) ∧
  room_notifications_pl0 pl1 = Ok pl1 ∧
  (∀ mxid pl2,
      user_is_room_admin pl1 mxid = Ok pl2 →
      ∃ pl1', user_is_room_admin pl mxid = Ok pl1' ∧
              room_notifications_pl0 pl1' = Ok pl2).
Proof.
  intros Hfloor.
  pose proof (room_notifications_pl0_insert _ _ Hfloor) as ->.
  split; [|split; [|split]].
  - eexists. rewrite lookup_insert_eq. split; [done|].
    by rewrite lookup_insert_eq.
  - intros Hnone. rewrite lookup_insert_eq. unfold notifications_of.
    by rewrite Hnone.
  - unfold room_notifications_pl0. rewrite lookup_insert_eq. simpl.
    by rewrite !insert_insert_eq.
  - intros mxid pl2 Hgrant.
    destruct (user_is_room_admin_users _ _ _ Hgrant) as [users Hu].
    rewrite lookup_insert_ne in Hu by done.
    rewrite (user_is_room_admin_insert _ users) in Hgrant
      by (by rewrite lookup_insert_ne).
    injection Hgrant as <-.
    eexists. split; [by apply user_is_room_admin_insert|].
    unfold room_notifications_pl0, notifications_of in *.
    rewrite lookup_insert_ne by done.
    destruct (pl !! "notifications") as [[n|m]|]; simpl in *; [done| |];
      f_equal; by apply insert_insert_ne.
Qed.

Lemma notification_floor_algebra_witness :
  ∃ pl1 notifications,
    room_notifications_pl0 pl_example = Ok pl1 ∧
    pl1 !! "notifications" = Some (PLMap notifications) ∧
    notifications !! "room" = Some 0.
Proof.
  destruct (room_notifications_pl0 pl_example) as [pl1|e] eqn:H1;
    [|vm_compute in H1; discriminate].
  destruct (notification_floor_algebra pl_example pl1 H1)
    as ((notifications & Hn & Hroom) & _).
  by exists pl1, notifications.
Defined.

(** ** Writing the power levels *)

Lemma issues_run {A} (m : Plat A) P t r t' :
  issues m P → m t = (r, t') → ∃ t2, t' = t ++ t2 ∧ Forall P t2.
Proof.
  intros Hm Hrun. destruct (Hm t) as (t2 & Ht2 & HP). rewrite Hrun in Ht2.
  by exists t2.
Qed.

Lemma room_id_if_exists_issues px room_alias :
  issues (room_id_if_exists px room_alias) (λ c, ∃ a, c = GetRoomId a).
Proof. unfold room_id_if_exists. repeat issues_step; eauto. Qed.

Lemma intent_user_in_room_issues px user room :
  issues (intent_user_in_room px user room)
    (λ c, (∃ a, c = GetRoomId a) ∨ ∃ r u, c = InviteUser r u).
Proof.
  unfold intent_user_in_room.
  apply issues_bind.
  { eapply issues_mono; [apply room_id_if_exists_issues|]. by left. }
  intros room_id. repeat issues_step; eauto.
Qed.

Lemma add_admin_users_issues px room_id users pl :
  issues (add_admin_users px room_id users pl)
    (λ c, (∃ a, c = GetRoomId a) ∨ ∃ r u, c = InviteUser r u).
Proof.
  revert pl. induction users as [|user users IH]; intros pl; simpl.
  - apply issues_ret.
  - apply issues_bind; [apply intent_user_in_room_issues|]. intros _.
    apply issues_bind; [apply issues_lift_result|]. intros pl1. apply IH.
Qed.

Lemma get_power_levels_issues px room_alias :
  issues (get_power_levels px room_alias)
    (λ c, (∃ a, c = GetRoomId a) ∨ ∃ r, c = GetPowerLevels r).
Proof.
  unfold get_power_levels.
  apply issues_bind.
  { eapply issues_mono; [apply room_id_if_exists_issues|]. by left. }
  intros room_id. apply issues_perform. eauto.
Qed.

(** X11. With no [users_as_admin] and no [room_pl_0] configured,
    [configure_room_power_levels] only looks the room up and reads its power
    levels, whatever the homeserver answers: it never writes them and
    invites no one. *)
Theorem configure_room_power_levels_unconfigured (px : Platform)
    (config : Config) (room_alias : string) :
  default [] (users_as_admin config) = [] →
  default false (room_pl_0 config) = false →
  issues (configure_room_power_levels px config room_alias)
    (λ c, (∃ a, c = GetRoomId a) ∨ ∃ r, c = GetPowerLevels r).
Proof.
  intros Hadmins Hpl0. unfold configure_room_power_levels, when.
  rewrite Hadmins, Hpl0.
  apply issues_bind.
  { eapply issues_mono; [apply room_id_if_exists_issues|]. by left. }
  intros room_id.
  apply issues_bind; [apply get_power_levels_issues|]. intros pl.
  simpl. repeat issues_step.
Qed.

Lemma configure_room_power_levels_unconfigured_witness :
  issues (configure_room_power_levels (px_ideal []) cfg_example
            "!room:example.org")
    (λ c, (∃ a, c = GetRoomId a) ∨ ∃ r, c = GetPowerLevels r).
Proof.
  apply (configure_room_power_levels_unconfigured (px_ideal []) cfg_example
           "!room:example.org"); reflexivity.
Defined.

Lemma pl_merge_trans pl1 pl2 pl3 :
  pl_merge pl1 pl2 → pl_merge pl2 pl3 → pl_merge pl1 pl3.
Proof.
  induction 1 as [pl|pl pl1 pl2 mxid Hstep _ IH|pl pl1 pl2 Hstep _ IH];
    intros Hrest; [done| |].
  - apply (pl_merge_admin _ pl1 _ mxid); [done|by apply IH].
  - apply (pl_merge_floor _ pl1); [done|by apply IH].
Qed.

Lemma user_is_room_admin_is_admin pl mxid pl' :
  user_is_room_admin pl mxid = Ok pl' →
  is_admin pl' mxid ∧ ∀ u, is_admin pl u → is_admin pl' u.
Proof.
  intros Hgrant.
  destruct (user_is_room_admin_users _ _ _ Hgrant) as [users Hu].
  rewrite (user_is_room_admin_insert _ users) in Hgrant by done.
  injection Hgrant as <-. split.
  - eexists. split; [apply lookup_insert_eq|apply lookup_insert_eq].
  - intros u (users' & Hu' & Hl). rewrite Hu in Hu'. injection Hu' as <-.
    eexists. split; [apply lookup_insert_eq|].
    destruct (decide (mxid = u)) as [->|Hne];
      [apply lookup_insert_eq|by rewrite lookup_insert_ne].
Qed.

Lemma room_notifications_pl0_is_admin pl pl' u :
  room_notifications_pl0 pl = Ok pl' → is_admin pl u → is_admin pl' u.
Proof.
  intros Hfloor (users & Hu & Hl).
  apply room_notifications_pl0_insert in Hfloor as ->.
  exists users. by rewrite lookup_insert_ne.
Qed.

Lemma add_admin_users_is_admin px room_id users pl t pl' t' :
  add_admin_users px room_id users pl t = (Ok pl', t') →
  (∀ u, is_admin pl u → is_admin pl' u) ∧
  (∀ u, u ∈ users → is_admin pl' u).
Proof.
  revert pl t. induction users as [|user users IH]; intros pl t; simpl.
  - unfold ret. intros [= <- _]. split; [done|].
    intros u Hu. by apply elem_of_nil in Hu.
  - unfold bind, lift_result.
    destruct (intent_user_in_room px user room_id t) as [[_|e] t1]; [|done].
    destruct (user_is_room_admin pl user) as [pl1|e] eqn:Hgrant; [|done].
    intros Hrest. destruct (IH _ _ Hrest) as [Hkeep Hnew].
    destruct (user_is_room_admin_is_admin _ _ _ Hgrant) as [Huser Hkeep1].
    split; [by auto|].
    intros u Hu. apply elem_of_cons in Hu as [->|Hu]; auto.
Qed.

(** [Hc] says that a [SetPowerLevels] call is a lookup, a read or an
    invite. *)
Ltac no_write Hc :=
  repeat match type of Hc with
         | _ ∨ _ => destruct Hc as [Hc|Hc]
         | ∃ _, _ => destruct Hc as [? Hc]
         end; discriminate Hc.

Lemma get_power_levels_fetch px room_alias t pl t' :
  get_power_levels px room_alias t = (Ok pl, t') →
  ∃ t0 room_id, api_get_power_levels px t0 room_id = Ok pl.
Proof.
  unfold get_power_levels, bind, perform.
  destruct (room_id_if_exists px room_alias t) as [[room_id|e] t0]; [|done].
  intros [= Hpl _]. eauto.
Qed.

Lemma set_power_levels_run px room_alias pl t t' :
  set_power_levels px room_alias pl t = (Ok tt, t') →
  ∃ lookups room_id,
    t' = t ++ lookups ++ [SetPowerLevels room_id pl] ∧
    Forall (λ c, ∃ a, c = GetRoomId a) lookups.
Proof.
  unfold set_power_levels, bind, perform.
  destruct (room_id_if_exists px room_alias t) as [[room_id|e] t0] eqn:Hrun;
    [|done].
  destruct (issues_run _ _ _ _ _ (room_id_if_exists_issues px room_alias) Hrun)
    as (lookups & -> & Hlookups).
  intros [= _ <-]. exists lookups, room_id. by rewrite <-app_assoc.
Qed.

(** X12. When [users_as_admin] or [room_pl_0] is configured and
    [configure_room_power_levels] returns, its last call is the only write
    of the power levels, and the document written comes from a document the
    homeserver returned by admin grants and notification floors alone: every
    configured admin is at level 100 in it and, with [room_pl_0],
    [notifications.room] is 0. *)
Theorem configure_room_power_levels_write (px : Platform) (config : Config)
    (room_alias : string) (t t' : trace) :
  configure_room_power_levels px config room_alias t = (Ok tt, t') →
  truthy_list (default [] (users_as_admin config))
    || default false (room_pl_0 config) = true →
  ∃ before room_id fetched written,
    t' = t ++ before ++ [SetPowerLevels room_id written] ∧
    Forall (λ c, ∀ r d, c ≠ SetPowerLevels r d) before ∧
    (∃ t0 r, api_get_power_levels px t0 r = Ok fetched) ∧
    pl_merge fetched written ∧
    (∀ u, u ∈ default [] (users_as_admin config) → is_admin written u) ∧
    (default false (room_pl_0 config) = true →
     ∃ notifications, written !! "notifications" = Some (PLMap notifications) ∧
                      notifications !! "room" = Some 0).
Proof.
  unfold configure_room_power_levels, bind, when.
  intros Hrun Hconfigured. rewrite Hconfigured in Hrun.
  destruct (room_id_if_exists px (Some room_alias) t)
    as [[room_id|e] t1] eqn:H1; [|done].
  destruct (issues_run _ _ _ _ _ (room_id_if_exists_issues px _) H1)
    as (e1 & -> & He1).
  destruct (get_power_levels px room_id _) as [[fetched|e] t2] eqn:H2; [|done].
  destruct (issues_run _ _ _ _ _ (get_power_levels_issues px _) H2)
    as (e2 & -> & He2).
  apply get_power_levels_fetch in H2.
  destruct (add_admin_users px room_id _ fetched _)
    as [[granted|e] t3] eqn:H3; [|done].
  destruct (issues_run _ _ _ _ _ (add_admin_users_issues px _ _ _) H3)
    as (e3 & -> & He3).
  pose proof (add_admin_users_merge _ _ _ _ _ _ _ H3) as Hmerge.
  destruct (add_admin_users_is_admin _ _ _ _ _ _ _ H3) as [_ Hadmins].
  destruct (default false (room_pl_0 config)) eqn:Hpl0.
  - unfold lift_result in Hrun.
    destruct (room_notifications_pl0 granted) as [written|e] eqn:Hfloor;
      [|done].
    apply set_power_levels_run in Hrun as (e4 & rid & -> & He4).
    exists (e1 ++ e2 ++ e3 ++ e4), rid, fetched, written.
    split; [by rewrite <-!app_assoc|]. split; [|split; [done|split; [|split]]].
    + rewrite !Forall_app. repeat split;
        (eapply Forall_impl; [eassumption|]); simpl;
        intros c Hc r d ->; no_write Hc.
    + apply (pl_merge_trans _ granted); [done|].
      apply (pl_merge_floor _ written); [done|apply pl_merge_done].
    + intros u Hu. apply (room_notifications_pl0_is_admin granted); auto.
    + intros _. by apply (room_notifications_pl0_room granted).
  - unfold ret in Hrun.
    apply set_power_levels_run in Hrun as (e4 & rid & -> & He4).
    exists (e1 ++ e2 ++ e3 ++ e4), rid, fetched, granted.
    split; [by rewrite <-!app_assoc|]. split; [|split; [done|split; [|split]]].
    + rewrite !Forall_app. repeat split;
        (eapply Forall_impl; [eassumption|]); simpl;
        intros c Hc r d ->; no_write Hc.
    + done.
    + done.
    + done.
Qed.

Lemma configure_room_power_levels_write_witness :
  ∃ before room_id fetched written,
    (configure_room_power_levels (px_ideal []) cfg_admin "!room:example.org"
       []).2
    = [] ++ before ++ [SetPowerLevels room_id written] ∧
    pl_merge fetched written ∧
    is_admin written "@admin:example.org".
Proof.
  assert ((configure_room_power_levels (px_ideal []) cfg_admin
             "!room:example.org" []).1 = Ok tt) as Hr
    by (vm_compute; reflexivity).
  destruct (configure_room_power_levels (px_ideal []) cfg_admin
              "!room:example.org" []) as [r t'] eqn:Hrun.
  simpl in Hr. subst r.
  destruct (configure_room_power_levels_write _ _ _ _ _ Hrun eq_refl)
    as (before & room_id & fetched & written & Ht & _ & _ & Hmerge & Hadm & _).
  exists before, room_id, fetched, written. split; [exact Ht|].
  split; [exact Hmerge|]. apply Hadm. simpl. by left.
Defined.

(** ** Related groups again *)

(** X13. Merging the configured groups into a room that already has them
    changes nothing: the list a second [update_related_groups] would send
    has the elements of the list the first one sent.  A failure to read the
    room's groups other than 404 is raised again without writing. *)
Theorem update_related_groups_rerun (px : Platform) `{PySet}
    (roomid : string) (existing communities : list string) (t : trace)
    (code : Z) (content : string) :
  merge_related_groups (merge_related_groups existing communities) communities
    ≡ₚ merge_related_groups existing communities ∧
  (code ≠ 404 →
   api_get_related_groups px t roomid
     = Raise (MatrixRequestError code content) →
   update_related_groups px roomid communities t
   = (Raise (MatrixRequestError code content),
      t ++ [GetRelatedGroups roomid])).
Proof.
  split.
  - apply NoDup_Permutation; try apply merge_related_groups_NoDup.
    intros g. rewrite !merge_related_groups_elem. tauto.
  - intros Hcode Hget.
    unfold update_related_groups, get_related_groups, bind, try_except,
      perform, raise.
    rewrite Hget. by rewrite bool_decide_eq_true_2.
Qed.

Lemma update_related_groups_rerun_witness :
  update_related_groups px_groups_forbidden "!room:example.org"
    ["+a:example.org"] []
  = (Raise (MatrixRequestError 403 "Forbidden"),
     [GetRelatedGroups "!room:example.org"]).
Proof.
  apply (update_related_groups_rerun px_groups_forbidden "!room:example.org"
           [] ["+a:example.org"] [] 403 "Forbidden").
  - lia.
  - reflexivity.
Defined.

(** ** The bridge bot *)

(** X14. [join_bot_to_channel] asks for the members of the channel and
    invites the bot exactly when it is not among them; a [slacker.Error] of
    the invite is swallowed, any other failure of it is raised. *)
Theorem join_bot_to_channel_outcome (px : Platform) (bot_id channel_id : string)
    (members : list string) (t : trace) :
  slack_conversations_members px t channel_id = Ok members →
  (bot_id ∈ members →
   join_bot_to_channel px bot_id channel_id t
   = (Ok tt, t ++ [SlackConversationsMembers channel_id])) ∧
  (bot_id ∉ members →
   join_bot_to_channel px bot_id channel_id t
   = (match slack_channels_invite px
              (t ++ [SlackConversationsMembers channel_id]) channel_id bot_id
      with
      | Ok _ | Raise SlackerError => Ok tt
      | Raise e => Raise e
      end,
      t ++ [SlackConversationsMembers channel_id;
            SlackChannelsInvite channel_id bot_id])).
Proof.
  intros Hmembers.
  unfold join_bot_to_channel, get_room_members, bind, try_except, perform,
    ret, raise.
  rewrite Hmembers. split; intros Hin.
  - by rewrite bool_decide_eq_false_2 by (by intros ?).
  - rewrite bool_decide_eq_true_2 by done. rewrite <-app_assoc. simpl.
    by destruct (slack_channels_invite px _ channel_id bot_id) as [[]|[]].
Qed.

Lemma join_bot_to_channel_outcome_witness :
  join_bot_to_channel (px_ideal []) "U7" "C1" []
  = (Ok tt, [SlackConversationsMembers "C1"; SlackChannelsInvite "C1" "U7"]).
Proof.
  destruct (join_bot_to_channel_outcome (px_ideal []) "U7" "C1" ["U0"; "U1"]
              [] eq_refl) as [_ Hinvite].
  apply Hinvite.
  intros Hin. apply elem_of_cons in Hin as [?|Hin]; [discriminate|].
  apply list_elem_of_singleton in Hin. discriminate.
Defined.

(** ** An avatar that is not an [mxc] URL *)

Lemma never_returns_bind_l {S A B} (m : St S A) (k : A → St S B) :
  never_returns m → never_returns (bind m k).
Proof.
  intros Hm s. unfold bind. specialize (Hm s).
  by destruct (m s) as [[a|e] s'].
Qed.

Lemma never_returns_bind_r {S A B} (m : St S A) (k : A → St S B) :
  (∀ a, never_returns (k a)) → never_returns (bind m k).
Proof.
  intros Hk s. unfold bind. destruct (m s) as [[a|e] s']; [apply Hk|done].
Qed.

Lemma never_returns_for_each {S A} (x : A) (xs : list A)
    (body : A → St S unit) :
  never_returns (body x) → never_returns (for_each (x :: xs) body).
Proof. intros Hbody. simpl. by apply never_returns_bind_l. Qed.

Section AvatarUrl.
Context (px : Platform) `{PySet} (config : Config) (url : string).
Hypothesis Hurl : room_avatar_url config = Some url.
Hypothesis Htruthy : truthy_str url = true.
Hypothesis Hmxc : startswith "mxc" url = false.

Lemma set_name_topic_avatar_never_returns name_prefix room_id channel_name
    topic :
  never_returns (set_name_topic_avatar px config name_prefix room_id
                   channel_name topic).
Proof.
  unfold set_name_topic_avatar. rewrite Hurl, Htruthy. simpl.
  do 2 (apply never_returns_bind_r; intros _).
  unfold set_room_avatar. rewrite Hmxc. simpl.
  by apply never_returns_bind_l.
Qed.

Lemma mirror_channel_never_returns bot_id community rooms item :
  never_returns (mirror_channel px config bot_id community rooms item).
Proof.
  destruct item as [channel_id [[channel_name room_alias] topic]].
  unfold mirror_channel.
  do 2 (apply never_returns_bind_r; intros ?).
  apply never_returns_bind_l, set_name_topic_avatar_never_returns.
Qed.

Lemma set_name_topic_avatar_no_avatar name_prefix room_id channel_name topic :
  issues (set_name_topic_avatar px config name_prefix room_id channel_name
            topic)
    (λ c, ∀ r content, c ≠ SendStateEvent r "m.room.avatar" content).
Proof.
  unfold set_name_topic_avatar. rewrite Hurl, Htruthy. simpl.
  unfold set_room_avatar, upload_image_to_matrix. rewrite Hmxc. simpl.
  apply issues_bind; [by apply issues_perform|]. intros _.
  apply issues_bind; [by apply issues_when, issues_perform|]. intros _.
  apply issues_bind_raise.
Qed.

End AvatarUrl.

(** X15. With a [room_avatar_url] that is not empty and does not start with
    [mxc], [set_room_avatar] raises [TypeError] before any request, because
    it calls [upload_image_to_matrix] with one argument short.  So a sweep
    that discovers a channel never returns: it raises on the first channel at
    the latest and leaves the Ledger unwritten, and no avatar is ever set. *)
Theorem avatar_url_not_mxc_aborts (px : Platform) `{PySet} (config : Config)
    (url : string) (mem : Memory) (t : trace)
    (new_channels : odict LedgerEntry) :
  room_avatar_url config = Some url →
  truthy_str url = true →
  startswith "mxc" url = false →
  get_new_channels (slack_channels px) config (default ∅ (seen_channels mem))
    = Ok new_channels →
  new_channels ≠ [] →
  (∀ room_id t0, set_room_avatar px room_id url t0 = (Raise TypeError, t0)) ∧
  (∃ e, (mirror_slack_channels px config (mem, t)).1 = Raise e) ∧
  seen_channels (mirror_slack_channels px config (mem, t)).2.1
    = seen_channels mem ∧
  (∀ name_prefix room_id channel_name topic,
      issues (set_name_topic_avatar px config name_prefix room_id
                channel_name topic)
        (λ c, ∀ r content, c ≠ SendStateEvent r "m.room.avatar" content)).
Proof.
  intros Hurl Htruthy Hmxc Hnew Hne.
  assert (∃ e t', mirror_slack_channels px config (mem, t)
                  = (Raise e, (mem, t'))) as (e & t' & Hrun).
  { unfold mirror_slack_channels, bind, lift_result,
      memory_get_seen_channels, lift_plat.
    destruct (slack_get_user_id px (bridge_bot_name config)) as [bot|e];
      [|by eexists _, _].
    rewrite Hnew.
    destruct (admin_of_community px (community_id config) _)
      as [[community|e] t1]; [|by eexists _, _].
    destruct new_channels as [|item items]; [done|].
    assert (∀ rooms t2,
      ∃ e t3, for_each (item :: items)
                (mirror_channel px config bot community rooms) t2
              = (Raise e, t3)) as Hloop.
    { intros rooms t2.
      pose proof (never_returns_for_each item items _
                    (mirror_channel_never_returns px config url Hurl Htruthy
                       Hmxc bot community rooms item) t2) as Hnever.
      destruct (for_each _ _ t2) as [[[]|e] t3]; [done|]. by eexists _, _. }
    destruct (truthy_opt_str community).
    - unfold perform.
      destruct (api_get_rooms_in_group px t1 _) as [rooms|e];
        [|by eexists _, _].
      destruct (Hloop rooms (t1 ++ [GetRoomsInGroup (default "" community)]))
        as (e & t3 & ->).
      by eexists _, _.
    - unfold ret. destruct (Hloop [] t1) as (e & t3 & ->). by eexists _, _. }
  split; [|split; [|split]].
  - intros room_id t0. unfold set_room_avatar, upload_image_to_matrix.
    by rewrite Hmxc.
  - exists e. by rewrite Hrun.
  - by rewrite Hrun.
  - intros. by apply (set_name_topic_avatar_no_avatar px config url).
Qed.

Lemma avatar_url_not_mxc_aborts_witness :
  ∃ e, (mirror_slack_channels (px_ideal [ch_general]) cfg_avatar_http
          (mem_empty, [])).1 = Raise e.
Proof.
  destruct (avatar_url_not_mxc_aborts (px_ideal [ch_general]) cfg_avatar_http
              "https://example.org/logo.png" mem_empty []
              [("C1", ("general", "#br-general:example.org", "Company-wide"))]
              eq_refl eq_refl eq_refl eq_refl) as (_ & Hraise & _).
  - discriminate.
  - exact Hraise.
Defined.

(** ** A sweep that keeps rooms private *)

(** As [issues_step], entering the loop over the admins. *)
Ltac issues_walk :=
  repeat first
    [ issues_step
    | lazymatch goal with
      | |- issues (add_admin_users _ _ _ _) _ =>
          eapply issues_mono; [apply add_admin_users_issues|]
      | |- issues (intent_user_in_room _ _ _) _ =>
          eapply issues_mono; [apply intent_user_in_room_issues|]
      | |- issues (if ?b then _ else _) _ => destruct b
      end ].

Lemma mirror_channel_private px `{PySet} config bot_id community rooms item :
  make_public config = Some false →
  issues (mirror_channel px config bot_id community rooms item)
    (λ c, ∀ r content,
        c ≠ SendStateEvent r "m.room.join_rules" content ∧
        c ≠ SendStateEvent r "m.room.history_visibility" content).
Proof.
  intros Hpublic.
  destruct item as [channel_id [[channel_name room_alias] topic]].
  unfold mirror_channel. rewrite Hpublic.
  unfold join_bot_to_channel, get_room_members, intent_self_in_room,
    set_name_topic_avatar, set_room_avatar, upload_image_to_matrix,
    intent_user_in_room, configure_room_power_levels, get_power_levels,
    set_power_levels, update_related_groups, get_related_groups,
    set_related_groups, add_room_to_community, user_in_state,
    room_id_if_exists, join_room, coroutine_truth, when.
  simpl.
  issues_walk.
  all: try (intros; split; discriminate).
  all: intros c Hc r content; split; intros ->; no_write Hc.
Qed.

Lemma admin_of_community_issues px community :
  issues (admin_of_community px community)
    (λ c, c = GetGroupProfile community ∨ (∃ l, c = CreateGroup l) ∨
          c = GetUsersInGroup community).
Proof. unfold admin_of_community. issues_walk; eauto. Qed.

Lemma mirror_slack_channels_issues px `{PySet} config (P : call → Prop) :
  P (MemoryGet "seen_channels") → P (MemoryPut "seen_channels") →
  P (Respond "Finished adding all rooms." None) →
  (∀ c, P (GetRoomsInGroup c)) →
  issues (admin_of_community px (community_id config)) P →
  (∀ bot_id community rooms item,
      issues (mirror_channel px config bot_id community rooms item) P) →
  ∀ mem t, ∃ t2,
    (mirror_slack_channels px config (mem, t)).2.2 = t ++ t2 ∧ Forall P t2.
Proof.
  intros Hget Hput Hdone Hrooms Hcomm Hbody mem t.
  unfold mirror_slack_channels, bind, lift_result, memory_get_seen_channels,
    lift_plat, when, ret, memory_put_seen_channels, respond, perform.
  destruct (slack_get_user_id px (bridge_bot_name config)) as [bot|e].
  2:{ exists []. by rewrite app_nil_r. }
  destruct (get_new_channels (slack_channels px) config _) as [new|e].
  2:{ exists [MemoryGet "seen_channels"]. split; [done|].
      by apply Forall_singleton. }
  destruct (admin_of_community px (community_id config) _)
    as [[community|e] t1] eqn:H1;
    destruct (issues_run _ _ _ _ _ Hcomm H1) as (e1 & -> & He1).
  2:{ exists ([MemoryGet "seen_channels"] ++ e1).
      split; [by rewrite app_assoc|]. apply Forall_app. split; [|done].
      by apply Forall_singleton. }
  assert (∀ rooms t0, ∃ r e2,
    for_each new (mirror_channel px config bot community rooms) t0
    = (r, t0 ++ e2) ∧ Forall P e2) as Hloop.
  { intros rooms t0.
    destruct (for_each new _ t0) as [r t2] eqn:H2.
    destruct (issues_run _ _ _ _ _
                (issues_for_each new _ P (Hbody bot community rooms)) H2)
      as (e2 & -> & He2).
    by exists r, e2. }
  destruct (truthy_opt_str community).
  - destruct (api_get_rooms_in_group px _ _) as [rooms|e].
    2:{ eexists (_ :: e1 ++ [_]). split; [by rewrite <-!app_assoc|].
        apply Forall_cons. split; [done|]. apply Forall_app. split; [done|].
        by apply Forall_singleton. }
    destruct (Hloop rooms
                (((t ++ [MemoryGet "seen_channels"]) ++ e1)
                   ++ [GetRoomsInGroup (default "" community)]))
      as (r & e2 & -> & He2).
    destruct r as [[]|e]; [destruct new as [|item items]|]; simpl.
    + eexists (_ :: e1 ++ _ :: e2). split; [by rewrite <-!app_assoc|].
      apply Forall_cons. split; [done|]. apply Forall_app. split; [done|].
      apply Forall_cons. by split.
    + eexists (_ :: e1 ++ _ :: e2 ++ [_; _]).
      split; [by rewrite <-!app_assoc|].
      apply Forall_cons. split; [done|]. apply Forall_app. split; [done|].
      apply Forall_cons. split; [done|]. apply Forall_app. split; [done|].
      apply Forall_cons. split; [done|]. by apply Forall_singleton.
    + eexists (_ :: e1 ++ _ :: e2). split; [by rewrite <-!app_assoc|].
      apply Forall_cons. split; [done|]. apply Forall_app. split; [done|].
      apply Forall_cons. by split.
  - destruct (Hloop [] ((t ++ [MemoryGet "seen_channels"]) ++ e1))
      as (r & e2 & -> & He2).
    destruct r as [[]|e]; [destruct new as [|item items]|]; simpl.
    + eexists (_ :: e1 ++ e2). split; [by rewrite <-!app_assoc|].
      apply Forall_cons. split; [done|]. by apply Forall_app.
    + eexists (_ :: e1 ++ e2 ++ [_; _]).
      split; [by rewrite <-!app_assoc|].
      apply Forall_cons. split; [done|]. apply Forall_app. split; [done|].
      apply Forall_app. split; [done|].
      apply Forall_cons. split; [done|]. by apply Forall_singleton.
    + eexists (_ :: e1 ++ e2). split; [by rewrite <-!app_assoc|].
      apply Forall_cons. split; [done|]. by apply Forall_app.
Qed.

(** X16. With [make_public] set to false, no call of a sweep is a join-rule
    or history-visibility event, whatever the platforms answer. *)
Theorem sweep_keeps_rooms_private (px : Platform) `{PySet} (config : Config)
    (mem : Memory) (t : trace) :
  make_public config = Some false →
  ∃ calls,
    (mirror_slack_channels px config (mem, t)).2.2 = t ++ calls ∧
    Forall (λ c, ∀ r content,
              c ≠ SendStateEvent r "m.room.join_rules" content ∧
              c ≠ SendStateEvent r "m.room.history_visibility" content)
           calls.
Proof.
  intros Hpublic. apply mirror_slack_channels_issues; try done.
  - eapply issues_mono; [apply admin_of_community_issues|].
    intros c Hc r content. split; intros ->; no_write Hc.
  - intros. by apply mirror_channel_private.
Qed.

Lemma sweep_keeps_rooms_private_witness :
  ∃ calls,
    (mirror_slack_channels (px_ideal [ch_general]) cfg_avatar
       (mem_empty, [])).2.2 = [] ++ calls ∧
    Forall (λ c, ∀ r content,
              c ≠ SendStateEvent r "m.room.join_rules" content ∧
              c ≠ SendStateEvent r "m.room.history_visibility" content)
           calls.
Proof.
  apply (sweep_keeps_rooms_private (px_ideal [ch_general]) cfg_avatar
           mem_empty []).
  reflexivity.
Defined.

(** X17. A sweep that discovers no channel reads the Ledger and checks the
    community and nothing else: it issues no call for a room or a channel,
    answers nothing and leaves memory as it was. *)
Theorem sweep_nothing_new (px : Platform) `{PySet} (config : Config)
    (mem : Memory) (t : trace) :
  get_new_channels (slack_channels px) config (default ∅ (seen_channels mem))
    = Ok [] →
  ∃ r calls,
    mirror_slack_channels px config (mem, t) = (r, (mem, t ++ calls)) ∧
    Forall (λ c, c = MemoryGet "seen_channels" ∨
                 c = GetGroupProfile (community_id config) ∨
                 (∃ l, c = CreateGroup l) ∨
                 c = GetUsersInGroup (community_id config) ∨
                 ∃ g, c = GetRoomsInGroup g) calls.
Proof.
  intros Hnew.
  unfold mirror_slack_channels, bind, lift_result, memory_get_seen_channels,
    lift_plat, when, ret, perform.
  destruct (slack_get_user_id px (bridge_bot_name config)) as [bot|e].
  2:{ exists (Raise e), []. by rewrite app_nil_r. }
  rewrite Hnew.
  destruct (admin_of_community px (community_id config) _)
    as [[community|e] t1] eqn:H1;
    destruct (issues_run _ _ _ _ _ (admin_of_community_issues px _) H1)
      as (e1 & -> & He1).
  2:{ exists (Raise e), (MemoryGet "seen_channels" :: e1).
      split; [by rewrite <-app_assoc|].
      apply Forall_cons. split; [by left|].
      eapply Forall_impl; [done|]. intros c [?|[?|?]]; auto. }
  assert (Forall (λ c, c = MemoryGet "seen_channels" ∨
                       c = GetGroupProfile (community_id config) ∨
                       (∃ l, c = CreateGroup l) ∨
                       c = GetUsersInGroup (community_id config) ∨
                       ∃ g, c = GetRoomsInGroup g) e1) as He1'.
  { eapply Forall_impl; [done|]. intros c [?|[?|?]]; auto. }
  destruct (truthy_opt_str community); simpl.
  - destruct (api_get_rooms_in_group px _ _) as [rooms|e]; simpl.
    + eexists (Ok tt), (_ :: e1 ++ [_]). split; [by rewrite <-!app_assoc|].
      apply Forall_cons. split; [by left|]. apply Forall_app. split; [done|].
      apply Forall_singleton. eauto 10.
    + eexists (Raise e), (_ :: e1 ++ [_]). split; [by rewrite <-!app_assoc|].
      apply Forall_cons. split; [by left|]. apply Forall_app. split; [done|].
      apply Forall_singleton. eauto 10.
  - eexists (Ok tt), (_ :: e1). split; [by rewrite <-!app_assoc|].
    apply Forall_cons. split; [by left|done].
Qed.

Lemma sweep_nothing_new_witness :
  ∃ r calls,
    mirror_slack_channels (px_ideal [ch_random; ch_old]) cfg_example
      ({| seen_channels := Some ledger_random;
          autoinvite_users := None;
          picard_options := ∅ |}, [])
    = (r, ({| seen_channels := Some ledger_random;
              autoinvite_users := None;
              picard_options := ∅ |}, [] ++ calls)).
Proof.
  destruct (sweep_nothing_new (px_ideal [ch_random; ch_old]) cfg_example
              {| seen_channels := Some ledger_random;
                 autoinvite_users := None;
                 picard_options := ∅ |} [])
    as (r & calls & Hrun & _).
  - vm_compute. reflexivity.
  - by exists r, calls.
Defined.

(** ** The auto-invite commands *)

Lemma list_remove_elem x l u :
  NoDup l → u ∈ list_remove x l ↔ u ≠ x ∧ u ∈ l.
Proof.
  induction 1 as [|y l Hy Hnd IH]; simpl.
  - rewrite elem_of_nil. tauto.
  - destruct (String.eqb_spec y x) as [->|Hne]; rewrite !elem_of_cons.
    + split; [|tauto]. intros Hu. split; [|by right]. by intros ->.
    + rewrite IH. split; [|tauto].
      intros [->|[? ?]]; [split; [done|by left]|tauto].
Qed.

Lemma list_remove_snoc x l : x ∉ l → list_remove x (l ++ [x]) = l.
Proof.
  induction l as [|y l IH]; simpl; intros Hx.
  - by rewrite String.eqb_refl.
  - apply not_elem_of_cons in Hx as [Hne Hx].
    destruct (String.eqb_spec y x) as [->|_]; [done|]. by rewrite IH.
Qed.

(** X18. After [!autoinvite] the stored list holds the sender and whoever
    it held before.  After [!autoinvite disable] on a list without
    duplicates it holds whoever it held before except the sender. *)
Theorem autoinvite_membership (message : Message) (mem : Memory) (t : trace) :
  let users := default [] (autoinvite_users mem) in
  let enabled :=
    default [] (autoinvite_users (on_auto_invite message (mem, t)).2.1) in
  let disabled :=
    default []
      (autoinvite_users (on_disable_auto_invite message (mem, t)).2.1) in
  (∀ u, u ∈ enabled ↔ u = msg_sender message ∨ u ∈ users) ∧
  (NoDup users → ∀ u, u ∈ disabled ↔ u ≠ msg_sender message ∧ u ∈ users).
Proof.
  unfold on_auto_invite, on_disable_auto_invite, bind,
    memory_get_autoinvite_users, memory_put_autoinvite_users, bot_respond.
  simpl. split.
  - intros u. case_bool_decide as Hin; simpl.
    + split; [by right|]. by intros [->|?].
    + rewrite elem_of_app, list_elem_of_singleton. tauto.
  - intros Hnd u. case_bool_decide as Hin; simpl.
    + split; [|tauto]. intros Hu. split; [|done]. by intros ->.
    + by apply list_remove_elem.
Qed.

Lemma autoinvite_membership_witness :
  "@ada:example.org"
    ∉ default []
        (autoinvite_users
           (on_disable_auto_invite msg_autoinvite (mem_enrolled, [])).2.1).
Proof.
  destruct (autoinvite_membership msg_autoinvite mem_enrolled [])
    as [_ Hdisabled].
  intros Hin. apply Hdisabled in Hin as [Hne _].
  - by apply Hne.
  - simpl. apply NoDup_singleton.
Defined.

(** X19. [!autoinvite] followed by [!autoinvite disable] from a sender who
    was not enrolled brings the stored list back to what it was (the empty
    list, if nothing was stored), and changes nothing else in memory. *)
Theorem autoinvite_enable_disable (message : Message) (mem : Memory)
    (t : trace) :
  msg_sender message ∉ default [] (autoinvite_users mem) →
  ∃ t',
    (on_auto_invite message ;;; on_disable_auto_invite message) (mem, t)
    = (Ok tt,
       ({| seen_channels := seen_channels mem;
           autoinvite_users := Some (default [] (autoinvite_users mem));
           picard_options := picard_options mem |}, t')).
Proof.
  intros Hin.
  unfold on_auto_invite, on_disable_auto_invite, bind,
    memory_get_autoinvite_users, memory_put_autoinvite_users, bot_respond.
  simpl. rewrite bool_decide_eq_false_2 by done. simpl.
  rewrite bool_decide_eq_false_2.
  - simpl. rewrite list_remove_snoc by done. by eexists.
  - intros Hnot. apply Hnot. apply elem_of_app. right. by left.
Qed.

Lemma autoinvite_enable_disable_witness :
  ∃ t',
    (on_auto_invite msg_autoinvite ;;; on_disable_auto_invite msg_autoinvite)
      (mem_empty, [])
    = (Ok tt,
       ({| seen_channels := None;
           autoinvite_users := Some [];
           picard_options := ∅ |}, t')).
Proof.
  apply (autoinvite_enable_disable msg_autoinvite mem_empty []).
  simpl. apply not_elem_of_nil.
Defined.

(** ** The skip commands *)

(** X20. [room_skip_command] raises [KeyError] without configured admins
    and only answers a sender who is not one of them; in both cases memory is
    untouched.  From an admin it changes, in memory, only the options of the
    room the command was sent in, and there only [skip_room_<flag>], which
    afterwards reads back as the value given. *)
Theorem room_skip_command_effect (config : Config) (message : Message)
    (skip : bool) (mem : Memory) (t : trace) :
  let mem' := (room_skip_command config message skip (mem, t)).2.1 in
  (users_as_admin config = None →
   room_skip_command config message skip (mem, t)
   = (Raise (KeyError "users_as_admin"), (mem, t))) ∧
  (∀ admins, users_as_admin config = Some admins →
             msg_sender message ∉ admins →
   room_skip_command config message skip (mem, t)
   = (Ok tt, (mem, t ++ [Respond "You are not authorised to perform this action."
                                 None]))) ∧
  (∀ admins, users_as_admin config = Some admins →
             msg_sender message ∈ admins →
   seen_channels mem' = seen_channels mem ∧
   autoinvite_users mem' = autoinvite_users mem ∧
   (∀ room, room ≠ msg_target message →
            picard_options mem' !! room = picard_options mem !! room) ∧
   ∃ options,
     picard_options mem' !! msg_target message = Some options ∧
     options !! ("skip_room_" +:+ msg_flag message) = Some skip ∧
     ∀ k, k ≠ "skip_room_" +:+ msg_flag message →
          options !! k
          = default ∅ (picard_options mem !! msg_target message) !! k).
Proof.
  unfold room_skip_command, bind, when, raise, ret, memory_get_options,
    memory_put_options, bot_respond.
  split; [|split].
  - by intros ->.
  - intros admins -> Hsender. by rewrite bool_decide_eq_true_2.
  - intros admins -> Hsender.
    rewrite bool_decide_eq_false_2 by (by intros ?).
    case_bool_decide; simpl.
    all: repeat split; try done.
    all: try (intros room Hroom; by rewrite lookup_insert_ne).
    all: eexists; split; [apply lookup_insert_eq|];
      split; [apply lookup_insert_eq|];
      intros k Hk; by rewrite lookup_insert_ne.
Qed.

Lemma room_skip_command_effect_witness :
  ∃ options,
    picard_options
      (room_skip_command cfg_admin msg_skip_avatar_room true
         (mem_skip_name, [])).2.1
      !! "!room:example.org" = Some options ∧
    options !! "skip_room_avatar" = Some true ∧
    options !! "skip_room_name" = Some true.
Proof.
  destruct (room_skip_command_effect cfg_admin msg_skip_avatar_room true
              mem_skip_name []) as (_ & _ & Hadmin).
  destruct (Hadmin ["@admin:example.org"] eq_refl)
    as (_ & _ & _ & options & Hroom & Hflag & Hother).
  - simpl. by left.
  - exists options. split; [exact Hroom|]. split; [exact Hflag|].
    rewrite Hother by discriminate. reflexivity.
Defined.

(** X21. Of two skip commands for the same flag in the same room the last
    one wins: memory after both is memory after the second alone, so
    [!skip] twice stores what [!skip] once stores, and [!unskip] after
    [!skip] leaves the flag stored as false. *)
Theorem room_skip_command_last_wins (config : Config) (message : Message)
    (first second : bool) (mem : Memory) (t : trace) :
  ((room_skip_command config message first ;;;
    room_skip_command config message second) (mem, t)).2.1
  = (room_skip_command config message second (mem, t)).2.1.
Proof.
  unfold room_skip_command, bind, when, raise, ret, memory_get_options,
    memory_put_options, bot_respond.
  destruct (users_as_admin config) as [admins|]; [|done].
  case_bool_decide; simpl; [done|].
  case_bool_decide; simpl; rewrite lookup_insert_eq; simpl;
    by rewrite !insert_insert_eq.
Qed.

(** ** The connector *)

(** X22. [get_matrix_connector] returns the first connector named
    [ConnectorMatrix], and [None] exactly when no connector has that name. *)
Theorem get_matrix_connector_first (connectors : list Connector) :
  (∀ conn,
      get_matrix_connector connectors = Some conn ↔
      ∃ before after,
        connectors = before ++ conn :: after ∧
        connector_name conn = "ConnectorMatrix" ∧
        Forall (λ c, connector_name c ≠ "ConnectorMatrix") before) ∧
  (get_matrix_connector connectors = None ↔
   Forall (λ c, connector_name c ≠ "ConnectorMatrix") connectors).
Proof.
  induction connectors as [|c connectors [IHsome IHnone]]; simpl.
  - split; [|by split].
    intros conn. split; [done|].
    intros (before & after & Heq & _). by destruct before.
  - destruct (String.eqb_spec (connector_name c) "ConnectorMatrix")
      as [Hname|Hname].
    + split.
      * intros conn. split.
        -- intros [= <-]. exists [], connectors. by repeat split.
        -- intros ([|c' before] & after & Heq & Hconn & Hbefore).
           ++ by injection Heq as <- _.
           ++ injection Heq as <- _. by apply Forall_cons in Hbefore as [? _].
      * split; [done|]. intros Hall. by apply Forall_cons in Hall as [? _].
    + split.
      * intros conn. rewrite IHsome. split.
        -- intros (before & after & -> & Hconn & Hbefore).
           exists (c :: before), after. repeat split; [done|].
           apply Forall_cons. by split.
        -- intros ([|c' before] & after & Heq & Hconn & Hbefore).
           ++ injection Heq as <- _. done.
           ++ injection Heq as <- ->. apply Forall_cons in Hbefore as [_ ?].
              by exists before, after.
      * rewrite IHnone. split.
        -- intros Hall. apply Forall_cons. by split.
        -- intros Hall. by apply Forall_cons in Hall as [_ ?].
Qed.

Lemma get_matrix_connector_first_witness :
  get_matrix_connector
    [{| connector_name := "ConnectorSlack"; connector_key := 0 |};
     {| connector_name := "ConnectorMatrix"; connector_key := 1 |};
     {| connector_name := "ConnectorMatrix"; connector_key := 2 |}]
  = Some {| connector_name := "ConnectorMatrix"; connector_key := 1 |}.
Proof.
  destruct (get_matrix_connector_first
              [{| connector_name := "ConnectorSlack"; connector_key := 0 |};
               {| connector_name := "ConnectorMatrix"; connector_key := 1 |};
               {| connector_name := "ConnectorMatrix"; connector_key := 2 |}])
    as [Hsome _].
  apply Hsome.
  exists [{| connector_name := "ConnectorSlack"; connector_key := 0 |}],
         [{| connector_name := "ConnectorMatrix"; connector_key := 2 |}].
  split; [reflexivity|]. split; [reflexivity|].
  apply Forall_singleton. simpl. discriminate.
Defined.

(** ** A channel whose appservice invite is refused *)

Lemma issues_bind_post {A B} (m : Plat A) (k : A → Plat B)
    (Q : A → Prop) P :
  issues m P → (∀ t a t', m t = (Ok a, t') → Q a) →
  (∀ a, Q a → issues (k a) P) → issues (bind m k) P.
Proof.
  intros Hm HQ Hk t. unfold bind. destruct (Hm t) as (t2 & Ht2 & HP2).
  destruct (m t) as [[a|e] t1] eqn:Hrun; simpl in *; subst t1.
  - destruct (Hk a (HQ _ _ _ Hrun) (t ++ t2)) as (t3 & Ht3 & HP3).
    exists (t2 ++ t3). rewrite Ht3, app_assoc. split; [done|].
    by apply Forall_app.
  - by exists t2.
Qed.

Lemma intent_user_in_room_refused px user room t room_id t' :
  (∀ t0 r, ∃ code content,
      api_invite_user px t0 r user = Raise (MatrixRequestError code content) ∧
      str_contains "already in the room" content = false) →
  intent_user_in_room px user room t = (Ok room_id, t') → room_id = None.
Proof.
  intros Hrefused.
  unfold intent_user_in_room, bind, try_except, perform, ret.
  destruct (room_id_if_exists px room t) as [[[rid|]|e] t1]; try done.
  - destruct (Hrefused t1 rid) as (code & content & -> & ->). by intros [= <-].
  - by intros [= <-].
Qed.

(** X23. If the homeserver refuses every invite of the appservice user
    (with an error other than "already in the room"), the pipeline of a
    channel never gets past that invite: it neither reads nor writes power
    levels, touches no related groups, and never sends the [link] command to
    the bridge room. *)
Theorem mirror_channel_refused_never_links (px : Platform) `{PySet}
    (config : Config) (bot_id : string) (community : option string)
    (rooms : list string) (item : string * LedgerEntry) :
  (∀ t0 r, ∃ code content,
      api_invite_user px t0 r (as_userid config)
      = Raise (MatrixRequestError code content) ∧
      str_contains "already in the room" content = false) →
  issues (mirror_channel px config bot_id community rooms item)
    (λ c, (∀ text, c ≠ Respond text (Some "bridge")) ∧
          (∀ r, c ≠ GetPowerLevels r) ∧
          (∀ r d, c ≠ SetPowerLevels r d) ∧
          (∀ r, c ≠ GetRelatedGroups r) ∧
          (∀ r content, c ≠ SendStateEvent r "m.room.related_groups" content)).
Proof.
  intros Hrefused.
  destruct item as [channel_id [[channel_name room_alias] topic]].
  unfold mirror_channel.
  apply issues_bind.
  { unfold join_bot_to_channel, get_room_members. issues_walk; by repeat split. }
  intros _. apply issues_bind.
  { unfold intent_self_in_room, room_id_if_exists, join_room, coroutine_truth,
      when.
    simpl. issues_walk; by repeat split. }
  intros room_id. apply issues_bind.
  { unfold set_name_topic_avatar, set_room_avatar, upload_image_to_matrix,
      when.
    issues_walk; by repeat split. }
  intros _. apply issues_bind.
  { unfold make_room_public, when. issues_walk; by repeat split. }
  intros _.
  apply (issues_bind_post _ _ (λ room_id', room_id' = None)).
  - eapply issues_mono; [apply intent_user_in_room_issues|].
    intros c Hc. repeat split; intros; intros ->; no_write Hc.
  - intros t a t'. by apply intent_user_in_room_refused.
  - intros a ->. by apply issues_perform.
Qed.

Lemma mirror_channel_refused_never_links_witness :
  issues (mirror_channel (px_appservice_refused [ch_general]) cfg_example "U1"
            None []
            ("C1", ("general", "#br-general:example.org", "Company-wide")))
    (λ c, (∀ text, c ≠ Respond text (Some "bridge")) ∧
          (∀ r, c ≠ GetPowerLevels r) ∧
          (∀ r d, c ≠ SetPowerLevels r d) ∧
          (∀ r, c ≠ GetRelatedGroups r) ∧
          (∀ r content, c ≠ SendStateEvent r "m.room.related_groups" content)).
Proof.
  apply (mirror_channel_refused_never_links
           (px_appservice_refused [ch_general]) cfg_example "U1" None []
           ("C1", ("general", "#br-general:example.org", "Company-wide"))).
  intros t0 r. exists 403, "You don't have permission". split; reflexivity.
Defined.

(** * The sweep as a whole *)

(** ** C1: the Ledger after a sweep *)

(** Close [∀ c, (c = ... ∨ ∃ ..., c = ...) → f c = b] by cases on the call. *)
Ltac call_cases :=
  let c := fresh "c" in
  let Hc := fresh "Hc" in
  intros c Hc; cbv beta in Hc;
  repeat match type of Hc with
         | _ ∨ _ => destruct Hc as [Hc|Hc]
         | ∃ _, _ => destruct Hc as [? Hc]
         end;
  subst c; reflexivity.

(** Equal traces, up to the association of [++]. *)
Ltac trace_eq :=
  repeat (progress (rewrite <-?app_assoc; cbn [app])); reflexivity.

Ltac unfold_pipeline :=
  unfold join_bot_to_channel, get_room_members, intent_self_in_room,
    set_name_topic_avatar, set_room_avatar, upload_image_to_matrix,
    make_room_public, configure_room_power_levels, get_power_levels,
    set_power_levels, update_related_groups, get_related_groups,
    set_related_groups, add_room_to_community, user_in_state,
    room_id_if_exists, join_room, coroutine_truth, when.

Lemma mirror_channel_no_put px `{PySet} config bot_id community rooms item :
  issues (mirror_channel px config bot_id community rooms item)
    (λ c, is_memory_put c = false).
Proof.
  destruct item as [channel_id [[channel_name room_alias] topic]].
  unfold mirror_channel. unfold_pipeline. simpl.
  issues_walk.
  all: first [reflexivity | call_cases].
Qed.

Lemma admin_of_community_no_put px community :
  issues (admin_of_community px community) (λ c, is_memory_put c = false).
Proof.
  eapply issues_mono; [apply admin_of_community_issues|]. call_cases.
Qed.

(** The two ways a sweep runs.  Either it stops before the Ledger write:
    memory is as it was, and the sweep returns only if it discovered nothing.
    Or it discovered channels and the loop over them returned: then it
    writes, once, the Ledger updated with every discovered channel, and its
    result is the outcome of the notice that follows the write. *)
Lemma mirror_slack_channels_run px `{PySet} config mem t :
  (∃ r calls,
      mirror_slack_channels px config (mem, t) = (r, (mem, t ++ calls)) ∧
      Forall (λ c, is_memory_put c = false) calls ∧
      (is_ok r = true →
       get_new_channels (slack_channels px) config
         (default ∅ (seen_channels mem)) = Ok [])) ∨
  (∃ item items before,
      get_new_channels (slack_channels px) config
        (default ∅ (seen_channels mem)) = Ok (item :: items) ∧
      Forall (λ c, is_memory_put c = false) before ∧
      mirror_slack_channels px config (mem, t)
      = (chat_respond px (t ++ before ++ [MemoryPut "seen_channels"])
           "Finished adding all rooms." None,
         ({| seen_channels :=
               Some (ledger_update (default ∅ (seen_channels mem))
                       (item :: items));
             autoinvite_users := autoinvite_users mem;
             picard_options := picard_options mem |},
          t ++ before ++ [MemoryPut "seen_channels";
                          Respond "Finished adding all rooms." None]))).
Proof.
  unfold mirror_slack_channels, bind, lift_result, memory_get_seen_channels,
    lift_plat, when, ret, memory_put_seen_channels, respond, perform.
  destruct (slack_get_user_id px (bridge_bot_name config)) as [bot|e].
  2:{ left. exists (Raise e), []. by rewrite app_nil_r. }
  destruct (get_new_channels (slack_channels px) config _) as [new|e].
  2:{ left. exists (Raise e), [MemoryGet "seen_channels"].
      split; [done|]. split; [|done]. by apply Forall_singleton. }
  destruct (admin_of_community px (community_id config) _)
    as [[community|e] t1] eqn:H1;
    destruct (issues_run _ _ _ _ _ (admin_of_community_no_put px _) H1)
      as (e1 & -> & He1).
  2:{ left. exists (Raise e), (MemoryGet "seen_channels" :: e1).
      split; [by rewrite <-app_assoc|]. split; [|done].
      by apply Forall_cons. }
  assert (∀ rooms t0, ∃ r e2,
    for_each new (mirror_channel px config bot community rooms) t0
    = (r, t0 ++ e2) ∧ Forall (λ c, is_memory_put c = false) e2) as Hloop.
  { intros rooms t0.
    destruct (for_each new _ t0) as [r t2] eqn:H2.
    destruct (issues_run _ _ _ _ _
                (issues_for_each new _ _
                   (mirror_channel_no_put px config bot community rooms)) H2)
      as (e2 & -> & He2).
    by exists r, e2. }
  destruct (truthy_opt_str community).
  - destruct (api_get_rooms_in_group px _ _) as [rooms|e].
    2:{ left. exists (Raise e), (MemoryGet "seen_channels" :: e1 ++
                                 [GetRoomsInGroup (default "" community)]).
        split; [by rewrite <-!app_assoc|]. split; [|done].
        apply Forall_cons. split; [done|]. apply Forall_app. split; [done|].
        by apply Forall_singleton. }
    destruct (Hloop rooms
                (((t ++ [MemoryGet "seen_channels"]) ++ e1)
                   ++ [GetRoomsInGroup (default "" community)]))
      as (r & e2 & -> & He2).
    assert (Forall (λ c, is_memory_put c = false)
              (MemoryGet "seen_channels" :: e1 ++
               GetRoomsInGroup (default "" community) :: e2)) as Hbefore.
    { apply Forall_cons. split; [done|]. apply Forall_app. split; [done|].
      by apply Forall_cons. }
    destruct r as [[]|e]; [destruct new as [|item items]|]; simpl.
    + left. eexists (Ok tt), _. split; [|by split].
      trace_eq.
    + right. eexists item, items, _. split; [done|]. split; [exact Hbefore|].
      trace_eq.
    + left. eexists (Raise e), _. split; [|by split].
      trace_eq.
  - destruct (Hloop [] ((t ++ [MemoryGet "seen_channels"]) ++ e1))
      as (r & e2 & -> & He2).
    assert (Forall (λ c, is_memory_put c = false)
              (MemoryGet "seen_channels" :: e1 ++ e2)) as Hbefore.
    { apply Forall_cons. split; [done|]. by apply Forall_app. }
    destruct r as [[]|e]; [destruct new as [|item items]|]; simpl.
    + left. eexists (Ok tt), _. split; [|by split].
      trace_eq.
    + right. eexists item, items, _. split; [done|]. split; [exact Hbefore|].
      trace_eq.
    + left. eexists (Raise e), _. split; [|by split].
      trace_eq.
Qed.


(** The notice that follows the Ledger write is not under a [try]: when it
    cannot be delivered the sweep raises, with the Ledger written. *)
Example ledger_written_before_notice :
  mirror_slack_channels (px_notice_fails [ch_general]) cfg_example
    (mem_empty, [])
  = (Raise (OtherException "Connection lost"),
     ({| seen_channels :=
           Some {[ "C1" := ("general", "#br-general:example.org",
                            "Company-wide") ]};
         autoinvite_users := None;
         picard_options := ∅ |},
      [MemoryGet "seen_channels";
       SlackConversationsMembers "C1";
       GetRoomId "#br-general:example.org";
       SetRoomName "!#br-general:example.org" "br-general";
       SetRoomTopic "!#br-general:example.org" "Company-wide";
       SendStateEvent "!#br-general:example.org" "m.room.join_rules"
         (JoinRule "public");
       SendStateEvent "!#br-general:example.org" "m.room.history_visibility"
         (HistoryVisibility "world_readable");
       InviteUser "!#br-general:example.org" "@slackbot:example.org";
       GetPowerLevels (Some "!#br-general:example.org");
       Respond ("link --channel_id C1 --room !#br-general:example.org"
                +:+ " --slack_bot_token xoxb-1 --slack_user_token xoxp-1")
               (Some "bridge");
       Respond "Finished Adding room #br-general:example.org" None;
       MemoryPut "seen_channels";
       Respond "Finished adding all rooms." None])).
Proof. vm_compute. reflexivity. Qed.



(** ** C4: what a failure does to the sweep *)

(** *** A failure that no handler catches *)

Lemma split_app {A} (c1 c2 before after : list A) (c : A) :
  c1 ++ c2 = before ++ c :: after →
  (∃ mid, c1 = before ++ c :: mid ∧ after = mid ++ c2) ∨
  (∃ pre, before = c1 ++ pre ∧ c2 = pre ++ c :: after).
Proof.
  revert before. induction c1 as [|x c1 IH]; intros before Heq; simpl in *.
  - right. by exists before.
  - destruct before as [|y before]; simpl in *.
    + injection Heq as -> <-. left. by exists c1.
    + injection Heq as -> Heq.
      destruct (IH _ Heq) as [(mid & -> & ->)|(pre & -> & ->)].
      * left. by exists mid.
      * right. by exists pre.
Qed.

Lemma split_singleton {A} (x c : A) (before after : list A) :
  [x] = before ++ c :: after → before = [] ∧ c = x ∧ after = [].
Proof.
  destruct before as [|y before]; simpl.
  - by intros [= -> <-].
  - intros [= _ Heq]. by destruct before.
Qed.

Section FatalEnds.
Context {S : Type} (px : Platform) (tr : S → trace).

Lemma fatal_ends_silent {A} (m : St S A) :
  (∀ s, (m s).2 = s) → fatal_ends px tr m.
Proof.
  intros Hm s. exists []. rewrite Hm, app_nil_r. split; [done|].
  intros before c after e Heq. by destruct before.
Qed.

Lemma fatal_ends_ret {A} (a : A) : fatal_ends px tr (ret a).
Proof. by apply fatal_ends_silent. Qed.

Lemma fatal_ends_raise {A} (e : exn) : fatal_ends px tr (raise (A := A) e).
Proof. by apply fatal_ends_silent. Qed.

Lemma fatal_ends_lift_result {A} (r : result A) :
  fatal_ends px tr (lift_result r).
Proof. by apply fatal_ends_silent. Qed.

Lemma fatal_ends_bind {A B} (m : St S A) (k : A → St S B) :
  fatal_ends px tr m → (∀ a, fatal_ends px tr (k a)) →
  fatal_ends px tr (bind m k).
Proof.
  intros Hm Hk s. destruct (Hm s) as (c1 & Htr1 & H1). unfold bind.
  destruct (m s) as [[a|e1] s1]; simpl in *.
  - destruct (Hk a s1) as (c2 & Htr2 & H2). exists (c1 ++ c2).
    split; [by rewrite Htr2, Htr1, app_assoc|].
    intros before c after e Heq Hout Hfatal.
    apply split_app in Heq as [(mid & -> & ->)|(pre & -> & ->)].
    + by destruct (H1 _ _ _ _ eq_refl Hout Hfatal).
    + apply (H2 pre c after e); [done| |done].
      by rewrite Htr1, <-app_assoc.
  - exists c1. split; [done|].
    intros before c after e Heq Hout Hfatal.
    by destruct (H1 _ _ _ _ Heq Hout Hfatal) as [-> [= ->]].
Qed.

Lemma fatal_ends_when (c : bool) (m : St S unit) :
  fatal_ends px tr m → fatal_ends px tr (when c m).
Proof. intros Hm. destruct c; [done|apply fatal_ends_ret]. Qed.

Lemma fatal_ends_for_each {A} (xs : list A) (body : A → St S unit) :
  (∀ x, fatal_ends px tr (body x)) → fatal_ends px tr (for_each xs body).
Proof.
  intros Hbody. induction xs as [|x xs IH]; simpl.
  - apply fatal_ends_ret.
  - apply fatal_ends_bind; [apply Hbody|done].
Qed.

End FatalEnds.

Lemma fatal_ends_perform {A} px (c : call) (answer : trace → result A) :
  (∀ t, outcome px t c = failure (answer t)) →
  fatal_ends px plat_trace (perform c answer).
Proof.
  intros Hanswer t. exists [c]. split; [done|].
  intros before c' after e Heq Hout Hfatal.
  apply split_singleton in Heq as (-> & -> & ->). split; [done|].
  unfold plat_trace in Hout. rewrite app_nil_r, Hanswer in Hout.
  unfold perform. simpl. destruct (answer t) as [a|e']; [done|].
  by injection Hout as ->.
Qed.

(** A handler either re-raises an exception or catches it; in the second
    case the exception is not [fatal] for the calls under the [try]. *)
Lemma fatal_ends_try {A} px (m : Plat A) (h : exn → Plat A) :
  fatal_ends px plat_trace m → (∀ e, fatal_ends px plat_trace (h e)) →
  (∀ e, h e = raise e ∨ issues m (λ c, fatal c e = false)) →
  fatal_ends px plat_trace (try_except m h).
Proof.
  intros Hm Hh Hcatch t. destruct (Hm t) as (c1 & Htr1 & H1).
  unfold try_except, plat_trace in *.
  destruct (m t) as [[a|e1] t1] eqn:Hrun; simpl in *.
  - exists c1. split; [done|exact H1].
  - destruct (Hh e1 t1) as (c2 & Htr2 & H2). exists (c1 ++ c2).
    split; [by rewrite Htr2, Htr1, app_assoc|].
    intros before c after e Heq Hout Hfatal.
    apply split_app in Heq as [(mid & -> & ->)|(pre & -> & ->)].
    + destruct (H1 _ _ _ _ eq_refl Hout Hfatal) as [-> [= ->]].
      destruct (Hcatch e) as [Hraise|Hissues].
      * rewrite Hraise in Htr2 |- *. unfold raise in *. simpl in *.
        rewrite <-(app_nil_r t1) in Htr2 at 1.
        apply app_inv_head in Htr2 as <-. done.
      * destruct (Hissues t) as (t2 & Ht2 & Hcalls).
        rewrite Hrun in Ht2. simpl in Ht2. rewrite Htr1 in Ht2.
        apply app_inv_head in Ht2 as <-.
        apply Forall_app in Hcalls as [_ Hcalls].
        apply Forall_cons in Hcalls as [Hc _]. congruence.
    + apply (H2 pre c after e); [done| |done].
      by rewrite Htr1, <-app_assoc.
Qed.

Lemma fatal_ends_lift_plat {A} px (m : Plat A) :
  fatal_ends px plat_trace m → fatal_ends px bot_trace (lift_plat m).
Proof.
  intros Hm [mem t]. destruct (Hm t) as (calls & Htr & Hcalls).
  exists calls. unfold lift_plat, bot_trace, plat_trace in *.
  by destruct (m t) as [r t1].
Qed.

Lemma fatal_ends_memory_get px :
  fatal_ends px bot_trace memory_get_seen_channels.
Proof.
  intros [mem t]. exists [MemoryGet "seen_channels"]. split; [done|].
  intros before c after e Heq Hout.
  by apply split_singleton in Heq as (-> & -> & ->).
Qed.

Lemma fatal_ends_memory_put px seen :
  fatal_ends px bot_trace (memory_put_seen_channels seen).
Proof.
  intros [mem t]. exists [MemoryPut "seen_channels"]. split; [done|].
  intros before c after e Heq Hout.
  by apply split_singleton in Heq as (-> & -> & ->).
Qed.

(** The third premise of [fatal_ends_try], by cases on the exception. *)
Ltac fatal_handler :=
  let e := fresh "e" in
  intros e; destruct e;
  first
    [ by left
    | right; repeat issues_step; reflexivity
    | lazymatch goal with
      | |- context [bool_decide (?code ≠ 404)] =>
          destruct (decide (code = 404)) as [->|?];
          [ right; repeat issues_step; reflexivity
          | left; by rewrite bool_decide_eq_true_2 ]
      end ].

Ltac fatal_step :=
  lazymatch goal with
  | |- fatal_ends _ _ (bind _ _) => apply fatal_ends_bind; [|intros ?]
  | |- fatal_ends _ _ (ret _) => apply fatal_ends_ret
  | |- fatal_ends _ _ (raise _) => apply fatal_ends_raise
  | |- fatal_ends _ _ (lift_result _) => apply fatal_ends_lift_result
  | |- fatal_ends _ _ (perform _ _) =>
      apply fatal_ends_perform; intros ?; reflexivity
  | |- fatal_ends _ _ (respond _ _ _) =>
      apply fatal_ends_perform; intros ?; reflexivity
  | |- fatal_ends _ _ (try_except _ _) =>
      apply fatal_ends_try; [|intros ?|fatal_handler]
  | |- fatal_ends _ _ (when _ _) => apply fatal_ends_when
  | |- fatal_ends _ _ (for_each _ _) => apply fatal_ends_for_each; intros ?
  | |- fatal_ends _ _ (lift_plat _) => apply fatal_ends_lift_plat
  | |- fatal_ends _ _ memory_get_seen_channels => apply fatal_ends_memory_get
  | |- fatal_ends _ _ (memory_put_seen_channels _) =>
      apply fatal_ends_memory_put
  | |- fatal_ends _ _ (if ?b then _ else _) => destruct b
  | |- fatal_ends _ _ (match ?x with _ => _ end) => destruct x
  end.

Lemma room_id_if_exists_fatal px room_alias :
  fatal_ends px plat_trace (room_id_if_exists px room_alias).
Proof. unfold room_id_if_exists. repeat fatal_step. Qed.

Lemma intent_user_in_room_fatal px user room :
  fatal_ends px plat_trace (intent_user_in_room px user room).
Proof.
  unfold intent_user_in_room.
  apply fatal_ends_bind; [apply room_id_if_exists_fatal|]. intros room_id.
  repeat fatal_step.
Qed.

Lemma add_admin_users_fatal px room_id users pl :
  fatal_ends px plat_trace (add_admin_users px room_id users pl).
Proof.
  revert pl. induction users as [|user users IH]; intros pl; simpl.
  - apply fatal_ends_ret.
  - apply fatal_ends_bind; [apply intent_user_in_room_fatal|]. intros _.
    apply fatal_ends_bind; [apply fatal_ends_lift_result|]. intros pl1.
    apply IH.
Qed.

Ltac fatal_walk :=
  repeat first
    [ lazymatch goal with
      | |- fatal_ends _ _ (add_admin_users _ _ _ _) =>
          apply add_admin_users_fatal
      | |- fatal_ends _ _ (intent_user_in_room _ _ _) =>
          apply intent_user_in_room_fatal
      | |- fatal_ends _ _ (room_id_if_exists _ _) =>
          apply room_id_if_exists_fatal
      end
    | fatal_step ].

Lemma mirror_channel_fatal px `{PySet} config bot_id community rooms item :
  fatal_ends px plat_trace
    (mirror_channel px config bot_id community rooms item).
Proof.
  destruct item as [channel_id [[channel_name room_alias] topic]].
  unfold mirror_channel, join_bot_to_channel, get_room_members,
    intent_self_in_room, set_name_topic_avatar, set_room_avatar,
    upload_image_to_matrix, make_room_public, configure_room_power_levels,
    get_power_levels, set_power_levels, update_related_groups,
    get_related_groups, set_related_groups, add_room_to_community,
    user_in_state, join_room, coroutine_truth.
  fatal_walk.
Qed.

Lemma admin_of_community_fatal px community :
  fatal_ends px plat_trace (admin_of_community px community).
Proof. unfold admin_of_community. fatal_walk. Qed.

Lemma mirror_slack_channels_fatal px `{PySet} config :
  fatal_ends px bot_trace (mirror_slack_channels px config).
Proof.
  unfold mirror_slack_channels.
  repeat first
    [ lazymatch goal with
      | |- fatal_ends _ _ (lift_plat (admin_of_community _ _)) =>
          apply fatal_ends_lift_plat, admin_of_community_fatal
      | |- fatal_ends _ _ (mirror_channel _ _ _ _ _ _) =>
          apply mirror_channel_fatal
      end
    | fatal_step ].
Qed.

(** *** Coroutines that return *)

Section Succeeds.
Context {A B : Type}.
Implicit Types (m : Plat A) (k : A → Plat B).

Lemma succeeds_with_ret (a : A) (Q : A → trace → Prop) :
  Q a [] → succeeds_with (ret a) Q.
Proof. intros HQ t. exists a, []. by rewrite app_nil_r. Qed.

Lemma succeeds_with_mono m (Q Q' : A → trace → Prop) :
  succeeds_with m Q → (∀ a t2, Q a t2 → Q' a t2) → succeeds_with m Q'.
Proof.
  intros Hm HQ t. destruct (Hm t) as (a & t2 & Hrun & Ha). eauto.
Qed.

Lemma succeeds_with_bind m k (Q : A → trace → Prop) (R : B → trace → Prop) :
  succeeds_with m Q →
  (∀ a t2, Q a t2 → succeeds_with (k a) (λ b t3, R b (t2 ++ t3))) →
  succeeds_with (bind m k) R.
Proof.
  intros Hm Hk t. destruct (Hm t) as (a & t2 & Hrun & Ha).
  destruct (Hk a t2 Ha (t ++ t2)) as (b & t3 & Hrun' & Hb).
  exists b, (t2 ++ t3). unfold bind. rewrite Hrun, Hrun'.
  by rewrite app_assoc.
Qed.

Lemma succeeds_with_bind_ret (a : A) k (R : B → trace → Prop) :
  succeeds_with (k a) R → succeeds_with (bind (ret a) k) R.
Proof. intros Hk t. apply Hk. Qed.

Lemma succeeds_with_perform (c : call) (answer : trace → result A)
    (Q : A → trace → Prop) :
  (∀ t, ∃ a, answer t = Ok a ∧ Q a [c]) →
  succeeds_with (perform c answer) Q.
Proof.
  intros Hans t. destruct (Hans t) as (a & Ha & HQ).
  exists a, [c]. unfold perform. by rewrite Ha.
Qed.

Lemma succeeds_with_lift_result (r : result A) (a : A)
    (Q : A → trace → Prop) :
  r = Ok a → Q a [] → succeeds_with (lift_result r) Q.
Proof.
  intros -> HQ t. exists a, []. unfold lift_result. by rewrite app_nil_r.
Qed.

(** What is known of every call of [m] is known of the calls of a run that
    returns. *)
Lemma succeeds_with_issues m (Q : A → trace → Prop) (P : call → Prop) :
  succeeds_with m Q → issues m P →
  succeeds_with m (λ a t2, Q a t2 ∧ Forall P t2).
Proof.
  intros Hm HP t. destruct (Hm t) as (a & t2 & Hrun & Ha).
  destruct (HP t) as (t2' & Ht2 & Hcalls). rewrite Hrun in Ht2.
  apply app_inv_head in Ht2 as <-. by exists a, t2.
Qed.

End Succeeds.

Lemma succeeds_bind {A B} (m : Plat A) (k : A → Plat B) :
  succeeds m → (∀ a, succeeds (k a)) → succeeds (bind m k).
Proof.
  intros Hm Hk. apply (succeeds_with_bind _ _ (λ _ _, True)); [done|].
  intros a t2 _. apply Hk.
Qed.

Lemma succeeds_bind_with {A B} (m : Plat A) (k : A → Plat B)
    (Q : A → trace → Prop) :
  succeeds_with m Q → (∀ a t2, Q a t2 → succeeds (k a)) → succeeds (bind m k).
Proof.
  intros Hm Hk. apply (succeeds_with_bind _ _ Q); [done|].
  intros a t2 Ha. by apply (Hk a t2).
Qed.

(** A postcondition that survives earlier calls passes over a coroutine that
    returns. *)
Lemma succeeds_with_bind_r {A B} (m : Plat A) (k : A → Plat B)
    (R : B → trace → Prop) :
  (∀ b t2 t3, R b t3 → R b (t2 ++ t3)) →
  succeeds m → (∀ a, succeeds_with (k a) R) → succeeds_with (bind m k) R.
Proof.
  intros HR Hm Hk. apply (succeeds_with_bind _ _ (λ _ _, True)); [done|].
  intros a t2 _. eapply succeeds_with_mono; [apply Hk|].
  intros b t3. apply HR.
Qed.

Lemma succeeds_forget {A} (m : Plat A) (Q : A → trace → Prop) :
  succeeds_with m Q → succeeds m.
Proof. intros Hm. by eapply succeeds_with_mono. Qed.

Lemma succeeds_ret {A} (a : A) : succeeds (ret a).
Proof. by apply succeeds_with_ret. Qed.

Lemma succeeds_when (c : bool) (m : Plat unit) :
  succeeds m → succeeds (when c m).
Proof. intros Hm. destruct c; [done|apply succeeds_ret]. Qed.

Lemma succeeds_for_each {A} (xs : list A) (body : A → Plat unit) :
  (∀ x, succeeds (body x)) → succeeds (for_each xs body).
Proof.
  intros Hbody. induction xs as [|x xs IH]; simpl.
  - apply succeeds_ret.
  - apply succeeds_bind; [apply Hbody|done].
Qed.

(** A single call under a handler that returns on the exceptions the call
    can raise. *)
Lemma succeeds_try_perform {A} (c : call) (answer : trace → result A)
    (h : exn → Plat A) :
  (∀ t e, answer t = Raise e → succeeds (h e)) →
  succeeds (try_except (perform c answer) h).
Proof.
  intros Hh t. unfold try_except, perform.
  destruct (answer t) as [a|e] eqn:Hans.
  - by exists a, [c].
  - destruct (Hh t e Hans (t ++ [c])) as (a & t2 & Hrun & _).
    exists a, ([c] ++ t2). rewrite Hrun. by rewrite app_assoc.
Qed.

(** A [try] whose handler returns on every exception. *)
Lemma succeeds_try_catch_all {A} (m : Plat A) (h : exn → Plat A) :
  issues m (λ _, True) → (∀ e, succeeds (h e)) → succeeds (try_except m h).
Proof.
  intros Hm Hh t. unfold try_except. destruct (Hm t) as (t2 & Ht2 & _).
  destruct (m t) as [[a|e] t1]; simpl in Ht2; subst t1.
  - by exists a, t2.
  - destruct (Hh e (t ++ t2)) as (a & t3 & Hrun & _).
    exists a, (t2 ++ t3). rewrite Hrun. by rewrite app_assoc.
Qed.

(** Close a goal [∃ a t2, (Ok a', t ++ ...) = (Ok a, t ++ t2) ∧ Q a t2]. *)
Ltac trace_done :=
  unfold perform, ret; cbv beta; repeat rewrite <-app_assoc;
  eexists _, _; split; [reflexivity | try done].

Lemma user_is_room_admin_wf pl mxid :
  pl_wf pl → ∃ pl', user_is_room_admin pl mxid = Ok pl' ∧ pl_wf pl'.
Proof.
  intros [[users Hu] Hn]. unfold user_is_room_admin. rewrite Hu.
  case_decide.
  - eexists. split; [done|]. split.
    + eexists. by rewrite lookup_insert_eq.
    + intros n. by rewrite lookup_insert_ne.
  - exists pl. split; [done|]. split; [by exists users|done].
Qed.

Lemma room_notifications_pl0_wf pl :
  pl_wf pl → is_ok (room_notifications_pl0 pl) = true.
Proof.
  intros [_ Hn]. unfold room_notifications_pl0.
  destruct (pl !! "notifications") as [[n|m]|] eqn:Hl; simpl; try done.
  by destruct (Hn n).
Qed.

(** *** The calls that set name, topic and avatar *)

Lemma filter_metadata_none (calls : list call) :
  Forall (λ c, is_metadata_call c = false) calls →
  filter is_metadata_call calls = [].
Proof.
  induction 1 as [|c calls Hc _ IH]; [done|].
  rewrite filter_cons_False; [done|].
  intros Hm. cbv beta in Hm. by rewrite Hc in Hm.
Qed.

Lemma filter_metadata_calls config room_id item :
  filter is_metadata_call (metadata_calls config room_id item)
  = metadata_calls config room_id item.
Proof.
  destruct item as [channel_id [[channel_name room_alias] topic]].
  unfold metadata_calls.
  by destruct (truthy_str topic), (truthy_opt_str (room_avatar_url config)).
Qed.

Lemma channel_done_app_l item calls more :
  channel_done item calls → channel_done item (calls ++ more).
Proof.
  destruct item as [channel_id [[channel_name room_alias] topic]].
  intros [Hstart [Hend|Hend]]; (split; [apply elem_of_app; by left|]);
    [left|right]; apply elem_of_app; by left.
Qed.

Lemma channel_done_app_r item calls more :
  channel_done item calls → channel_done item (more ++ calls).
Proof.
  destruct item as [channel_id [[channel_name room_alias] topic]].
  intros [Hstart [Hend|Hend]]; (split; [apply elem_of_app; by right|]);
    [left|right]; apply elem_of_app; by right.
Qed.

(** *** The sweep when no call fails fatally *)

Section Isolation.
Context (px : Platform) `{PySet} (config : Config).
Hypothesis Hok : unguarded_calls_succeed px config.

(** A call no handler guards succeeds. *)
Lemma perform_succeeds {A} (c : call) (answer : trace → result A) :
  (∀ t, outcome px t c = failure (answer t)) → (∀ e, fatal c e = true) →
  succeeds_with (perform c answer) (λ _ t2, t2 = [c]).
Proof.
  intros Hanswer Hfatal. apply succeeds_with_perform. intros t.
  destruct (answer t) as [a|e] eqn:Ha; [by exists a|].
  pose proof (ok_calls _ _ Hok t c e) as Hc. rewrite Hanswer, Ha in Hc.
  specialize (Hc eq_refl). by rewrite Hfatal in Hc.
Qed.

Lemma respond_succeeds_with text room :
  succeeds_with (respond px text room) (λ _ t2, t2 = [Respond text room]).
Proof. by apply perform_succeeds. Qed.

Lemma respond_succeeds text room : succeeds (respond px text room).
Proof. eapply succeeds_forget. apply respond_succeeds_with. Qed.

Lemma join_bot_to_channel_succeeds bot_id channel_id :
  succeeds_with (join_bot_to_channel px bot_id channel_id)
    (λ _ t2, SlackConversationsMembers channel_id ∈ t2).
Proof.
  unfold join_bot_to_channel, get_room_members.
  apply (succeeds_with_bind _ _
           (λ _ t2, t2 = [SlackConversationsMembers channel_id])).
  - by apply perform_succeeds.
  - intros members t2 ->.
    apply (succeeds_with_mono _ (λ _ _, True)); [|intros; by left].
    case_bool_decide; [|apply succeeds_ret].
    apply succeeds_try_perform. intros t e He.
    pose proof (ok_calls _ _ Hok t (SlackChannelsInvite channel_id bot_id) e)
      as Hc.
    simpl in Hc. rewrite He in Hc. specialize (Hc eq_refl).
    destruct e; try done. apply succeeds_ret.
Qed.

Lemma room_id_if_exists_succeeds room_alias :
  succeeds_with (room_id_if_exists px (Some room_alias))
    (λ room_id _, ∀ r, room_id = Some r → startswith "!" r = true).
Proof.
  unfold room_id_if_exists. destruct (startswith "!" room_alias) eqn:Hbang.
  - apply succeeds_with_ret. by intros r [= <-].
  - intros t. unfold try_except, bind, perform, ret.
    destruct (api_get_room_id px t room_alias) as [rid|e] eqn:Hget.
    + trace_done. intros r [= <-]. by eapply ok_room_id.
    + pose proof (ok_calls _ _ Hok t (GetRoomId room_alias) e) as Hc.
      simpl in Hc. rewrite Hget in Hc. specialize (Hc eq_refl).
      destruct e as [code content| | | | | |]; try done. simpl in Hc.
      rewrite bool_decide_eq_false_2; [trace_done|].
      intros Hne. apply Hne. apply Z.eqb_eq. by destruct (code =? 404).
Qed.

(** [room_id_if_exists] returns a room id as it is. *)
Lemma room_id_if_exists_room room :
  startswith "!" room = true →
  room_id_if_exists px (Some room) = ret (Some room).
Proof. intros Hbang. unfold room_id_if_exists. by rewrite Hbang. Qed.

Lemma intent_self_in_room_succeeds room :
  succeeds_with (intent_self_in_room px room)
    (λ room_id _, startswith "!" room_id = true).
Proof.
  unfold intent_self_in_room.
  eapply succeeds_with_bind; [apply room_id_if_exists_succeeds|].
  intros [rid|] t2 Hrid.
  - intros t. unfold coroutine_truth, when, bind, ret. simpl.
    exists rid, []. rewrite app_nil_r. split; [done|]. by apply Hrid.
  - apply (succeeds_with_bind _ _ (λ rid _, startswith "!" rid = true)).
    + intros t. unfold try_except, perform.
      destruct (api_create_room px t (alias_localpart room)) as [rid|e]
        eqn:Hcreate.
      * exists rid, [CreateRoom (alias_localpart room)]. split; [done|].
        by eapply ok_created_room_id.
      * pose proof (ok_calls _ _ Hok t (CreateRoom (alias_localpart room)) e)
          as Hc.
        simpl in Hc. rewrite Hcreate in Hc. specialize (Hc eq_refl).
        destruct e as [code content| | | | | |]; try done.
        pose proof (ok_lookup_after_create _ _ Hok t room) as Hlookup.
        rewrite Hcreate in Hlookup. specialize (Hlookup eq_refl).
        destruct (api_get_room_id px (t ++ [CreateRoom (alias_localpart room)])
                    room) as [rid|e] eqn:Hget; [|done].
        exists rid, [CreateRoom (alias_localpart room); GetRoomId room].
        split; [by rewrite <-app_assoc|]. by eapply ok_room_id.
    + intros rid t3 Hbang. unfold join_room.
      apply (succeeds_with_bind _ _ (λ _ _, True)).
      * eapply succeeds_forget. by apply perform_succeeds.
      * intros _ t4 _. by apply succeeds_with_ret.
Qed.

Lemma intent_user_in_room_succeeds user room :
  startswith "!" room = true →
  succeeds_with (intent_user_in_room px user (Some room))
    (λ room_id _, room_id = None ∨ room_id = Some room).
Proof.
  intros Hbang. unfold intent_user_in_room.
  rewrite room_id_if_exists_room by done. apply succeeds_with_bind_ret.
  intros t. unfold try_except, bind, perform, ret.
  destruct (api_invite_user px t room user) as [[]|e] eqn:Hinvite.
  - trace_done. by right.
  - pose proof (ok_calls _ _ Hok t (InviteUser room user) e) as Hc.
    simpl in Hc. rewrite Hinvite in Hc. specialize (Hc eq_refl).
    destruct e as [code content| | | | | |]; try done.
    destruct (str_contains _ _); trace_done; auto.
Qed.

Lemma set_name_topic_avatar_succeeds room_id channel_id channel_name
    room_alias topic :
  succeeds_with
    (set_name_topic_avatar px config
       (default (room_alias_prefix config) (room_name_prefix config))
       room_id channel_name topic)
    (λ _ t2, t2 = metadata_calls config room_id
                    (channel_id, (channel_name, room_alias, topic))).
Proof.
  unfold set_name_topic_avatar, metadata_calls.
  eapply succeeds_with_bind; [by apply perform_succeeds|].
  intros _ ? ->.
  apply (succeeds_with_bind _ _
           (λ _ t2, t2 = if truthy_str topic
                         then [SetRoomTopic room_id topic] else [])).
  { destruct (truthy_str topic); simpl;
      [by apply perform_succeeds|by apply succeeds_with_ret]. }
  intros _ ? ->.
  destruct (room_avatar_url config) as [url|] eqn:Hurl; simpl.
  - destruct (truthy_str url) eqn:Htruthy; simpl.
    + unfold set_room_avatar.
      rewrite (ok_avatar_url _ _ Hok url Hurl Htruthy). simpl.
      apply succeeds_with_bind_ret.
      eapply succeeds_with_mono; [by apply perform_succeeds|].
      by intros _ ? ->.
    + by apply succeeds_with_ret.
  - by apply succeeds_with_ret.
Qed.

Lemma make_room_public_succeeds room_id room_alias :
  succeeds (make_room_public px room_id room_alias).
Proof.
  unfold make_room_public. apply succeeds_try_catch_all.
  - by repeat issues_step.
  - intros e. apply respond_succeeds.
Qed.

Lemma add_admin_users_succeeds room_id users pl :
  startswith "!" room_id = true → pl_wf pl →
  succeeds_with (add_admin_users px (Some room_id) users pl)
    (λ pl' _, pl_wf pl').
Proof.
  intros Hbang. revert pl.
  induction users as [|user users IH]; intros pl Hwf; simpl.
  - by apply succeeds_with_ret.
  - eapply succeeds_with_bind; [by apply intent_user_in_room_succeeds|].
    intros _ t2 _.
    destruct (user_is_room_admin_wf pl user Hwf) as (pl' & Hrun & Hwf').
    apply (succeeds_with_bind _ _ (λ pl1 _, pl1 = pl')).
    + by apply (succeeds_with_lift_result _ pl').
    + intros pl1 t3 ->.
      eapply succeeds_with_mono; [by apply IH|done].
Qed.

Lemma get_power_levels_succeeds room_id :
  startswith "!" room_id = true →
  succeeds_with (get_power_levels px (Some room_id)) (λ pl _, pl_wf pl).
Proof.
  intros Hbang. unfold get_power_levels.
  rewrite room_id_if_exists_room by done. apply succeeds_with_bind_ret.
  intros t. unfold perform.
  destruct (api_get_power_levels px t (Some room_id)) as [pl|e] eqn:Hget.
  - exists pl, [GetPowerLevels (Some room_id)]. split; [done|].
    by eapply ok_power_levels.
  - pose proof (ok_calls _ _ Hok t (GetPowerLevels (Some room_id)) e) as Hc.
    simpl in Hc. rewrite Hget in Hc. by specialize (Hc eq_refl).
Qed.

Lemma set_power_levels_succeeds room_id pl :
  startswith "!" room_id = true →
  succeeds (set_power_levels px (Some room_id) pl).
Proof.
  intros Hbang. unfold set_power_levels.
  rewrite room_id_if_exists_room by done. apply succeeds_with_bind_ret.
  eapply succeeds_forget. by apply perform_succeeds.
Qed.

Lemma configure_room_power_levels_succeeds room_id :
  startswith "!" room_id = true →
  succeeds (configure_room_power_levels px config room_id).
Proof.
  intros Hbang. unfold configure_room_power_levels.
  rewrite room_id_if_exists_room by done. apply succeeds_with_bind_ret.
  eapply succeeds_bind_with; [by apply get_power_levels_succeeds|].
  intros pl t3 Hwf.
  eapply succeeds_bind_with; [by apply add_admin_users_succeeds|].
  intros pl1 t4 Hwf1. simpl in Hwf1.
  apply succeeds_bind.
  - destruct (default false (room_pl_0 config)); [|apply succeeds_ret].
    pose proof (room_notifications_pl0_wf pl1 Hwf1) as Hfloor.
    destruct (room_notifications_pl0 pl1) as [pl2|e] eqn:Hrun; [|done].
    by apply (succeeds_with_lift_result _ pl2).
  - intros pl2. by apply succeeds_when, set_power_levels_succeeds.
Qed.

Lemma update_related_groups_succeeds roomid communities :
  succeeds (update_related_groups px roomid communities).
Proof.
  unfold update_related_groups, get_related_groups, set_related_groups.
  apply succeeds_bind.
  - apply succeeds_try_perform. intros t e He.
    pose proof (ok_calls _ _ Hok t (GetRelatedGroups roomid) e) as Hc.
    simpl in Hc. rewrite He in Hc. specialize (Hc eq_refl).
    destruct e as [code content| | | | | |]; try done. simpl in Hc.
    rewrite bool_decide_eq_false_2; [apply succeeds_ret|].
    intros Hne. apply Hne. apply Z.eqb_eq. by destruct (code =? 404).
  - intros existing. eapply succeeds_forget. by apply perform_succeeds.
Qed.

Lemma add_room_to_community_succeeds community rooms room_id room_alias :
  startswith "!" room_id = true →
  succeeds (add_room_to_community px config community rooms room_id
              room_alias).
Proof.
  intros Hbang. unfold add_room_to_community, user_in_state.
  destruct community as [c|]; [|apply succeeds_ret].
  destruct (truthy_str c); [|apply succeeds_ret].
  apply succeeds_bind.
  { apply succeeds_when, succeeds_try_catch_all.
    - by repeat issues_step.
    - intros e. apply succeeds_ret. }
  intros _.
  apply succeeds_bind;
    [eapply succeeds_forget; by apply perform_succeeds|].
  intros all_users. apply succeeds_when, succeeds_for_each. intros user.
  apply succeeds_bind.
  { apply succeeds_bind;
      [eapply succeeds_forget; by apply perform_succeeds|].
    intros state. apply succeeds_ret. }
  intros in_room. destruct in_room; simpl; [apply succeeds_ret|].
  apply succeeds_bind;
    [eapply succeeds_forget; by apply intent_user_in_room_succeeds|].
  intros _. apply succeeds_ret.
Qed.

Lemma admin_of_community_succeeds :
  succeeds (admin_of_community px (community_id config)).
Proof.
  unfold admin_of_community.
  destruct (has_create_group px) eqn:Hgroups; simpl; [|apply succeeds_ret].
  intros t. unfold bind, try_except, perform, ret.
  destruct (api_get_group_profile px t (community_id config))
    as [profile|e] eqn:Hprofile.
  - destruct (truthy_list profile); [|trace_done].
    destruct (api_get_users_in_group px _ (community_id config))
      as [users|e] eqn:Husers.
    + destruct (ok_myself _ _ Hok Hgroups _ _ Husers) as (me & Hme & Hid).
      destruct (filter _ users) as [|me' others] eqn:Hfilter.
      * exfalso. eapply not_elem_of_nil. rewrite <-Hfilter.
        by apply list_elem_of_filter.
      * destruct (negb (gu_is_privileged me')); trace_done.
    + pose proof (ok_calls _ _ Hok
                    (t ++ [GetGroupProfile (community_id config)])
                    (GetUsersInGroup (community_id config)) e) as Hc.
      simpl in Hc. rewrite Husers in Hc. by specialize (Hc eq_refl).
  - pose proof (ok_calls _ _ Hok t (GetGroupProfile (community_id config)) e)
      as Hc.
    simpl in Hc. rewrite Hprofile in Hc. specialize (Hc eq_refl).
    destruct e as [code content| | | | | |]; try done. simpl in Hc.
    rewrite bool_decide_eq_false_2.
    2:{ intros Hne. apply Hne. apply Z.eqb_eq. by destruct (code =? 404). }
    destruct (api_create_group px _ (alias_localpart (community_id config)))
      as [group_id|e] eqn:Hcreate.
    + trace_done.
    + pose proof (ok_calls _ _ Hok
                    (t ++ [GetGroupProfile (community_id config)])
                    (CreateGroup (alias_localpart (community_id config))) e)
        as Hc'.
      simpl in Hc'. rewrite Hcreate in Hc'. by specialize (Hc' eq_refl).
Qed.

(** A postcondition on the presence of calls survives earlier calls. *)
Ltac elem_mono := intros ? ? ?; rewrite !elem_of_app; tauto.

Lemma mirror_channel_succeeds bot_id community rooms item :
  succeeds_with (mirror_channel px config bot_id community rooms item)
    (λ _ (calls : list call),
       channel_done item calls ∧
       ∃ room_id,
         filter is_metadata_call calls = metadata_calls config room_id item).
Proof.
  destruct item as [channel_id [[channel_name room_alias] topic]].
  unfold mirror_channel. cbv beta iota zeta.
  eapply succeeds_with_bind.
  { eapply (succeeds_with_issues _ _ (λ c, is_metadata_call c = false));
      [apply join_bot_to_channel_succeeds|].
    unfold join_bot_to_channel, get_room_members. issues_walk; reflexivity. }
  intros _ e1 [Hstart Hnone1].
  eapply succeeds_with_bind.
  { eapply (succeeds_with_issues _ _ (λ c, is_metadata_call c = false));
      [apply intent_self_in_room_succeeds|].
    unfold intent_self_in_room, room_id_if_exists, join_room, coroutine_truth.
    issues_walk; reflexivity. }
  intros room_id e2 [Hbang Hnone2].
  eapply succeeds_with_bind;
    [apply (set_name_topic_avatar_succeeds room_id channel_id channel_name
              room_alias topic)|].
  intros _ e3 ->.
  eapply succeeds_with_mono.
  { apply (succeeds_with_issues _
             (λ _ e4,
                Respond ("ERROR: Could not invite appservice bot" +:+ "to "
                         +:+ room_alias +:+ ", skipping channel.") None ∈ e4 ∨
                Respond ("Finished Adding room " +:+ room_alias) None ∈ e4)
             (λ c, is_metadata_call c = false)).
    - apply succeeds_with_bind_r;
        [elem_mono|apply succeeds_when, make_room_public_succeeds|].
      intros _.
      apply (succeeds_with_bind _ _ (λ r _, r = None ∨ r = Some room_id));
        [by apply intent_user_in_room_succeeds|].
      intros r e5 [->| ->].
      + eapply succeeds_with_mono; [apply respond_succeeds_with|].
        intros _ ? ->. left. apply elem_of_app. right. by left.
      + apply succeeds_with_bind_r;
          [elem_mono|by apply configure_room_power_levels_succeeds|].
        intros _.
        apply succeeds_with_bind_r;
          [elem_mono|apply succeeds_when, update_related_groups_succeeds|].
        intros _.
        apply succeeds_with_bind_r; [elem_mono|apply respond_succeeds|].
        intros _.
        apply succeeds_with_bind_r; [elem_mono| |].
        { apply succeeds_for_each. intros user.
          apply succeeds_bind;
            [eapply succeeds_forget; by apply intent_user_in_room_succeeds|].
          intros _. apply succeeds_ret. }
        intros _.
        apply succeeds_with_bind_r;
          [elem_mono|by apply add_room_to_community_succeeds|].
        intros _.
        eapply succeeds_with_mono; [apply respond_succeeds_with|].
        intros _ ? ->. right. apply elem_of_app. right. by left.
    - unfold make_room_public, configure_room_power_levels, get_power_levels,
        set_power_levels, update_related_groups, get_related_groups,
        set_related_groups, add_room_to_community, user_in_state,
        room_id_if_exists.
      issues_walk.
      all: first [reflexivity | call_cases]. }
  intros _ e4 [Hend Hnone4]. split.
  - split; [apply elem_of_app; by left|].
    destruct Hend as [Hend|Hend]; [left|right];
      do 3 (apply elem_of_app; right); done.
  - exists room_id.
    rewrite !filter_app, (filter_metadata_none e1), (filter_metadata_none e2),
      filter_metadata_calls, (filter_metadata_none e4) by done.
    by rewrite app_nil_r.
Qed.

Lemma mirror_channels_succeed bot_id community rooms items :
  succeeds_with
    (for_each items (mirror_channel px config bot_id community rooms))
    (λ _ (calls : list call),
       (∀ item, item ∈ items → channel_done item calls) ∧
       ∃ room_ids,
         length room_ids = length items ∧
         filter is_metadata_call calls
         = concat (zip_with (metadata_calls config) room_ids items)).
Proof.
  induction items as [|item items IH]; simpl.
  - apply succeeds_with_ret. split; [|by exists []].
    intros item Hin. by apply elem_of_nil in Hin.
  - eapply succeeds_with_bind; [apply mirror_channel_succeeds|].
    intros _ e1 [Hdone (room_id & Hmeta)].
    eapply succeeds_with_mono; [apply IH|].
    intros _ e2 [Hrest (room_ids & Hlen & Hmetas)]. split.
    + intros item' Hin. apply elem_of_cons in Hin as [->|Hin].
      * by apply channel_done_app_l.
      * apply channel_done_app_r. by apply Hrest.
    + exists (room_id :: room_ids). split; [simpl; by rewrite Hlen|].
      by rewrite filter_app, Hmeta, Hmetas.
Qed.

Lemma filter_metadata_frame (pre calls post : list call) :
  Forall (λ c, is_metadata_call c = false) pre →
  Forall (λ c, is_metadata_call c = false) post →
  filter is_metadata_call (pre ++ calls ++ post)
  = filter is_metadata_call calls.
Proof.
  intros Hpre Hpost.
  rewrite !filter_app, (filter_metadata_none pre), (filter_metadata_none post)
    by done.
  by rewrite app_nil_r.
Qed.

(** When no call fails fatally the sweep returns; the pipeline of every
    discovered channel has reached one of its ends, and the name, topic and
    avatar calls are those of the discovered channels, in order. *)
Lemma mirror_slack_channels_succeeds mem t new_channels :
  get_new_channels (slack_channels px) config (default ∅ (seen_channels mem))
    = Ok new_channels →
  ∃ mem' (calls : list call) room_ids,
    mirror_slack_channels px config (mem, t) = (Ok tt, (mem', t ++ calls)) ∧
    (∀ item, item ∈ new_channels → channel_done item calls) ∧
    length room_ids = length new_channels ∧
    filter is_metadata_call calls
    = concat (zip_with (metadata_calls config) room_ids new_channels).
Proof.
  intros Hnew.
  pose proof (ok_slack_get_user_id _ _ Hok (bridge_bot_name config)) as Hbot.
  destruct (slack_get_user_id px (bridge_bot_name config)) as [bot|e]
    eqn:Hbot_id; [clear Hbot|done].
  assert (∃ community pre rooms,
    Forall (λ c, is_metadata_call c = false) pre ∧
    mirror_slack_channels px config (mem, t)
    = (lift_plat (for_each new_channels
                    (mirror_channel px config bot community rooms)) ;;;
       when (truthy_list new_channels)
            (memory_put_seen_channels
               (ledger_update (default ∅ (seen_channels mem))
                  new_channels) ;;;
             lift_plat (respond px "Finished adding all rooms." None)))
        (mem, t ++ pre)) as (community & pre & rooms & Hpre & ->).
  { assert (issues (admin_of_community px (community_id config))
              (λ c, is_metadata_call c = false)) as Hadmin.
    { eapply issues_mono; [apply admin_of_community_issues|]. call_cases. }
    destruct (succeeds_with_issues _ _ _ admin_of_community_succeeds Hadmin
                (t ++ [MemoryGet "seen_channels"]))
      as (community & e1 & Hrun1 & _ & Hnone1).
    destruct (truthy_opt_str community) eqn:Htruthy.
    - pose proof (ok_calls _ _ Hok
                    ((t ++ [MemoryGet "seen_channels"]) ++ e1)
                    (GetRoomsInGroup (default "" community))) as Hc.
      simpl in Hc.
      destruct (api_get_rooms_in_group px
                  ((t ++ [MemoryGet "seen_channels"]) ++ e1)
                  (default "" community)) as [rooms|e] eqn:Hrooms;
        [|by specialize (Hc e eq_refl)].
      exists community,
        (MemoryGet "seen_channels" :: e1
         ++ [GetRoomsInGroup (default "" community)]), rooms.
      split.
      { apply Forall_cons. split; [done|]. apply Forall_app. split; [done|].
        by apply Forall_singleton. }
      unfold mirror_slack_channels, bind, lift_result,
        memory_get_seen_channels, lift_plat, perform.
      rewrite Hbot_id, Hnew, Hrun1, Htruthy, Hrooms.
      by rewrite <-!app_assoc.
    - exists community, (MemoryGet "seen_channels" :: e1), [].
      split; [by apply Forall_cons|].
      unfold mirror_slack_channels, bind, lift_result,
        memory_get_seen_channels, lift_plat, ret.
      rewrite Hbot_id, Hnew, Hrun1, Htruthy.
      by rewrite <-!app_assoc. }
  unfold bind, lift_plat, when, ret, memory_put_seen_channels, respond,
    perform.
  destruct (mirror_channels_succeed bot community rooms new_channels
              (t ++ pre))
    as (_ & e2 & -> & Hdone & room_ids & Hlen & Hmeta).
  destruct new_channels as [|item items]; cbn [truthy_list].
  - exists mem, (pre ++ e2 ++ []), room_ids.
    split; [by rewrite app_nil_r, app_assoc|].
    split; [intros item Hin; by apply elem_of_nil in Hin|]. split; [done|].
    by rewrite filter_metadata_frame.
  - pose proof (ok_calls _ _ Hok
                  (((t ++ pre) ++ e2) ++ [MemoryPut "seen_channels"])
                  (Respond "Finished adding all rooms." None)) as Hc.
    simpl in Hc.
    destruct (chat_respond px
                (((t ++ pre) ++ e2) ++ [MemoryPut "seen_channels"])
                "Finished adding all rooms." None) as [[]|e];
      [|by specialize (Hc e eq_refl)].
    eexists _,
      (pre ++ e2 ++ [MemoryPut "seen_channels";
                     Respond "Finished adding all rooms." None]),
      room_ids.
    split; [by rewrite <-!app_assoc|].
    split; [|split; [done|]].
    + intros item' Hin. apply channel_done_app_r, channel_done_app_l.
      by apply Hdone.
    + rewrite filter_metadata_frame; [done..|].
      apply Forall_cons. split; [done|]. by apply Forall_singleton.
Qed.

End Isolation.

(** *** Platforms on which no call fails fatally *)

Lemma startswith_bang (s : string) : startswith "!" ("!" +:+ s) = true.
Proof. by destruct s. Qed.

Lemma pl_example_wf : pl_wf pl_example.
Proof.
  split; [eexists; reflexivity|]. intros n. vm_compute. discriminate.
Qed.

Lemma px_ideal_unguarded_ok channels config :
  (∀ url, room_avatar_url config = Some url → truthy_str url = true →
          startswith "mxc" url = true) →
  unguarded_calls_succeed (px_ideal channels) config.
Proof.
  intros Havatar. split; try done.
  - intros t c e. destruct c; simpl; try done.
    by destruct (bool_decide _).
  - intros t room_alias room_id Hid. simpl in Hid. injection Hid as <-.
    apply startswith_bang.
  - intros t alias_local room_id Hid. simpl in Hid. injection Hid as <-.
    apply startswith_bang.
  - intros t room_id pl Hpl. simpl in Hpl. injection Hpl as <-.
    apply pl_example_wf.
Qed.

Lemma px_hostile_unguarded_ok : unguarded_calls_succeed px_hostile cfg_full.
Proof.
  split.
  - done.
  - intros t c e. destruct c; simpl; try done.
    all: try (intros [= <-]; reflexivity).
    + destruct (last t) as [[]|]; simpl; try done.
      all: by intros [= <-].
    + destruct (String.eqb alias_local "br-random"); simpl; [|done].
      by intros [= <-].
    + by destruct (String.eqb event_type "m.room.join_rules").
    + destruct (_ && _); simpl; [|done]. by intros [= <-].
  - intros t room _. simpl. by rewrite last_snoc.
  - intros t room_alias room_id. simpl.
    destruct (last t) as [[]|]; try done. intros [= <-].
    apply startswith_bang.
  - intros t alias_local room_id. simpl.
    destruct (String.eqb alias_local "br-random"); [done|]. intros [= <-].
    apply startswith_bang.
  - intros _ t users [= <-]. eexists. split; [by left|done].
  - by intros url [= <-] _.
  - intros t room_id pl [= <-]. apply pl_example_wf.
Qed.

(** *** The claim *)


(** A sweep over two new channels in which every call under a [try] fails:
    the group profile, the Slack invites, the first lookup of each alias, the
    creation of the second room, the join-rule events, the appservice invite
    to the first room, the lookup of the related groups and
    [add_room_to_group].  The first channel is skipped, the second is linked,
    and the sweep returns. *)
Example sweep_hostile_run :
  mirror_slack_channels px_hostile cfg_full (mem_empty, [])
  = (Ok tt,
     ({| seen_channels :=
           Some {[ "C1" := ("general", "#br-general:example.org",
                            "Company-wide");
                   "C2" := ("random", "#br-random:example.org", "") ]};
         autoinvite_users := None;
         picard_options := ∅ |},
      [MemoryGet "seen_channels";
       GetGroupProfile "+picard:example.org";
       CreateGroup "picard";
       GetRoomsInGroup "+picard:example.org";
       SlackConversationsMembers "C1";
       SlackChannelsInvite "C1" "U1";
       GetRoomId "#br-general:example.org";
       CreateRoom "br-general";
       JoinRoom "!br-general";
       SetRoomName "!br-general" "Slack general";
       SetRoomTopic "!br-general" "Company-wide";
       SendStateEvent "!br-general" "m.room.avatar"
         (AvatarUrl "mxc://example.org/logo");
       SendStateEvent "!br-general" "m.room.join_rules" (JoinRule "public");
       Respond ("ERROR: Could not make #br-general:example.org"
                +:+ " publically joinable.") None;
       InviteUser "!br-general" "@slackbot:example.org";
       Respond ("ERROR: Could not invite appservice botto "
                +:+ "#br-general:example.org, skipping channel.") None;
       SlackConversationsMembers "C2";
       SlackChannelsInvite "C2" "U1";
       GetRoomId "#br-random:example.org";
       CreateRoom "br-random";
       GetRoomId "#br-random:example.org";
       JoinRoom "!#br-random:example.org";
       SetRoomName "!#br-random:example.org" "Slack random";
       SendStateEvent "!#br-random:example.org" "m.room.avatar"
         (AvatarUrl "mxc://example.org/logo");
       SendStateEvent "!#br-random:example.org" "m.room.join_rules"
         (JoinRule "public");
       Respond ("ERROR: Could not make #br-random:example.org"
                +:+ " publically joinable.") None;
       InviteUser "!#br-random:example.org" "@slackbot:example.org";
       GetPowerLevels (Some "!#br-random:example.org");
       InviteUser "!#br-random:example.org" "@admin:example.org";
       SetPowerLevels (Some "!#br-random:example.org")
         {[ "users" := PLMap {[ "@mod:example.org" := 50;
                                "@root:example.org" := 101;
                                "@admin:example.org" := 100 ]};
            "notifications" := PLMap {[ "room" := 0; "call" := 20 ]};
            "ban" := PLInt 50 ]};
       GetRelatedGroups "!#br-random:example.org";
       SendStateEvent "!#br-random:example.org" "m.room.related_groups"
         (Groups ["+picard:example.org"]);
       Respond ("link --channel_id C2 --room !#br-random:example.org"
                +:+ " --slack_bot_token xoxb-1 --slack_user_token xoxp-1")
               (Some "bridge");
       InviteUser "!#br-random:example.org" "@ada:example.org";
       AddRoomToGroup "+picard:example.org" "!#br-random:example.org";
       GetUsersInGroup "+picard:example.org";
       GetRoomState "!#br-random:example.org";
       GetRoomState "!#br-random:example.org";
       InviteUser "!#br-random:example.org" "@ada:example.org";
       Respond "Finished Adding room #br-random:example.org" None;
       MemoryPut "seen_channels";
       Respond "Finished adding all rooms." None])).
Proof. vm_compute. reflexivity. Qed.



(** ** C2: the skip flags and the sweep *)


Lemma mirror_slack_channels_options px `{PySet} config mem options t :
  let mem_o := {| seen_channels := seen_channels mem;
                  autoinvite_users := autoinvite_users mem;
                  picard_options := options |} in
  (mirror_slack_channels px config (mem_o, t)).1
  = (mirror_slack_channels px config (mem, t)).1 ∧
  (mirror_slack_channels px config (mem_o, t)).2.2
  = (mirror_slack_channels px config (mem, t)).2.2.
Proof.
  unfold mirror_slack_channels, bind, lift_result, memory_get_seen_channels,
    lift_plat, when, ret, memory_put_seen_channels, respond, perform. simpl.
  destruct (slack_get_user_id px (bridge_bot_name config)) as [bot|e];
    [|done].
  destruct (get_new_channels (slack_channels px) config
              (default ∅ (seen_channels mem))) as [new|e]; [|done].
  destruct (admin_of_community px (community_id config) _)
    as [[community|e] t1]; [|done].
  destruct (truthy_opt_str community).
  - simpl. destruct (api_get_rooms_in_group px _ _) as [rooms|e]; [|done].
    destruct (for_each new _ _) as [[[]|e] t2]; [|done].
    by destruct new.
  - destruct (for_each new _ _) as [[[]|e] t2]; [|done].
    by destruct new.
Qed.


